(** * Sprite animation clip: playback state machine and asset binding

    A shallow embedding of [pc.SpriteAnimationClip]
    (src/framework/components/sprite/sprite-animation-clip.js) together with
    the properties its specification states about it. *)

From stdpp Require Import base option list strings gmap.
From Stdlib Require Import ZArith QArith Qround Qabs Qpower Lqa Lia Bool String.
From Stdlib Require PrimFloat FloatOps SpecFloat Uint63.

Local Open Scope string_scope.
Local Open Scope list_scope.
Local Open Scope Q_scope.

(** ** JavaScript numbers

    A JavaScript Number is modelled as a rational extended with the
    IEEE-754 special values [NaN] and the two infinities.  The result of an
    arithmetic operation is rounded as binary64 rounds it: to the nearest
    number of 53 significant bits, the even one of two that are equally
    near, with denormals down to [2^-1074] and overflow to an infinity.
    There is a single zero (the sign of zero is observable in the clip only
    through a division of a non-zero number by zero, which is given the sign
    of the dividend). *)
Module JS.

Inductive num : Type :=
| NaN : num
| Inf (negative : bool) : num
| Fin (q : Q) : num.

Definition Qltb (x y : Q) : bool := negb (Qle_bool y x).

Definition is_zero (q : Q) : bool := Qeq_bool q 0.

(** The binade of a positive rational: the [e] with [2^e <= q < 2^(e+1)]. *)
Definition binade (q : Q) : Z :=
  let e := (Z.log2 (Qnum q) - Z.log2 (Zpos (Qden q)))%Z in
  if Qle_bool (2 ^ e) q then e else (e - 1)%Z.

(** The integer nearest to [q], the even one of two that are equally
    near. *)
Definition half_even (q : Q) : Z :=
  let k := Qfloor q in
  match Qcompare (q - inject_Z k) (1 # 2) with
  | Lt => k
  | Gt => (k + 1)%Z
  | Eq => if Z.even k then k else (k + 1)%Z
  end.

(** The distance between the binary64 numbers around [q]: 53 significant
    bits, and no less than [2^-1074]. *)
Definition spacing (q : Q) : Q :=
  2 ^ Z.max (binade (Qabs q) - 52) (-1074).

(** The binary64 number nearest to [q], ties to even, overflow apart. *)
Definition nearest (q : Q) : Q :=
  if is_zero q then 0
  else Qred (inject_Z (half_even (q / spacing q)) * spacing q).

(** Smallest magnitude that binary64 round-to-nearest sends to an infinity:
    [2^1024 - 2^970]. *)
Definition overflow_bound : Q := inject_Z (2 ^ 1024 - 2 ^ 970).

(** The Number that an exact finite result [q] of an operation becomes. *)
Definition round (q : Q) : num :=
  if Qltb (Qabs q) overflow_bound then Fin (nearest q) else Inf (Qltb q 0).

Definition zero : num := Fin 0.

(** [Number.MIN_VALUE], the smallest positive denormal, [2^-1074]. *)
Definition MIN_VALUE : num := Fin (1 # (2 ^ 1074)).

(** The Number of an array length (array lengths are below [2^32], so
    neither rounding nor overflow is involved). *)
Definition of_nat (n : nat) : num := Fin (inject_Z (Z.of_nat n)).

(** [x + y] *)
Definition add (x y : num) : num :=
  match x, y with
  | NaN, _ | _, NaN => NaN
  | Inf s, Inf s' => if Bool.eqb s s' then Inf s else NaN
  | Inf s, Fin _ | Fin _, Inf s => Inf s
  | Fin p, Fin q => round (p + q)
  end.

(** [x * y] *)
Definition mul (x y : num) : num :=
  match x, y with
  | NaN, _ | _, NaN => NaN
  | Inf s, Inf s' => Inf (xorb s s')
  | Inf s, Fin q | Fin q, Inf s =>
      if is_zero q then NaN else Inf (xorb s (Qltb q 0))
  | Fin p, Fin q => round (p * q)
  end.

(** [x / y] *)
Definition div (x y : num) : num :=
  match x, y with
  | NaN, _ | _, NaN => NaN
  | Inf _, Inf _ => NaN
  | Inf s, Fin q => Inf (xorb s (Qltb q 0))
  | Fin _, Inf _ => zero
  | Fin p, Fin q =>
      if is_zero q then (if is_zero p then NaN else Inf (Qltb p 0))
      else round (p / q)
  end.

(** Integer part of [q], rounding towards zero. *)
Definition Qtrunc (q : Q) : Z :=
  if Qltb q 0 then Qceiling q else Qfloor q.

(** [x % y]: the remainder has the sign of the dividend and is exact (it
    is a binary64 number whenever [x] and [y] are). *)
Definition rem (x y : num) : num :=
  match x, y with
  | NaN, _ | _, NaN => NaN
  | Inf _, _ => NaN
  | Fin p, Inf _ => Fin p
  | Fin p, Fin q =>
      if is_zero q then NaN
      else Fin (Qred (p - q * inject_Z (Qtrunc (p / q))))
  end.

(** [Math.floor(x)] *)
Definition floor (x : num) : num :=
  match x with
  | Fin q => Fin (inject_Z (Qfloor q))
  | _ => x
  end.

(** [x < y]; every comparison with [NaN] is false. *)
Definition lt (x y : num) : bool :=
  match x, y with
  | NaN, _ | _, NaN => false
  | Inf s, Inf s' => s && negb s'
  | Inf s, Fin _ => s
  | Fin _, Inf s => negb s
  | Fin p, Fin q => Qltb p q
  end.

(** [x <= y] *)
Definition le (x y : num) : bool :=
  match x, y with
  | NaN, _ | _, NaN => false
  | Inf s, Inf s' => s || negb s'
  | Inf s, Fin _ => s
  | Fin _, Inf s => negb s
  | Fin p, Fin q => Qle_bool p q
  end.

(** [x > y] and [x >= y] *)
Definition gt (x y : num) : bool := lt y x.
Definition ge (x y : num) : bool := le y x.

(** [x === y] on Numbers: [NaN] is different from itself. *)
Definition seq (x y : num) : bool :=
  match x, y with
  | Inf s, Inf s' => Bool.eqb s s'
  | Fin p, Fin q => Qeq_bool p q
  | _, _ => false
  end.

(** [x !== y] *)
Definition sne (x y : num) : bool := negb (seq x y).

(** Truthiness of a Number: [0] and [NaN] are falsy. *)
Definition truthy (x : num) : bool :=
  match x with
  | NaN => false
  | Inf _ => true
  | Fin q => negb (is_zero q)
  end.

(** [x || y] on Numbers *)
Definition or_else (x y : num) : num := if truthy x then x else y.

Definition is_finite (x : num) : bool :=
  match x with Fin _ => true | _ => false end.

End JS.

(** Modelled from the spec: [pc.math.clamp], which the files at hand call
    but do not define; the "clamp" of a value to an interval, the upper
    bound being tested first. *)
Definition clamp (value min max : JS.num) : JS.num :=
  if JS.ge value max then max
  else if JS.le value min then min
  else value.

Import JS.

(** *** The binary64 numbers of the kernel

    Rocq's kernel computes with the binary64 numbers of the machine.  They
    are used to test the rounding of [JS.round]: on the samples below the
    operations of [JS] give the Numbers the machine gives. *)

(** The Number that a binary64 value of the kernel is; its two zeros are
    the one zero of [JS.num]. *)
Definition of_float (x : PrimFloat.float) : num :=
  match FloatOps.Prim2SF x with
  | SpecFloat.S754_zero _ => Fin 0
  | SpecFloat.S754_infinity s => Inf s
  | SpecFloat.S754_nan => NaN
  | SpecFloat.S754_finite s m e =>
      Fin (Qred ((if s then -1 else 1) * inject_Z (Zpos m) * 2 ^ e))
  end.

(** The binary64 value of an integer below [2^53] in magnitude. *)
Definition float_of_Z (z : Z) : PrimFloat.float :=
  if (z <? 0)%Z
  then PrimFloat.opp (PrimFloat.of_uint63 (Uint63.of_Z (- z)))
  else PrimFloat.of_uint63 (Uint63.of_Z z).

(** The binary64 value [m * 2^e]. *)
Definition float_scaled (m e : Z) : PrimFloat.float :=
  FloatOps.Z.ldexp (float_of_Z m) e.

(** The same Number, [NaN] being the same as [NaN] here. *)
Definition same_number (x y : num) : bool :=
  match x, y with
  | NaN, NaN => true
  | Inf s, Inf s' => Bool.eqb s s'
  | Fin p, Fin q => Qeq_bool p q
  | _, _ => false
  end.

(** The sum, the product and the quotient of [x] and [y] are the Numbers
    the machine computes. *)
Definition agree (x y : PrimFloat.float) : bool :=
  same_number (add (of_float x) (of_float y)) (of_float (PrimFloat.add x y))
  && same_number (mul (of_float x) (of_float y))
       (of_float (PrimFloat.mul x y))
  && same_number (div (of_float x) (of_float y))
       (of_float (PrimFloat.div x y)).

(** The pairs [(a, b)] with [-n <= a <= n] and [1 <= b <= n]. *)
Definition fractions (n : Z) : list (Z * Z) :=
  a ← seqZ (- n) (2 * n + 1); b ← seqZ 1 n; [(a, b)].

(** Pairs of numbers at the limits of binary64, both signs of each: the
    smallest denormals and their ties, the ends of the denormal range,
    underflow to zero, numbers around [2^53], the largest finite numbers
    and overflow; and divisions by the zero. *)
Definition limits : list (PrimFloat.float * PrimFloat.float) :=
  let tiny := float_scaled 1 (-1074) in
  let largest := float_scaled (2 ^ 53 - 1) 971 in
  ('(x, y) ←
     [(tiny, float_of_Z 2); (float_scaled 3 (-1074), float_of_Z 2);
      (float_scaled 5 (-1074), float_of_Z 2); (tiny, float_scaled 3 (-2));
      (tiny, float_scaled 1 (-2)); (tiny, tiny); (tiny, float_of_Z 10);
      (float_scaled (2 ^ 52 - 1) (-1074), tiny);
      (float_scaled (2 ^ 52) (-1074), tiny);
      (float_scaled (2 ^ 52 + 1) (-1074), float_of_Z 3);
      (float_scaled 1 (-1022), float_scaled 3 (-1));
      (float_scaled 1 (-537), float_scaled 1 (-537));
      (float_scaled 1 (-537), float_scaled 1 (-538));
      (float_scaled 3 (-537), float_scaled 1 (-538));
      (float_scaled 1 53, float_of_Z 1); (float_scaled 1 53, float_of_Z 3);
      (float_of_Z (2 ^ 53 - 1), float_of_Z 3);
      (float_scaled 1 54, float_of_Z 3); (float_of_Z 1, tiny);
      (float_of_Z 4, tiny); (float_scaled 1 511, float_scaled 1 512);
      (float_scaled 1 512, float_scaled 1 512);
      (largest, float_scaled 1 970); (largest, float_scaled 1 969);
      (largest, float_scaled 3 968); (largest, largest);
      (largest, float_of_Z 2); (largest, float_scaled 1 (-1));
      (float_scaled 1 1023, float_scaled 1 1023);
      (float_scaled (2 ^ 53 - 1) 970, float_scaled (2 ^ 53 - 1) 970);
      (float_of_Z 3, float_of_Z 10); (float_of_Z 0, float_of_Z 7)];
   [(x, y); (PrimFloat.opp x, y); (x, PrimFloat.opp y);
    (PrimFloat.opp x, PrimFloat.opp y)])
  ++ [(float_of_Z 0, float_of_Z 0); (float_of_Z 1, float_of_Z 0);
      (float_of_Z (-1), float_of_Z 0); (largest, float_of_Z 0)].

(** ** Data model *)

(** A texture atlas as far as the clip looks at it: its [texture]. *)
Record atlas_t : Type := { texture : option Z }.

(** [pc.Sprite]: an object (identified by [sprite_ref]) with its ordered
    frames and its atlas. *)
Record sprite_t : Type := {
  sprite_ref : Z;
  frames : list string;
  atlas : option atlas_t
}.

(** The events a clip fires. *)
Inductive event : Type :=
| ev_play | ev_pause | ev_resume | ev_stop | ev_end | ev_loop.

(** Calls the clip makes into its collaborators, in program order. *)
Inductive effect : Type :=
| Fire (e : event)                       (* this.fire(e) *)
| ComponentFire (e : event)              (* this._component.fire(e, this) *)
| ShowFrame (v : num)                    (* this._component._showFrame(v) *)
| DeleteParameter (p : string)           (* mi.deleteParameter(p) *)
| SetParameter (p : string) (t : Z)      (* mi.setParameter(p, t) *)
| SpriteOff (r : Z)                      (* sprite.off('set:meshes', ...) *)
| SpriteOn (r : Z).                      (* sprite.on('set:meshes', ...) *)

(** The fields of a [SpriteAnimationClip] instance.  [_spriteAsset] is
    [None] for [null] and an asset id otherwise. *)
Record clip : Type := {
  _frame : num;
  _sprite : option sprite_t;
  _spriteAsset : option Z;
  name : string;
  fps : num;
  loop : bool;
  _playing : bool;
  _paused : bool;
  _time : num
}.

(** What the clip reads of its owning component: the playback speed,
    whether [currentClip] is this clip, and whether a mesh instance exists. *)
Record component_t : Type := {
  speed : num;
  currentClip_is_this : bool;
  _meshInstance : bool
}.

(** The clip, its component and the calls made so far. *)
Record state : Type := {
  this : clip;
  component : component_t;
  effects : list effect
}.

Definition with_frame (v : num) (c : clip) : clip :=
  {| _frame := v; _sprite := _sprite c; _spriteAsset := _spriteAsset c;
     name := name c; fps := fps c; loop := loop c; _playing := _playing c;
     _paused := _paused c; _time := _time c |}.

Definition with_time (v : num) (c : clip) : clip :=
  {| _frame := _frame c; _sprite := _sprite c; _spriteAsset := _spriteAsset c;
     name := name c; fps := fps c; loop := loop c; _playing := _playing c;
     _paused := _paused c; _time := v |}.

Definition with_sprite (v : option sprite_t) (c : clip) : clip :=
  {| _frame := _frame c; _sprite := v; _spriteAsset := _spriteAsset c;
     name := name c; fps := fps c; loop := loop c; _playing := _playing c;
     _paused := _paused c; _time := _time c |}.

Definition with_spriteAsset (v : option Z) (c : clip) : clip :=
  {| _frame := _frame c; _sprite := _sprite c; _spriteAsset := v;
     name := name c; fps := fps c; loop := loop c; _playing := _playing c;
     _paused := _paused c; _time := _time c |}.

Definition with_playing (v : bool) (c : clip) : clip :=
  {| _frame := _frame c; _sprite := _sprite c; _spriteAsset := _spriteAsset c;
     name := name c; fps := fps c; loop := loop c; _playing := v;
     _paused := _paused c; _time := _time c |}.

Definition with_paused (v : bool) (c : clip) : clip :=
  {| _frame := _frame c; _sprite := _sprite c; _spriteAsset := _spriteAsset c;
     name := name c; fps := fps c; loop := loop c; _playing := _playing c;
     _paused := v; _time := _time c |}.

(** Apply [f] to the clip of a state. *)
Definition on_this (f : clip -> clip) (s : state) : state :=
  {| this := f (this s); component := component s; effects := effects s |}.

(** Record the calls [es] after those already made. *)
Definition emit (es : list effect) (s : state) : state :=
  {| this := this s; component := component s; effects := effects s ++ es |}.

(** [this.fire(e); this._component.fire(e, this);] *)
Definition fire (e : event) : state -> state :=
  emit [Fire e; ComponentFire e].

(** [sprite.frames.length] as a Number. *)
Definition frame_count (sp : sprite_t) : num := of_nat (List.length (frames sp)).

(** ** Properties and methods of the clip *)

(** Getter [duration]. *)
Definition duration (c : clip) : num :=
  match _sprite c with
  | Some sp =>
      let fps := or_else (fps c) MIN_VALUE in
      div (frame_count sp) fps
  | None => zero
  end.

(** Setter [frame]. *)
Definition set_frame (value : num) (s : state) : state :=
  let s :=
    match _sprite (this s) with
    | Some sp =>
        (* clamp frame *)
        let frames := frame_count sp in
        let s := on_this (with_frame (clamp value zero frames)) s in
        (* update time to start of frame *)
        let fps := or_else (fps (this s)) MIN_VALUE in
        on_this (with_time
          (clamp (div (_frame (this s)) fps) zero (duration (this s)))) s
    | None =>
        on_this (with_time zero) (on_this (with_frame value) s)
    end in
  if currentClip_is_this (component s)
  then emit [ShowFrame value] s
  else s.

(** Setter [time]. *)
Definition set_time (value : num) (s : state) : state :=
  let s := on_this (with_time value) s in
  let duration := duration (this s) in
  let s :=
    if lt (_time (this s)) zero then on_this (with_time zero) s
    else if gt (_time (this s)) duration then
      if loop (this s)
      then on_this (with_time (rem (_time (this s)) duration)) s
      else on_this (with_time duration) s
    else s in
  match _sprite (this s) with
  | Some sp =>
      set_frame
        (floor (div (mul (frame_count sp) (_time (this s))) duration)) s
  | None => set_frame zero s
  end.

(** [_update(dt)]: advances the animation, looping if necessary. *)
Definition _update (dt : num) (s : state) : state :=
  if seq (fps (this s)) zero then s
  else if negb (_playing (this s)) || _paused (this s) then s
  else
    let s :=
      on_this (with_time
        (add (_time (this s)) (mul dt (speed (component s))))) s in
    let duration := duration (this s) in
    let ended := gt (_time (this s)) duration in
    let s :=
      if ended then
        if loop (this s)
        then on_this (with_time (rem (_time (this s)) duration)) s
        else on_this (with_time duration) s
      else s in
    let frame :=
      match _sprite (this s) with
      | Some sp =>
          floor (div (mul (frame_count sp) (_time (this s))) duration)
      | None => zero
      end in
    let s := if sne frame (_frame (this s)) then set_frame frame s else s in
    if ended then
      if loop (this s) then fire ev_loop s
      else
        fire ev_end
          (on_this (with_paused false) (on_this (with_playing false) s))
    else s.

(** [play()] *)
Definition play (s : state) : state :=
  if _playing (this s) then s
  else
    let s := on_this (with_playing true) s in
    let s := on_this (with_paused false) s in
    let s := set_frame zero s in
    fire ev_play s.

(** [pause()] *)
Definition pause (s : state) : state :=
  if negb (_playing (this s)) || _paused (this s) then s
  else fire ev_pause (on_this (with_paused true) s).

(** [resume()] *)
Definition resume (s : state) : state :=
  if negb (_paused (this s)) then s
  else fire ev_resume (on_this (with_paused false) s).

(** [stop()] *)
Definition stop (s : state) : state :=
  if negb (_playing (this s)) then s
  else
    let s := on_this (with_playing false) s in
    let s := on_this (with_paused false) s in
    let s := on_this (with_time zero) s in
    let s := set_frame zero s in
    fire ev_stop s.

(** Setter [sprite]. *)
Definition set_sprite (value : option sprite_t) (s : state) : state :=
  let s :=
    match _sprite (this s) with
    | Some old => emit [SpriteOff (sprite_ref old)] s
    | None => s
    end in
  let s := on_this (with_sprite value) s in
  let s :=
    match _sprite (this s) with
    | Some sp => emit [SpriteOn (sprite_ref sp)] s
    | None => s
    end in
  if currentClip_is_this (component s) then
    match value with
    | Some {| atlas := Some a |} =>
        (* update texture *)
        let s :=
          match texture a with
          | Some t =>
              if _meshInstance (component s)
              then emit [SetParameter "texture_emissiveMap" t;
                         SetParameter "texture_opacityMap" t] s
              else s
          | None => s
          end in
        if truthy (_time (this s))
        then set_time (_time (this s)) s
        else set_frame (_frame (this s)) s
    | _ =>
        (* clear old mesh instance parameters *)
        if _meshInstance (component s)
        then emit [DeleteParameter "texture_emissiveMap";
                   DeleteParameter "texture_opacityMap"] s
        else s
    end
  else s.

(** [_onSpriteMeshesChange()] *)
Definition _onSpriteMeshesChange (s : state) : state :=
  if currentClip_is_this (component s)
  then emit [ShowFrame (_frame (this s))] s
  else s.

(** ** Asset binding *)

(** The methods of the clip that it registers as event handlers. *)
Inductive handler : Type :=
| h_onSpriteAssetAdded
| h_onSpriteAssetLoad
| h_onSpriteAssetChange
| h_onSpriteAssetRemove
| h_onTextureAtlasLoad.

(** Event names: ['add:' + id] and ['load:' + id] on the asset registry,
    ["load"], ["change"] and ["remove"] on an asset. *)
Inductive ename : Type :=
| e_add (id : Z)
| e_load_id (id : Z)
| e_load
| e_change
| e_remove.

#[global] Instance handler_eq_dec : EqDecision handler.
Proof. solve_decision. Defined.

#[global] Instance ename_eq_dec : EqDecision ename.
Proof. solve_decision. Defined.

(** One registration of a handler of this clip ([scope] is always the
    clip); [l_once] marks a registration made with [once]. *)
Record listener : Type := {
  l_name : ename;
  l_handler : handler;
  l_once : bool
}.

(** Whether [l] is the registration of the handler [h] for the event [n]. *)
Definition same_listener (n : ename) (h : handler) (l : listener) : bool :=
  bool_decide (l_name l = n) && bool_decide (l_handler l = h).

(** Modelled from the spec: [on] of the event emitter [pc.events], which
    assets and the registry mix in and the files at hand do not define;
    a listener is added by name, handler and scope. *)
Definition on (n : ename) (h : handler) (ls : list listener) : list listener :=
  ls ++ [{| l_name := n; l_handler := h; l_once := false |}].

(** Modelled from the spec: [once] of [pc.events]; the listener is dropped
    when it has been called. *)
Definition once (n : ename) (h : handler) (ls : list listener)
  : list listener :=
  ls ++ [{| l_name := n; l_handler := h; l_once := true |}].

(** Modelled from the spec: [off] of [pc.events]; removing a listener that
    is not there does nothing. *)
Definition off (n : ename) (h : handler) (ls : list listener)
  : list listener :=
  List.filter (fun l => negb (same_listener n h l)) ls.

(** [pc.Asset] as the clip uses it: [id], [resource] (a sprite once
    loaded), [data.textureAtlasAsset], and the clip's listeners on it. *)
Record asset : Type := {
  asset_id : Z;
  resource : option sprite_t;
  textureAtlasAsset : Z;
  listeners : list listener
}.

Definition with_listeners (ls : list listener) (a : asset) : asset :=
  {| asset_id := asset_id a; resource := resource a;
     textureAtlasAsset := textureAtlasAsset a; listeners := ls |}.

Definition with_resource (r : option sprite_t) (a : asset) : asset :=
  {| asset_id := asset_id a; resource := r;
     textureAtlasAsset := textureAtlasAsset a; listeners := listeners a |}.

(** The clip in its application: [app.assets] with the registered assets,
    the asset objects that were removed from the registry (they live on,
    with their listeners, and may still fire events), the clip's listeners
    on the registry itself, and the [assets.load] requests made so far.
    Asset objects are told apart by their id: one that has left the
    registry is reached by its id for as long as no asset of that id is
    registered again. *)
Record world : Type := {
  st : state;
  assets : gmap Z asset;
  detached : gmap Z asset;
  registry_listeners : list listener;
  load_requests : list Z
}.

Definition on_state (f : state -> state) (w : world) : world :=
  {| st := f (st w); assets := assets w; detached := detached w;
     registry_listeners := registry_listeners w;
     load_requests := load_requests w |}.

Definition on_registry (f : list listener -> list listener) (w : world)
  : world :=
  {| st := st w; assets := assets w; detached := detached w;
     registry_listeners := f (registry_listeners w);
     load_requests := load_requests w |}.

(** The asset object of the id [id], in the registry or removed from it. *)
Definition asset_object (id : Z) (w : world) : option asset :=
  match assets w !! id with
  | Some a => Some a
  | None => detached w !! id
  end.

(** Change the asset object [id]. *)
Definition on_asset (id : Z) (f : asset -> asset) (w : world) : world :=
  {| st := st w; assets := alter f id (assets w);
     detached :=
       match assets w !! id with
       | Some _ => detached w
       | None => alter f id (detached w)
       end;
     registry_listeners := registry_listeners w;
     load_requests := load_requests w |}.

Definition request_load (id : Z) (w : world) : world :=
  {| st := st w; assets := assets w; detached := detached w;
     registry_listeners := registry_listeners w;
     load_requests := load_requests w ++ [id] |}.

(** [_onSpriteAssetLoad(asset)]; handlers receive the asset object, here
    its id.  [None] is the [TypeError] of reading a property of
    [undefined]. *)
Definition _onSpriteAssetLoad (id : Z) (w : world) : option world :=
  match asset_object id w with
  | None => None
  | Some a =>
      match resource a with
      | None => Some (on_state (set_sprite None) w)
      | Some res =>
          match atlas res with
          | None =>
              let atlasAssetId := textureAtlasAsset a in
              let w :=
                on_registry
                  (off (e_load_id atlasAssetId) h_onTextureAtlasLoad) w in
              Some (on_registry
                      (once (e_load_id atlasAssetId) h_onTextureAtlasLoad) w)
          | Some _ => Some (on_state (set_sprite (Some res)) w)
          end
      end
  end.

(** [_bindSpriteAsset(asset)] *)
Definition _bindSpriteAsset (id : Z) (w : world) : option world :=
  match assets w !! id with
  | None => None
  | Some a =>
      let w := on_asset id (fun a =>
        with_listeners (on e_load h_onSpriteAssetLoad (listeners a)) a) w in
      let w := on_asset id (fun a =>
        with_listeners (on e_change h_onSpriteAssetChange (listeners a)) a) w in
      let w := on_asset id (fun a =>
        with_listeners (on e_remove h_onSpriteAssetRemove (listeners a)) a) w in
      match resource a with
      | Some _ => _onSpriteAssetLoad id w
      | None => Some (request_load id w)
      end
  end.

(** [_onSpriteAssetAdded(asset)] *)
Definition _onSpriteAssetAdded (id : Z) (w : world) : option world :=
  match assets w !! id with
  | None => None
  | Some a =>
      let w :=
        on_registry (off (e_add (asset_id a)) h_onSpriteAssetAdded) w in
      if bool_decide (_spriteAsset (this (st w)) = Some (asset_id a))
      then _bindSpriteAsset id w
      else Some w
  end.

(** [_onTextureAtlasLoad(atlasAsset)]: [this._spriteAsset] always holds an
    id, so the sprite asset is looked up in the registry, where
    [assets.get] finds registered assets only. *)
Definition _onTextureAtlasLoad (atlasAsset : Z) (w : world) : option world :=
  match _spriteAsset (this (st w)) with
  | Some spriteAsset =>
      match assets w !! spriteAsset with
      | Some _ => _onSpriteAssetLoad spriteAsset w
      | None => None
      end
  | None => None
  end.

(** [_onSpriteAssetChange(asset)] *)
Definition _onSpriteAssetChange (id : Z) (w : world) : option world :=
  _onSpriteAssetLoad id w.

(** [_onSpriteAssetRemove(asset)] *)
Definition _onSpriteAssetRemove (id : Z) (w : world) : option world :=
  Some w.

(** The value assigned to [spriteAsset]: [null], an id, or a [pc.Asset]. *)
Inductive asset_ref : Type :=
| ref_null
| ref_id (id : Z)
| ref_asset (a : asset).

(** Truthiness of [this._spriteAsset]: [null] and the id [0] are falsy. *)
Definition id_truthy (o : option Z) : bool :=
  match o with
  | Some i => negb (i =? 0)%Z
  | None => false
  end.

(** Setter [spriteAsset]. *)
Definition set_spriteAsset (value : asset_ref) (w : world) : option world :=
  let id :=
    match value with
    | ref_null => None
    | ref_id i => Some i
    | ref_asset a => Some (asset_id a)
    end in
  if bool_decide (_spriteAsset (this (st w)) = id) then Some w
  else
    let w :=
      match _spriteAsset (this (st w)) with
      | Some old =>
          if id_truthy (Some old) then
            (* clean old event listeners *)
            match assets w !! old with
            | Some _ =>
                let w := on_asset old (fun prev => with_listeners
                  (off e_load h_onSpriteAssetLoad (listeners prev)) prev) w in
                let w := on_asset old (fun prev => with_listeners
                  (off e_change h_onSpriteAssetChange (listeners prev)) prev) w in
                on_asset old (fun prev => with_listeners
                  (off e_remove h_onSpriteAssetRemove (listeners prev)) prev) w
            | None => w
            end
          else w
      | None => w
      end in
    let w := on_state (on_this (with_spriteAsset id)) w in
    (* bind sprite asset *)
    match _spriteAsset (this (st w)) with
    | Some i =>
        if id_truthy (Some i) then
          match assets w !! i with
          | None =>
              let w := on_state (set_sprite None) w in
              Some (on_registry (on (e_add i) h_onSpriteAssetAdded) w)
          | Some _ => _bindSpriteAsset i w
          end
        else Some (on_state (set_sprite None) w)
    | None => Some (on_state (set_sprite None) w)
    end.

(** The constructor: [new SpriteAnimationClip(component, data)], for a
    component and an application in the state the clip finds them in. *)
Definition SpriteAnimationClip (component : component_t)
    (assets : gmap Z asset) (data_spriteAsset : asset_ref)
    (data_name : string) (data_fps : num) (data_loop : bool)
  : option world :=
  let c :=
    {| _frame := zero; _sprite := None; _spriteAsset := None;
       name := ""; fps := zero; loop := false; _playing := false;
       _paused := false; _time := zero |} in
  let w :=
    {| st := {| this := c; component := component; effects := [] |};
       assets := assets; detached := ∅;
       registry_listeners := []; load_requests := [] |} in
  match set_spriteAsset data_spriteAsset w with
  | None => None
  | Some w =>
      Some (on_state (on_this (fun c =>
        {| _frame := _frame c; _sprite := _sprite c;
           _spriteAsset := _spriteAsset c; name := data_name;
           fps := or_else data_fps zero; loop := data_loop;
           _playing := false; _paused := false; _time := zero |})) w)
  end.

(** *** The asset system calling back

    The registry fires ['add:' + id] when an asset is registered and
    ['load:' + id] when one is loaded; an asset fires ["load"], ["change"]
    and ["remove"] to its own listeners. *)

(** The method of the clip that a registration names. *)
Definition call (h : handler) (arg : Z) (w : world) : option world :=
  match h with
  | h_onSpriteAssetAdded => _onSpriteAssetAdded arg w
  | h_onSpriteAssetLoad => _onSpriteAssetLoad arg w
  | h_onSpriteAssetChange => _onSpriteAssetChange arg w
  | h_onSpriteAssetRemove => _onSpriteAssetRemove arg w
  | h_onTextureAtlasLoad => _onTextureAtlasLoad arg w
  end.

(** Modelled from the spec: the dispatch of [fire] in [pc.events]; the
    listeners [ls] that were registered when the event was fired are called
    in order. *)
Fixpoint call_all (ls : list listener) (arg : Z) (w : world) : option world :=
  match ls with
  | [] => Some w
  | l :: ls =>
      match call (l_handler l) arg w with
      | Some w => call_all ls arg w
      | None => None
      end
  end.

(** The registrations for the event [n]. *)
Definition named (n : ename) (ls : list listener) : list listener :=
  List.filter (fun l => bool_decide (l_name l = n)) ls.

(** Drop the [once] registrations of the event [n]. *)
Definition spend (n : ename) (ls : list listener) : list listener :=
  List.filter (fun l => negb (bool_decide (l_name l = n) && l_once l)) ls.

(** Modelled from the spec: [assets.fire(n, asset)], the registry firing
    the event [n] to the clip's listeners on it. *)
Definition registry_fire (n : ename) (arg : Z) (w : world) : option world :=
  let ls := named n (registry_listeners w) in
  call_all ls arg (on_registry (spend n) w).

(** Modelled from the spec: [asset.fire(n, asset)] on the asset object
    [id], registered or not. *)
Definition asset_fire (id : Z) (n : ename) (w : world) : option world :=
  match asset_object id w with
  | None => Some w
  | Some a =>
      let ls := named n (listeners a) in
      call_all ls id
        (on_asset id (fun a => with_listeners (spend n (listeners a)) a) w)
  end.

(** Modelled from the spec: [assets.add(asset)]; a new asset object, on
    which nothing listens yet, is registered and ['add:' + id] is fired. *)
Definition assets_add (a : asset) (w : world) : option world :=
  let w :=
    {| st := st w;
       assets := <[asset_id a := with_listeners [] a]> (assets w);
       detached := detached w;
       registry_listeners := registry_listeners w;
       load_requests := load_requests w |} in
  registry_fire (e_add (asset_id a)) (asset_id a) w.

(** Modelled from the spec: the load of the asset object [id] completes
    with the resource [res]; the asset gets its resource and fires
    ["load"], whether it is still in the registry or not. *)
Definition asset_loaded (id : Z) (res : sprite_t) (w : world) : option world :=
  asset_fire id e_load (on_asset id (with_resource (Some res)) w).

(** Modelled from the spec: [assets.remove(asset)]; the registered asset
    [id] leaves the registry, where [assets.get] no longer finds it, and
    fires ["remove"]; the asset object lives on. *)
Definition assets_remove (id : Z) (w : world) : option world :=
  match assets w !! id with
  | None => Some w
  | Some a =>
      asset_fire id e_remove
        {| st := st w;
           assets := delete id (assets w);
           detached := <[id := a]> (detached w);
           registry_listeners := registry_listeners w;
           load_requests := load_requests w |}
  end.

(** ** Vocabulary of the properties *)

(** The raw time of [_update(dt)]: [this._time + dt * this._component.speed]
    before it is compared with the duration. *)
Definition raw_time (dt : num) (s : state) : num :=
  add (_time (this s)) (mul dt (speed (component s))).

(** The time [_update(dt)] settles on before it derives the frame: the raw
    time, wrapped or stopped at the duration when it exceeds it. *)
Definition wrapped_time (dt : num) (s : state) : num :=
  let raw := raw_time dt s in
  let d := duration (this s) in
  if gt raw d then (if loop (this s) then rem raw d else d) else raw.

(** The frame derived from the time [t] of a clip of duration [d]:
    [Math.floor(frames.length * t / d)]. *)
Definition frame_at (sp : sprite_t) (t d : num) : num :=
  floor (div (mul (frame_count sp) t) d).

(** The time the frame setter stores for the assigned frame [v]: the start
    of the clamped frame, clamped to the duration. *)
Definition time_at (sp : sprite_t) (fps v d : num) : num :=
  clamp (div (clamp v zero (frame_count sp)) (or_else fps MIN_VALUE)) zero d.

(** The time the time setter settles on for the assigned value [v], before
    it derives the frame. *)
Definition settled_time (v : num) (c : clip) : num :=
  let d := duration c in
  if lt v zero then zero
  else if gt v d then (if loop c then rem v d else d)
  else v.

(** [q] is a finite JavaScript Number: a binary64 number, which rounding
    leaves as it is. *)
Definition Number (q : Q) : Prop := round q = Fin q.

(** [sprite.frames.length] as an integer. *)
Definition frame_total (sp : sprite_t) : Z :=
  Z.of_nat (List.length (frames sp)).

(** The sizes for which the arithmetic of a clip on the sprite [sp] is
    free of overflow: an array length, and a finite
    [frames.length * duration]. *)
Definition within_range (sp : sprite_t) (c : clip) : Prop :=
  (frame_total sp < 2 ^ 32)%Z /\
  is_finite (mul (frame_count sp) (duration c)) = true.

#[global] Instance event_eq_dec : EqDecision event.
Proof. solve_decision. Defined.

(** How many times the clip fired [e] among the calls [es]. *)
Definition fired (e : event) (es : list effect) : nat :=
  List.length
    (List.filter
       (fun x => match x with
                 | Fire e' => bool_decide (e' = e)
                 | _ => false
                 end) es).

(** The operations a host performs on a clip, apart from [_update]. *)
Inductive operation : Type :=
| op_set_frame (v : num)
| op_set_time (v : num)
| op_play
| op_pause
| op_resume
| op_stop.

Definition perform (o : operation) (s : state) : state :=
  match o with
  | op_set_frame v => set_frame v s
  | op_set_time v => set_time v s
  | op_play => play s
  | op_pause => pause s
  | op_resume => resume s
  | op_stop => stop s
  end.

(** The id that assigning [value] to [spriteAsset] stores. *)
Definition id_of (value : asset_ref) : option Z :=
  match value with
  | ref_null => None
  | ref_id i => Some i
  | ref_asset a => Some (asset_id a)
  end.

(** The registrations [_bindSpriteAsset] makes on an asset. *)
Definition asset_listener (l : listener) : Prop :=
  l = {| l_name := e_load; l_handler := h_onSpriteAssetLoad;
         l_once := false |} \/
  l = {| l_name := e_change; l_handler := h_onSpriteAssetChange;
         l_once := false |} \/
  l = {| l_name := e_remove; l_handler := h_onSpriteAssetRemove;
         l_once := false |}.

(** The registrations the clip makes on the registry; it waits for the
    registration of an asset of a truthy id only. *)
Definition registry_listener (l : listener) : Prop :=
  (exists i, i <> 0%Z /\
             l = {| l_name := e_add i; l_handler := h_onSpriteAssetAdded;
                    l_once := false |}) \/
  (exists i, l = {| l_name := e_load_id i; l_handler := h_onTextureAtlasLoad;
                    l_once := true |}).

(** The clip listens on no asset but the one it is bound to: the listeners
    on assets and on the registry are registrations of the kinds above, and
    an asset with a listener is the one [_spriteAsset] names, with a truthy
    id. *)
Definition consistent (w : world) : Prop :=
  (forall (i : Z) (a : asset),
     assets w !! i = Some a ->
     Forall asset_listener (listeners a) /\
     (listeners a <> [] ->
      _spriteAsset (this (st w)) = Some i /\ i <> 0%Z)) /\
  Forall registry_listener (registry_listeners w).

(** The listeners on the assets that have left the registry are
    registrations that [_bindSpriteAsset] makes. *)
Definition tidy (w : world) : Prop :=
  forall (j : Z) (a : asset),
    detached w !! j = Some a -> Forall asset_listener (listeners a).

(** No asset that has left the registry carries a listener of the clip. *)
Definition clean (w : world) : Prop :=
  forall (j : Z) (a : asset), detached w !! j = Some a -> listeners a = [].

(** No asset carries a listener of the clip. *)
Definition unlistened (w : world) : Prop :=
  forall (j : Z) (a : asset), assets w !! j = Some a -> listeners a = [].

(** The asset registered under [i] carries the id [i]. *)
Definition keyed (i : Z) (w : world) : Prop :=
  forall a, assets w !! i = Some a -> asset_id a = i.

(** What may happen to a clip in its application: a call of the host, or
    a callback of the asset system that returns. *)
Inductive step : world -> world -> Prop :=
| step_spriteAsset (v : asset_ref) (w w' : world) :
    set_spriteAsset v w = Some w' -> step w w'
| step_perform (o : operation) (w : world) :
    step w (on_state (perform o) w)
| step_update (dt : num) (w : world) :
    step w (on_state (_update dt) w)
| step_meshes (w : world) :
    step w (on_state _onSpriteMeshesChange w)
| step_add (a : asset) (w w' : world) :
    assets w !! asset_id a = None ->
    assets_add a w = Some w' -> step w w'
| step_loaded (i : Z) (res : sprite_t) (w w' : world) :
    asset_loaded i res w = Some w' -> step w w'
| step_asset_fire (i : Z) (n : ename) (w w' : world) :
    asset_fire i n w = Some w' -> step w w'
| step_atlas_loaded (i : Z) (w w' : world) :
    registry_fire (e_load_id i) i w = Some w' -> step w w'
| step_remove (i : Z) (w w' : world) :
    assets_remove i w = Some w' -> step w w'.

(** The worlds a clip can be in: those of a clip just constructed, in an
    application on whose assets it does not listen yet, and those one step
    after another. *)
Inductive reachable : world -> Prop :=
| reachable_new (component : component_t) (registered : gmap Z asset)
    (v : asset_ref) (nm : string) (f : num) (lp : bool) (w : world) :
    (forall j a, registered !! j = Some a -> listeners a = []) ->
    SpriteAnimationClip component registered v nm f lp = Some w ->
    reachable w
| reachable_step (w w' : world) :
    reachable w -> step w w' -> reachable w'.

(** ** Concrete clips *)

(** A sprite with [n] frames and no atlas. *)
Definition sprite_of (n : nat) : sprite_t :=
  {| sprite_ref := 1; frames := repeat "frame" n; atlas := None |}.

(** A clip named "walk" at time [0] and frame [0]. *)
Definition clip_of (sp : option sprite_t) (fps : num) (loop : bool)
    (playing paused : bool) : clip :=
  {| _frame := zero; _sprite := sp; _spriteAsset := None; name := "walk";
     fps := fps; loop := loop; _playing := playing; _paused := paused;
     _time := zero |}.

(** A state whose clip is the component's current clip, played at the
    speed [speed], with no call made yet. *)
Definition state_of (c : clip) (speed : num) : state :=
  {| this := c;
     component := {| speed := speed; currentClip_is_this := true;
                     _meshInstance := true |};
     effects := [] |}.

Definition one : num := Fin 1.
Definition two : num := Fin 2.

(** The Number that the decimal literal of the exact value [q] denotes. *)
Definition literal (q : Q) : num := round q.

(** Four frames at two frames per second, looping, playing. *)
Definition looping_4_at_2 : state :=
  state_of (clip_of (Some (sprite_of 4)) two true true false) one.

(** Two frames at two frames per second (one second), not looping,
    playing. *)
Definition once_2_at_2 : state :=
  state_of (clip_of (Some (sprite_of 2)) two false true false) one.

(** No sprite bound, two frames per second, looping, playing. *)
Definition unbound_looping : state :=
  state_of (clip_of None two true true false) one.

(** No sprite bound, stopped. *)
Definition unbound_stopped : state :=
  state_of (clip_of None two false false false) one.

(** Four frames, [fps = 0], stopped. *)
Definition still_4 : state :=
  state_of (clip_of (Some (sprite_of 4)) zero false false false) one.

(** Four frames at two frames per second, paused. *)
Definition paused_4_at_2 : state :=
  state_of (clip_of (Some (sprite_of 4)) two true true true) one.

(** The sprite asset [7], registered and not loaded yet. *)
Definition asset_7 : asset :=
  {| asset_id := 7; resource := None; textureAtlasAsset := 70;
     listeners := [] |}.

(** A clip just constructed with no sprite asset, in an application where
    the asset [7] is registered and the asset [8] is not. *)
Definition fresh_world : world :=
  {| st := unbound_stopped;
     assets := {[ 7%Z := asset_7 ]};
     detached := ∅;
     registry_listeners := [];
     load_requests := [] |}.

(** ** Vocabulary of further properties *)

(** The sprites on which the clip listens for ['set:meshes'] after the
    calls [es]: [on] adds a registration, [off] removes every registration
    for that sprite. *)
Definition meshes_subscribed (es : list effect) : list Z :=
  fold_left
    (fun subs x =>
       match x with
       | SpriteOn r => subs ++ [r]
       | SpriteOff r => List.filter (fun r' => negb (r' =? r)%Z) subs
       | _ => subs
       end) es [].

(** The clip listens for ['set:meshes'] on its current sprite, once, and
    on no other sprite. *)
Definition subscribed_to_current (s : state) : Prop :=
  meshes_subscribed (effects s) =
  match _sprite (this s) with
  | Some sp => [sprite_ref sp]
  | None => []
  end.

(** The calls into the renderer among the calls [es]: [_showFrame] and the
    parameters of the mesh instance. *)
Definition renderer_calls (es : list effect) : list effect :=
  List.filter
    (fun x => match x with
              | ShowFrame _ | DeleteParameter _ | SetParameter _ _ => true
              | _ => false
              end) es.

(** The step from [s] to [s'] keeps the component and, on a clip that is
    not the current one, adds no call into the renderer. *)
Definition silent (s s' : state) : Prop :=
  component s' = component s /\
  (currentClip_is_this (component s) = false ->
   renderer_calls (effects s') = renderer_calls (effects s)).

(** The playback settings of a clip, which the asset system has no part
    in. *)
Definition playback (c : clip) : bool * bool * num * bool * string :=
  (_playing c, _paused c, fps c, loop c, name c).

(** A callback of the asset system: a step that is not a call of the
    host on the clip's playback. *)
Inductive asset_step : world -> world -> Prop :=
| asset_step_spriteAsset (v : asset_ref) (w w' : world) :
    set_spriteAsset v w = Some w' -> asset_step w w'
| asset_step_add (a : asset) (w w' : world) :
    assets_add a w = Some w' -> asset_step w w'
| asset_step_loaded (i : Z) (res : sprite_t) (w w' : world) :
    asset_loaded i res w = Some w' -> asset_step w w'
| asset_step_asset_fire (i : Z) (n : ename) (w w' : world) :
    asset_fire i n w = Some w' -> asset_step w w'
| asset_step_registry_fire (n : ename) (arg : Z) (w w' : world) :
    registry_fire n arg w = Some w' -> asset_step w w'
| asset_step_remove (i : Z) (w w' : world) :
    assets_remove i w = Some w' -> asset_step w w'.

(** A sprite of four frames whose atlas and texture are loaded. *)
Definition sprite_with_atlas : sprite_t :=
  {| sprite_ref := 2; frames := repeat "frame" 4;
     atlas := Some {| texture := Some 9%Z |} |}.

(** A sprite of four frames whose atlas is not resolved yet. *)
Definition sprite_without_atlas : sprite_t :=
  {| sprite_ref := 3; frames := repeat "frame" 4; atlas := None |}.

(** The sprite asset [7], as it is registered once it is loaded. *)
Definition asset_7_loaded : asset :=
  {| asset_id := 7; resource := Some sprite_with_atlas;
     textureAtlasAsset := 70; listeners := [] |}.

(** A clip just constructed with no sprite asset, in an application with
    no asset registered. *)
Definition empty_world : world :=
  {| st := unbound_stopped;
     assets := ∅;
     detached := ∅;
     registry_listeners := [];
     load_requests := [] |}.

(** The component of the concrete clips. *)
Definition walk_component : component_t :=
  {| speed := one; currentClip_is_this := true; _meshInstance := true |}.


(** A clip constructed for the sprite asset [7] in an application where
    that asset is registered and loaded. *)
Definition loaded_world : world :=
  match SpriteAnimationClip walk_component {[ 7%Z := asset_7_loaded ]}
          (ref_id 7) "walk" two true with
  | Some w => w
  | None => fresh_world
  end.

(** ** Skeletal animations (src/anim/animation.js) *)
Module Anim.

(** [Key(time, position, rotation, scale)]; vectors and quaternions are
    kept as their components. *)
Record Key : Type := {
  time : num;
  position : list num;
  rotation : list num;
  scale : list num
}.

(** [Node()]: a name and an array of keys. *)
Record Node : Type := {
  _name : string;
  _keys : list Key
}.

Definition new_Node : Node := {| _name := ""; _keys := [] |}.

(** The object [_nodeDict]: its own properties and, once assigned through
    ["__proto__"], the node that is its prototype in place of
    [Object.prototype]. *)
Record node_dict : Type := {
  own : gmap string Node;
  proto : option Node
}.

(** What reading a property of [_nodeDict] gives: the node stored as an own
    property, or else whatever the prototype chain holds under that key
    ([undefined] when it holds nothing). *)
Inductive lookup_result : Type :=
| found (n : Node)
| inherited (p : option Node) (key : string).

(** [dict[key]] *)
Definition get_property (key : string) (d : node_dict) : lookup_result :=
  match own d !! key with
  | Some n => found n
  | None => inherited (proto d) key
  end.

(** [dict[key] = node]: an own property is created or replaced, except for
    the key ["__proto__"], which the accessor of [Object.prototype] takes as
    the new prototype. *)
Definition set_property (key : string) (n : Node) (d : node_dict)
  : node_dict :=
  if String.eqb key "__proto__"
  then {| own := own d; proto := Some n |}
  else {| own := <[key := n]> (own d); proto := proto d |}.

(** [Animation()] *)
Record Animation : Type := {
  name : string;
  duration : num;
  _nodes : list Node;
  _nodeDict : node_dict
}.

Definition new_Animation : Animation :=
  {| name := ""; duration := zero; _nodes := [];
     _nodeDict := {| own := ∅; proto := None |} |}.

Definition getDuration (a : Animation) : num := duration a.

Definition getName (a : Animation) : string := name a.

Definition getNode (key : string) (a : Animation) : lookup_result :=
  get_property key (_nodeDict a).

Definition getNodes (a : Animation) : list Node := _nodes a.

Definition setDuration (d : num) (a : Animation) : Animation :=
  {| name := name a; duration := d; _nodes := _nodes a;
     _nodeDict := _nodeDict a |}.

Definition setName (s : string) (a : Animation) : Animation :=
  {| name := s; duration := duration a; _nodes := _nodes a;
     _nodeDict := _nodeDict a |}.

Definition addNode (n : Node) (a : Animation) : Animation :=
  {| name := name a; duration := duration a;
     _nodes := _nodes a ++ [n];
     _nodeDict := set_property (_name n) n (_nodeDict a) |}.

(** Getter [nodes]. *)
Definition nodes (a : Animation) : list Node := _nodes a.

(** The calls that change an animation. *)
Inductive call : Type :=
| call_addNode (n : Node)
| call_setName (s : string)
| call_setDuration (d : num).

Definition run (c : call) (a : Animation) : Animation :=
  match c with
  | call_addNode n => addNode n a
  | call_setName s => setName s a
  | call_setDuration d => setDuration d a
  end.

(** The animation after the calls [cs], in order, on a new one. *)
Definition after (cs : list call) : Animation :=
  fold_left (fun a c => run c a) cs new_Animation.

(** The nodes that the calls [cs] add, in order. *)
Definition added (cs : list call) : list Node :=
  omap (fun c => match c with call_addNode n => Some n | _ => None end) cs.

(** The last of the nodes [ns] that is named [key]. *)
Definition last_named (key : string) (ns : list Node) : option Node :=
  List.find (fun n => String.eqb (_name n) key) (rev ns).

Definition walk_node : Node :=
  {| _name := "hip";
     _keys := [{| time := zero; position := [zero; zero; zero];
                  rotation := [zero; zero; zero; one];
                  scale := [one; one; one] |}] |}.

Definition other_node : Node := {| _name := "hip"; _keys := [] |}.

End Anim.

(** Case analysis on the next conditional of the goal. *)
Ltac case_if :=
  match goal with
  | |- context [if ?b then _ else _] => destruct b
  | |- context [match ?x with Some _ => _ | None => _ end] => destruct x
  end.

(** ** Facts about Numbers *)

Module JSFacts.

Lemma Qltb_lt (x y : Q) : Qltb x y = true <-> x < y.
Proof.
  unfold Qltb. rewrite negb_true_iff. split.
  - intros H. apply Qnot_le_lt. intros Hle.
    apply Qle_bool_iff in Hle. congruence.
  - intros H. destruct (Qle_bool y x) eqn:E; [|reflexivity].
    apply Qle_bool_iff in E. lra.
Qed.

Lemma Qltb_ge (x y : Q) : Qltb x y = false <-> y <= x.
Proof.
  unfold Qltb. rewrite negb_false_iff. apply Qle_bool_iff.
Qed.

Lemma is_zero_true (q : Q) : is_zero q = true <-> q == 0.
Proof. apply Qeq_bool_iff. Qed.

Lemma is_zero_false (q : Q) : is_zero q = false <-> ~ q == 0.
Proof.
  unfold is_zero. split.
  - apply Qeq_bool_neq.
  - intros H. destruct (Qeq_bool q 0) eqn:E; [|reflexivity].
    apply Qeq_bool_iff in E. contradiction.
Qed.

(** *** Powers of two *)

Lemma two_pow_pos (e : Z) : 0 < 2 ^ e.
Proof. apply Qpower_0_lt. reflexivity. Qed.

Lemma two_pow_add (a b : Z) : 2 ^ (a + b) == 2 ^ a * 2 ^ b.
Proof. apply Qpower_plus. discriminate. Qed.

Lemma two_pow_le (a b : Z) : (a <= b)%Z -> 2 ^ a <= 2 ^ b.
Proof. intros H. apply Qpower_le_compat_l; [exact H | discriminate]. Qed.

Lemma two_pow_lt (a b : Z) : (a < b)%Z -> 2 ^ a < 2 ^ b.
Proof. intros H. apply Qpower_lt_compat_l; [exact H | reflexivity]. Qed.

Lemma two_pow_Z (e : Z) : (0 <= e)%Z -> 2 ^ e == inject_Z (2 ^ e).
Proof. intros H. symmetry. apply (Zpower_Qpower 2 e H). Qed.

Lemma two_pow_succ (e : Z) : 2 ^ (e + 1) == 2 * 2 ^ e.
Proof. rewrite two_pow_add. change (2 ^ 1) with 2. ring. Qed.

(** *** The binade *)

Lemma binade_spec (q : Q) :
  0 < q -> 2 ^ binade q <= q /\ q < 2 ^ (binade q + 1).
Proof.
  intros Hq. destruct q as [n d]. unfold binade. cbn [Qnum Qden].
  assert (Hn : (0 < n)%Z).
  { unfold Qlt in Hq. cbn in Hq. lia. }
  set (a := Z.log2 n). set (b := Z.log2 (Z.pos d)).
  destruct (Z.log2_spec n Hn) as (Ha1 & Ha2). fold a in Ha1, Ha2.
  destruct (Z.log2_spec (Z.pos d) (Pos2Z.is_pos d)) as (Hb1 & Hb2).
  fold b in Hb1, Hb2.
  assert (Ha0 : (0 <= a)%Z) by apply Z.log2_nonneg.
  assert (Hb0 : (0 <= b)%Z) by apply Z.log2_nonneg.
  assert (Hd : 0 < inject_Z (Z.pos d)) by reflexivity.
  assert (Hqd : (n # d) * inject_Z (Z.pos d) == inject_Z n).
  { rewrite (Qmake_Qdiv n d). field. discriminate. }
  (* q < 2^(a-b+1) *)
  assert (Hup : n # d < 2 ^ (a - b + 1)).
  { apply Qmult_lt_r with (inject_Z (Z.pos d)); [exact Hd|].
    rewrite Hqd.
    apply Qlt_le_trans with (2 ^ (a - b + 1) * 2 ^ b).
    - rewrite <- two_pow_add. replace (a - b + 1 + b)%Z with (a + 1)%Z by ring.
      rewrite two_pow_Z by lia. rewrite <- Zlt_Qlt.
      replace (a + 1)%Z with (Z.succ a) by ring. exact Ha2.
    - apply Qmult_le_l; [apply two_pow_pos|].
      rewrite two_pow_Z by lia. rewrite <- Zle_Qle. exact Hb1. }
  (* 2^(a-b-1) <= q *)
  assert (Hlo : 2 ^ (a - b - 1) <= n # d).
  { apply Qmult_le_r with (inject_Z (Z.pos d)); [exact Hd|].
    rewrite Hqd.
    apply Qle_trans with (2 ^ (a - b - 1) * 2 ^ (b + 1)).
    - apply Qmult_le_l; [apply two_pow_pos|].
      rewrite two_pow_Z by lia. rewrite <- Zle_Qle.
      replace (b + 1)%Z with (Z.succ b) by ring. lia.
    - rewrite <- two_pow_add. replace (a - b - 1 + (b + 1))%Z with a by ring.
      rewrite two_pow_Z by lia. rewrite <- Zle_Qle. exact Ha1. }
  destruct (Qle_bool (2 ^ (a - b)) (n # d)) eqn:E.
  - apply Qle_bool_iff in E. split; assumption.
  - split.
    + exact Hlo.
    + replace (a - b - 1 + 1)%Z with (a - b)%Z by ring.
      apply Qnot_le_lt. intros H. apply Qle_bool_iff in H. congruence.
Qed.

Lemma binade_unique (q : Q) (e : Z) :
  2 ^ e <= q -> q < 2 ^ (e + 1) -> binade q = e.
Proof.
  intros H1 H2.
  assert (Hq : 0 < q).
  { apply Qlt_le_trans with (2 ^ e); [apply two_pow_pos | exact H1]. }
  destruct (binade_spec q Hq) as (B1 & B2).
  destruct (Z.lt_trichotomy (binade q) e) as [H|[H|H]]; [|exact H|].
  - exfalso. assert (2 ^ (binade q + 1) <= 2 ^ e) by (apply two_pow_le; lia).
    lra.
  - exfalso. assert (2 ^ (e + 1) <= 2 ^ binade q) by (apply two_pow_le; lia).
    lra.
Qed.

Lemma binade_mono (p q : Q) : 0 < p -> p <= q -> (binade p <= binade q)%Z.
Proof.
  intros Hp Hpq.
  destruct (binade_spec p Hp) as (P1 & P2).
  destruct (binade_spec q) as (Q1 & Q2); [lra|].
  destruct (Z.le_gt_cases (binade p) (binade q)) as [H|H]; [exact H|].
  exfalso.
  assert (2 ^ (binade q + 1) <= 2 ^ binade p) by (apply two_pow_le; lia).
  lra.
Qed.

Lemma binade_comp (p q : Q) : 0 < p -> p == q -> binade p = binade q.
Proof.
  intros Hp Hpq. destruct (binade_spec p Hp) as (P1 & P2).
  symmetry. apply binade_unique; rewrite <- Hpq; assumption.
Qed.

(** *** Rounding to an integer *)

Lemma half_even_cases (q : Q) :
  let k := Qfloor q in
  (half_even q = k /\ q - inject_Z k <= 1 # 2) \/
  (half_even q = (k + 1)%Z /\ 1 # 2 <= q - inject_Z k).
Proof.
  intros k. unfold half_even. fold k.
  destruct (Qcompare_spec (q - inject_Z k) (1 # 2)) as [H|H|H].
  - destruct (Z.even k); [left | right]; split; try reflexivity; lra.
  - left. split; [reflexivity | lra].
  - right. split; [reflexivity | lra].
Qed.

Lemma floor_frac (q : Q) : 0 <= q - inject_Z (Qfloor q) < 1.
Proof.
  pose proof (Qfloor_le q). pose proof (Qlt_floor q) as H1.
  rewrite inject_Z_plus in H1. change (inject_Z 1) with 1 in H1. lra.
Qed.

Lemma half_even_Z (m : Z) : half_even (inject_Z m) = m.
Proof.
  unfold half_even. rewrite Qfloor_Z.
  destruct (Qcompare_spec (inject_Z m - inject_Z m) (1 # 2)) as [H|H|H];
    try reflexivity; exfalso; lra.
Qed.

Lemma half_even_comp (p q : Q) : p == q -> half_even p = half_even q.
Proof.
  intros H. unfold half_even. rewrite (Qfloor_comp p q H).
  assert (E : p - inject_Z (Qfloor q) == q - inject_Z (Qfloor q))
    by (rewrite H; reflexivity).
  now rewrite (Qcompare_comp _ _ E (1 # 2) (1 # 2) (Qeq_refl _)).
Qed.

Lemma half_even_near (q : Q) :
  q - (1 # 2) <= inject_Z (half_even q) <= q + (1 # 2).
Proof.
  pose proof (floor_frac q) as Hf.
  destruct (half_even_cases q) as [(-> & H)|(-> & H)].
  - lra.
  - rewrite inject_Z_plus. change (inject_Z 1) with 1. lra.
Qed.

Lemma half_even_mono (p q : Q) : p <= q -> (half_even p <= half_even q)%Z.
Proof.
  intros Hpq.
  destruct (Z.le_gt_cases (half_even p) (half_even q)) as [H|H]; [exact H|].
  exfalso.
  pose proof (half_even_near p) as (_ & Hp).
  pose proof (half_even_near q) as (Hq & _).
  assert (H1 : inject_Z (half_even q) + 1 <= inject_Z (half_even p)).
  { change 1 with (inject_Z 1). rewrite <- inject_Z_plus, <- Zle_Qle. lia. }
  assert (E : p == q) by lra.
  rewrite (half_even_comp p q E) in H. lia.
Qed.

(** *** The nearest binary64 number *)

Lemma Qabs_pos_nonzero (q : Q) : ~ q == 0 -> 0 < Qabs q.
Proof.
  intros H. destruct (Qlt_le_dec 0 q) as [Hq|Hq].
  - rewrite Qabs_pos; lra.
  - rewrite Qabs_neg by exact Hq.
    destruct (Qlt_le_dec q 0) as [Hq'|Hq']; [lra|].
    exfalso. apply H. apply Qle_antisym; assumption.
Qed.

Lemma spacing_pos (q : Q) : 0 < spacing q.
Proof. apply two_pow_pos. Qed.

Lemma spacing_comp (p q : Q) : ~ p == 0 -> p == q -> spacing p = spacing q.
Proof.
  intros Hp H. unfold spacing. do 3 f_equal.
  apply binade_comp.
  - now apply Qabs_pos_nonzero.
  - now rewrite H.
Qed.

Lemma nearest_comp (p q : Q) : p == q -> nearest p = nearest q.
Proof.
  intros H. unfold nearest.
  destruct (is_zero p) eqn:Ep.
  - apply is_zero_true in Ep. rewrite H in Ep.
    apply is_zero_true in Ep. now rewrite Ep.
  - apply is_zero_false in Ep. pose proof Ep as Eq. rewrite H in Eq.
    apply is_zero_false in Eq. rewrite Eq.
    rewrite (spacing_comp p q Ep H).
    apply Qred_complete.
    rewrite (half_even_comp (p / spacing q) (q / spacing q)); [reflexivity|].
    now rewrite H.
Qed.

Lemma nearest_value (q : Q) :
  nearest q == inject_Z (half_even (q / spacing q)) * spacing q.
Proof.
  unfold nearest. destruct (is_zero q) eqn:E.
  - apply is_zero_true in E.
    rewrite (half_even_comp (q / spacing q) (inject_Z 0)).
    + rewrite half_even_Z. ring.
    + unfold Qdiv. rewrite (Qmult_comp _ _ E _ _ (Qeq_refl _)). ring.
  - apply Qred_correct.
Qed.

Lemma nearest_zero (q : Q) : q == 0 -> nearest q = 0.
Proof. intros H. unfold nearest. apply is_zero_true in H. now rewrite H. Qed.

(** [nearest q] stays on the side of a point of its grid where [q] is. *)
Lemma nearest_below (q : Q) (m : Z) :
  q <= inject_Z m * spacing q -> nearest q <= inject_Z m * spacing q.
Proof.
  intros H. rewrite nearest_value.
  pose proof (spacing_pos q) as Hg.
  apply Qmult_le_r; [exact Hg|]. rewrite <- Zle_Qle.
  rewrite <- (half_even_Z m). apply half_even_mono.
  apply Qle_shift_div_r; assumption.
Qed.

Lemma nearest_above (q : Q) (m : Z) :
  inject_Z m * spacing q <= q -> inject_Z m * spacing q <= nearest q.
Proof.
  intros H. rewrite nearest_value.
  pose proof (spacing_pos q) as Hg.
  apply Qmult_le_r; [exact Hg|]. rewrite <- Zle_Qle.
  rewrite <- (half_even_Z m) at 1. apply half_even_mono.
  apply Qle_shift_div_l; assumption.
Qed.

Lemma nearest_nonneg (q : Q) : 0 <= q -> 0 <= nearest q.
Proof.
  intros H. pose proof (nearest_above q 0) as H0.
  assert (E : inject_Z 0 * spacing q == 0) by ring.
  rewrite E in H0. auto.
Qed.

Lemma nearest_nonpos (q : Q) : q <= 0 -> nearest q <= 0.
Proof.
  intros H. pose proof (nearest_below q 0) as H0.
  assert (E : inject_Z 0 * spacing q == 0) by ring.
  rewrite E in H0. auto.
Qed.

Lemma nearest_error (q : Q) : Qabs (nearest q - q) <= spacing q / 2.
Proof.
  pose proof (spacing_pos q) as Hg.
  pose proof (half_even_near (q / spacing q)) as (H1 & H2).
  assert (E : q / spacing q * spacing q == q) by (field; lra).
  assert (L : (q / spacing q - (1 # 2)) * spacing q
              <= inject_Z (half_even (q / spacing q)) * spacing q)
    by (apply Qmult_le_r; assumption).
  assert (U : inject_Z (half_even (q / spacing q)) * spacing q
              <= (q / spacing q + (1 # 2)) * spacing q)
    by (apply Qmult_le_r; assumption).
  rewrite nearest_value.
  set (v := inject_Z (half_even (q / spacing q)) * spacing q) in *.
  assert (L' : q - spacing q / 2 <= v).
  { eapply Qle_trans; [|exact L].
    assert (E1 : (q / spacing q - (1 # 2)) * spacing q
                 == q / spacing q * spacing q - spacing q / 2) by (field; lra).
    rewrite E1, E. apply Qle_refl. }
  assert (U' : v <= q + spacing q / 2).
  { eapply Qle_trans; [exact U|].
    assert (E1 : (q / spacing q + (1 # 2)) * spacing q
                 == q / spacing q * spacing q + spacing q / 2) by (field; lra).
    rewrite E1, E. apply Qle_refl. }
  apply Qabs_case; intros; lra.
Qed.

(** The exponent of the spacing around [q]. *)
Local Abbreviation grid q := (Z.max (binade (Qabs q) - 52) (-1074)).

Lemma binade_abs (q : Q) :
  ~ q == 0 ->
  2 ^ binade (Qabs q) <= Qabs q /\ Qabs q < 2 ^ (binade (Qabs q) + 1).
Proof. intros H. apply binade_spec. now apply Qabs_pos_nonzero. Qed.

Lemma nearest_same_grid (p q : Q) :
  p <= q -> spacing p = spacing q -> nearest p <= nearest q.
Proof.
  intros Hpq Hg. rewrite (nearest_value p), (nearest_value q), Hg.
  pose proof (spacing_pos q) as Hpos.
  apply Qmult_le_r; [exact Hpos|]. rewrite <- Zle_Qle.
  apply half_even_mono. apply Qmult_le_r; [|exact Hpq].
  now apply Qinv_lt_0_compat.
Qed.

Lemma two_pow_split (a b : Z) :
  (b <= a)%Z -> 2 ^ a == inject_Z (2 ^ (a - b)) * 2 ^ b.
Proof.
  intros H. rewrite <- two_pow_Z by lia. rewrite <- two_pow_add.
  now replace (a - b + b)%Z with a by ring.
Qed.

Lemma nearest_mono_pos (p q : Q) : 0 < p -> p <= q -> nearest p <= nearest q.
Proof.
  intros Hp Hpq.
  assert (Hp0 : ~ p == 0) by (intros E; rewrite E in Hp; discriminate).
  assert (Hq : 0 < q) by lra.
  assert (Hq0 : ~ q == 0) by (intros E; rewrite E in Hq; discriminate).
  destruct (binade_abs p Hp0) as (P1 & P2).
  destruct (binade_abs q Hq0) as (Q1 & Q2).
  assert (Ep : Qabs p == p) by (apply Qabs_pos; lra).
  assert (Eq : Qabs q == q) by (apply Qabs_pos; lra).
  assert (Hb : (binade (Qabs p) <= binade (Qabs q))%Z).
  { apply binade_mono; [now apply Qabs_pos_nonzero | lra]. }
  destruct (Z.eq_dec (grid p) (grid q)) as [E|E].
  - apply nearest_same_grid; [exact Hpq|]. unfold spacing. now rewrite E.
  - assert (Hlt : (binade (Qabs p) < binade (Qabs q))%Z) by lia.
    assert (Hgq : grid q = (binade (Qabs q) - 52)%Z) by lia.
    apply Qle_trans with (2 ^ binade (Qabs q)).
    + assert (X : 2 ^ binade (Qabs q)
                  == inject_Z (2 ^ (binade (Qabs q) - grid p)) * spacing p).
      { unfold spacing. apply two_pow_split. lia. }
      rewrite X. apply nearest_below. rewrite <- X.
      apply Qle_trans with (2 ^ (binade (Qabs p) + 1)); [lra|].
      apply two_pow_le. lia.
    + assert (X : 2 ^ binade (Qabs q)
                  == inject_Z (2 ^ (binade (Qabs q) - grid q)) * spacing q).
      { unfold spacing. apply two_pow_split. lia. }
      rewrite X. apply nearest_above. rewrite <- X. lra.
Qed.

Lemma nearest_mono_neg (p q : Q) : q < 0 -> p <= q -> nearest p <= nearest q.
Proof.
  intros Hq Hpq.
  assert (Hq0 : ~ q == 0) by (intros E; rewrite E in Hq; discriminate).
  assert (Hp : p < 0) by lra.
  assert (Hp0 : ~ p == 0) by (intros E; rewrite E in Hp; discriminate).
  destruct (binade_abs p Hp0) as (P1 & P2).
  destruct (binade_abs q Hq0) as (Q1 & Q2).
  assert (Ep : Qabs p == - p) by (apply Qabs_neg; lra).
  assert (Eq : Qabs q == - q) by (apply Qabs_neg; lra).
  assert (Hb : (binade (Qabs q) <= binade (Qabs p))%Z).
  { apply binade_mono; [now apply Qabs_pos_nonzero | lra]. }
  destruct (Z.eq_dec (grid p) (grid q)) as [E|E].
  - apply nearest_same_grid; [exact Hpq|]. unfold spacing. now rewrite E.
  - assert (Hlt : (binade (Qabs q) < binade (Qabs p))%Z) by lia.
    assert (Hgp : grid p = (binade (Qabs p) - 52)%Z) by lia.
    apply Qle_trans with (- 2 ^ binade (Qabs p)).
    + assert (X : - 2 ^ binade (Qabs p)
                  == inject_Z (- 2 ^ (binade (Qabs p) - grid p)) * spacing p).
      { unfold spacing. rewrite inject_Z_opp.
        rewrite (two_pow_split (binade (Qabs p)) (grid p)) at 1 by lia.
        ring. }
      rewrite X. apply nearest_below. rewrite <- X. lra.
    + assert (X : - 2 ^ binade (Qabs p)
                  == inject_Z (- 2 ^ (binade (Qabs p) - grid q)) * spacing q).
      { unfold spacing. rewrite inject_Z_opp.
        rewrite (two_pow_split (binade (Qabs p)) (grid q)) at 1 by lia.
        ring. }
      rewrite X. apply nearest_above. rewrite <- X.
      assert (2 ^ (binade (Qabs q) + 1) <= 2 ^ binade (Qabs p))
        by (apply two_pow_le; lia).
      lra.
Qed.

Lemma nearest_mono (p q : Q) : p <= q -> nearest p <= nearest q.
Proof.
  intros Hpq.
  destruct (Qlt_le_dec 0 p) as [Hp|Hp]; [now apply nearest_mono_pos|].
  destruct (Qlt_le_dec q 0) as [Hq|Hq]; [now apply nearest_mono_neg|].
  apply Qle_trans with 0; [now apply nearest_nonpos | now apply nearest_nonneg].
Qed.

(** A rational on the grid around it is a binary64 number already. *)
Lemma nearest_on_grid (q : Q) (m : Z) :
  q == inject_Z m * spacing q -> nearest q = Qred q.
Proof.
  intros H. unfold nearest. destruct (is_zero q) eqn:E.
  - apply is_zero_true in E. symmetry. now apply (Qred_complete q 0).
  - apply Qred_complete.
    rewrite (half_even_comp (q / spacing q) (inject_Z m)).
    + rewrite half_even_Z. now rewrite <- H.
    + pose proof (spacing_pos q). apply Qmult_inj_r with (spacing q); [lra|].
      rewrite <- H. field. lra.
Qed.

(** The relative error of rounding, down to [2^-1024]. *)
Lemma nearest_relative (q : Q) :
  2 ^ (-1024) <= q -> Qabs (nearest q - q) <= 2 ^ (-51) * q.
Proof.
  intros H.
  assert (Hq : 0 < q).
  { apply Qlt_le_trans with (2 ^ (-1024)); [apply two_pow_pos | exact H]. }
  assert (Hq0 : ~ q == 0) by (intros E; rewrite E in Hq; discriminate).
  destruct (binade_abs q Hq0) as (Q1 & Q2).
  assert (Eq : Qabs q == q) by (apply Qabs_pos; lra).
  assert (Hb : (-1024 <= binade (Qabs q))%Z).
  { rewrite <- (binade_unique (2 ^ (-1024)) (-1024)).
    - apply binade_mono; [apply two_pow_pos | lra].
    - apply Qle_refl.
    - apply two_pow_lt. lia. }
  eapply Qle_trans; [apply nearest_error|].
  unfold spacing.
  destruct (Z.max_spec (binade (Qabs q) - 52) (-1074)) as [(Hm & ->)|(Hm & ->)].
  - (* subnormal spacing *)
    apply Qle_trans with (2 ^ (-51) * 2 ^ (-1024)).
    + apply Qle_bool_iff. vm_compute. reflexivity.
    + apply Qmult_le_l; [apply two_pow_pos | exact H].
  - apply Qle_trans with (2 ^ (-53) * 2 ^ binade (Qabs q)).
    + rewrite <- two_pow_add.
      replace (-53 + binade (Qabs q))%Z with (binade (Qabs q) - 52 + -1)%Z
        by ring.
      rewrite two_pow_add. apply Qle_lteq. right.
      change (2 ^ (-1)) with (1 # 2). field.
    + apply Qle_trans with (2 ^ (-53) * q).
      * apply Qmult_le_l; [apply two_pow_pos | lra].
      * apply Qmult_le_r; [exact Hq|]. apply two_pow_le. lia.
Qed.

Lemma nearest_relative_bounds (q : Q) :
  2 ^ (-1024) <= q ->
  q * (1 - (1 # 2251799813685248)) <= nearest q
  /\ nearest q <= q * (1 + (1 # 2251799813685248)).
Proof.
  intros H. pose proof (nearest_relative q H) as He.
  change (2 ^ (-51)) with (1 # 2251799813685248) in He.
  revert He. apply Qabs_case; intros; split; lra.
Qed.

Lemma nearest_tiny : nearest (2 ^ (-1024)) == 2 ^ (-1024).
Proof. apply Qeq_bool_iff. vm_compute. reflexivity. Qed.

Lemma tiny_small : 2 ^ (-1024) <= 1 # 2.
Proof. apply Qle_bool_iff. vm_compute. reflexivity. Qed.

Lemma tiny_inverse : 2 ^ (-1024) * inject_Z (2 ^ 1024) == 1.
Proof. apply Qeq_bool_iff. vm_compute. reflexivity. Qed.

(** A quotient of a number that is at least [1] by a positive number below
    [2^1024] is not below [2^-1024]. *)
Lemma quotient_not_tiny (m f : Q) :
  1 <= m -> 0 < f -> f <= inject_Z (2 ^ 1024) -> 2 ^ (-1024) <= m / f.
Proof.
  intros Hm Hf Hb. apply Qle_shift_div_l; [exact Hf|].
  pose proof tiny_inverse as E.
  pose proof (two_pow_pos (-1024)) as Ht.
  assert (H : 2 ^ (-1024) * f <= 2 ^ (-1024) * inject_Z (2 ^ 1024))
    by (apply Qmult_le_l; assumption).
  lra.
Qed.

(** The frame derived from the time stored for the frame [k]: the four
    roundings on the way move it by less than one frame. *)
Lemma round_trip_quotient (n k f : Q) :
  1 <= k -> k <= n -> n <= 4294967296 ->
  0 < f -> f <= inject_Z (2 ^ 1024) ->
  let t := nearest (k / f) in
  let d := nearest (n / f) in
  let c := nearest (nearest (n * t) / d) in
  k - 1 < c /\ c < k + 1 /\
  Qabs (nearest (n * t) / d) < 8589934592.
Proof.
  intros Hk Hkn Hn Hf Hb t d c.
  pose proof tiny_small as Hts.
  pose proof (two_pow_pos (-1024)) as Htp.
  pose proof nearest_tiny as Htn.
  set (T := 2 ^ (-1024)) in *.
  (* the time *)
  assert (Ha : T <= k / f) by (apply quotient_not_tiny; assumption).
  destruct (nearest_relative_bounds (k / f) Ha) as (t1 & t2). fold t in t1, t2.
  assert (Ht : T <= t).
  { pose proof (nearest_mono T (k / f) Ha). fold t in H. lra. }
  (* the product *)
  assert (HP : T <= n * t).
  { assert (1 * t <= n * t) by (apply Qmult_le_r; lra). lra. }
  destruct (nearest_relative_bounds (n * t) HP) as (b1 & b2).
  assert (P1 : n * (k / f * (1 - (1 # 2251799813685248))) <= n * t)
    by (apply Qmult_le_l; lra).
  assert (P2 : n * t <= n * (k / f * (1 + (1 # 2251799813685248))))
    by (apply Qmult_le_l; lra).
  set (b := nearest (n * t)) in *.
  (* the duration *)
  assert (HD : T <= n / f) by (apply quotient_not_tiny; try assumption; lra).
  destruct (nearest_relative_bounds (n / f) HD) as (d1 & d2). fold d in d1, d2.
  assert (Hd : 0 < d) by lra.
  assert (HA : n * (k / f) == k * (n / f)) by (field; lra).
  assert (HA0 : 0 <= k * (n / f)).
  { apply Qmult_le_0_compat; lra. }
  (* the quotient *)
  assert (U : b / d <= k * (1 + (4 # 2251799813685248))).
  { apply Qle_shift_div_r; [exact Hd|].
    assert (k * (1 + (4 # 2251799813685248))
              * (n / f * (1 - (1 # 2251799813685248)))
            <= k * (1 + (4 # 2251799813685248)) * d)
      by (apply Qmult_le_l; lra).
    lra. }
  assert (L : k * (1 - (4 # 2251799813685248)) <= b / d).
  { apply Qle_shift_div_l; [exact Hd|].
    assert (k * (1 - (4 # 2251799813685248)) * d
            <= k * (1 - (4 # 2251799813685248))
               * (n / f * (1 + (1 # 2251799813685248))))
      by (apply Qmult_le_l; lra).
    lra. }
  assert (Hc : T <= b / d) by lra.
  destruct (nearest_relative_bounds (b / d) Hc) as (c1 & c2). fold c in c1, c2.
  repeat split; try lra.
  apply Qabs_case; intros; lra.
Qed.

(** *** Rounding a result *)

Lemma round_in_range (q : Q) :
  Qabs q < overflow_bound -> round q = Fin (nearest q).
Proof.
  intros H. unfold round. apply Qltb_lt in H. now rewrite H.
Qed.

Lemma round_overflow (q : Q) :
  overflow_bound <= q -> round q = Inf false.
Proof.
  intros H. unfold round.
  assert (H0 : 0 < overflow_bound) by reflexivity.
  assert (Ha : Qltb (Qabs q) overflow_bound = false).
  { apply Qltb_ge. rewrite Qabs_pos; lra. }
  assert (Hs : Qltb q 0 = false) by (apply Qltb_ge; lra).
  now rewrite Ha, Hs.
Qed.

End JSFacts.

(** ** The rounding against the binary64 numbers of the kernel *)

(** The quotients of the integers up to 40 in magnitude are the Numbers the
    machine computes. *)
Lemma quotients_as_binary64 :
  forallb
    (fun '(a, b) =>
       same_number (div (Fin (inject_Z a)) (Fin (inject_Z b)))
         (of_float (PrimFloat.div (float_of_Z a) (float_of_Z b))))
    (fractions 40) = true.
Proof. vm_compute. reflexivity. Qed.

(** So are the sums, products and quotients of such quotients. *)
Lemma arithmetic_as_binary64 :
  forallb
    (fun '(a, b) =>
       forallb
         (fun '(c, d) =>
            agree (PrimFloat.div (float_of_Z a) (float_of_Z b))
              (PrimFloat.div (float_of_Z c) (float_of_Z d)))
         (fractions 4))
    (fractions 4) = true.
Proof. vm_compute. reflexivity. Qed.

(** And those of the numbers at the limits: rounding of denormals, ties,
    underflow to zero and overflow to an infinity. *)
Lemma limits_as_binary64 :
  forallb (fun '(x, y) => agree x y) limits = true.
Proof. vm_compute. reflexivity. Qed.

(** The decimal values that the runs below pass as [dt], on a component of
    speed [1]: the product [dt * speed] is the Number that the literal
    denotes, which is the quotient the machine computes. *)
Lemma decimal_steps :
  Forall
    (fun '(a, b) =>
       mul (Fin (a # b)) one = literal (a # b) /\
       mul (literal (a # b)) one = literal (a # b) /\
       literal (a # b) =
         of_float (PrimFloat.div (float_of_Z a) (float_of_Z (Zpos b))))
    [(1%Z, 10%positive); (6%Z, 5%positive); (7%Z, 10%positive);
     (1%Z, 2%positive); (3%Z, 2%positive); (5%Z, 2%positive)].
Proof. repeat constructor. Qed.

(** ** Duration *)

Lemma MIN_VALUE_falsy_replacement (x : num) :
  truthy x = false -> or_else x MIN_VALUE = MIN_VALUE.
Proof. unfold or_else. now intros ->. Qed.

Lemma seq_zero_falsy (x : num) : seq x zero = true -> truthy x = false.
Proof.
  destruct x as [| |q]; cbn; try discriminate.
  intros H. unfold is_zero. now rewrite H.
Qed.

Lemma positive_truthy (x : num) : lt zero x = true -> truthy x = true.
Proof.
  destruct x as [| |q]; cbn; try discriminate; [reflexivity|].
  intros H. apply JSFacts.Qltb_lt in H.
  apply negb_true_iff, JSFacts.is_zero_false. lra.
Qed.

Lemma div_MIN_VALUE_overflows (n : nat) :
  (0 < n)%nat -> div (of_nat n) MIN_VALUE = Inf false.
Proof.
  intros Hn. unfold div, of_nat, MIN_VALUE.
  replace (is_zero (1 # 2 ^ 1074)) with false by (vm_compute; reflexivity).
  apply JSFacts.round_overflow.
  assert (H1 : 1 <= inject_Z (Z.of_nat n)).
  { change 1 with (inject_Z 1). rewrite <- Zle_Qle. lia. }
  assert (Hb : overflow_bound <= inject_Z (2 ^ 1074)).
  { apply Qle_bool_iff. vm_compute. reflexivity. }
  assert (Hm : inject_Z (Z.of_nat n) / (1 # 2 ^ 1074)
               == inject_Z (Z.of_nat n) * inject_Z (2 ^ 1074)).
  { unfold Qdiv. apply Qmult_comp; [reflexivity|].
    vm_compute. reflexivity. }
  rewrite Hm.
  assert (H0 : 0 <= inject_Z (2 ^ 1074)) by (apply Qle_bool_iff; vm_compute; reflexivity).
  generalize dependent (inject_Z (2 ^ 1074)). intros B Hb _ HB.
  generalize dependent (inject_Z (Z.of_nat n)). intros N HN.
  apply Qle_trans with (1 * B); [lra|].
  apply Qmult_le_compat_r; assumption.
Qed.

(** C2, as the code has it: with no sprite the duration is [0]; with a
    sprite and an [fps] that is neither [0] nor [NaN], in particular with
    [fps > 0], it is [frames.length / fps]; with a sprite and [fps == 0] the
    divisor is [Number.MIN_VALUE], so the duration is [+Infinity] when the
    sprite has a frame and [0] only when it has none. *)
Theorem duration_by_cases (c : clip) :
  (_sprite c = None -> duration c = zero) /\
  (forall sp, _sprite c = Some sp -> truthy (fps c) = true ->
     duration c = div (frame_count sp) (fps c)) /\
  (forall sp, _sprite c = Some sp -> lt zero (fps c) = true ->
     duration c = div (frame_count sp) (fps c)) /\
  (forall sp, _sprite c = Some sp -> seq (fps c) zero = true ->
     frames sp <> [] -> duration c = Inf false) /\
  (forall sp, _sprite c = Some sp -> seq (fps c) zero = true ->
     frames sp = [] -> duration c = zero).
Proof.
  unfold duration. repeat split.
  - now intros ->.
  - intros sp -> Ht. unfold or_else. now rewrite Ht.
  - intros sp -> Hpos. unfold or_else. now rewrite (positive_truthy _ Hpos).
  - intros sp -> Hz Hne.
    rewrite (MIN_VALUE_falsy_replacement _ (seq_zero_falsy _ Hz)).
    apply div_MIN_VALUE_overflows.
    destruct (frames sp); [contradiction | cbn; lia].
  - intros sp -> Hz He.
    rewrite (MIN_VALUE_falsy_replacement _ (seq_zero_falsy _ Hz)).
    unfold frame_count. rewrite He. vm_compute. reflexivity.
Qed.

Lemma duration_by_cases_witness :
  duration (this unbound_stopped) = zero /\
  duration (clip_of (Some (sprite_of 4)) (Fin (-2)) true true false)
    = div (frame_count (sprite_of 4)) (Fin (-2)) /\
  duration (this looping_4_at_2) = div (frame_count (sprite_of 4)) two /\
  duration (this still_4) = Inf false /\
  duration (clip_of (Some (sprite_of 0)) zero false false false) = zero.
Proof.
  split; [|split; [|split; [|split]]].
  - apply (proj1 (duration_by_cases (this unbound_stopped))). reflexivity.
  - apply (proj1 (proj2 (duration_by_cases
             (clip_of (Some (sprite_of 4)) (Fin (-2)) true true false)))
             (sprite_of 4)); reflexivity.
  - apply (proj1 (proj2 (proj2 (duration_by_cases (this looping_4_at_2))))
             (sprite_of 4)); reflexivity.
  - apply (proj1 (proj2 (proj2 (proj2 (duration_by_cases (this still_4)))))
             (sprite_of 4)); [reflexivity | reflexivity | discriminate].
  - apply (proj2 (proj2 (proj2 (proj2 (duration_by_cases
             (clip_of (Some (sprite_of 0)) zero false false false)))))
             (sprite_of 0)); reflexivity.
Defined.

(** C2 as stated fails: a clip with a sprite of four frames and [fps == 0]
    does not have duration [0]; its duration is [+Infinity]. *)
Lemma duration_fps_zero_not_zero :
  _sprite (this still_4) = Some (sprite_of 4) /\
  seq (fps (this still_4)) zero = true /\
  duration (this still_4) = Inf false /\
  duration (this still_4) <> zero.
Proof.
  repeat split; try (vm_compute; reflexivity).
  vm_compute. discriminate.
Qed.

(** ** Clamping *)

Lemma frame_count_nonneg (sp : sprite_t) :
  exists n : Q, frame_count sp = Fin n /\ 0 <= n.
Proof.
  exists (inject_Z (Z.of_nat (List.length (frames sp)))). split; [reflexivity|].
  change 0 with (inject_Z 0). rewrite <- Zle_Qle. lia.
Qed.

Lemma clamp_zero_to_count (sp : sprite_t) :
  clamp zero zero (frame_count sp) = zero.
Proof.
  unfold clamp, frame_count, of_nat, ge, le, zero.
  destruct (List.length (frames sp)) as [|n]; [reflexivity|].
  replace (Qle_bool (inject_Z (Z.of_nat (S n))) 0) with false; [reflexivity|].
  symmetry. apply not_true_iff_false. intros H.
  apply Qle_bool_iff in H. change 0 with (inject_Z 0) in H.
  rewrite <- Zle_Qle in H. lia.
Qed.

Lemma clamp_below (v : num) (sp : sprite_t) :
  lt v zero = true -> clamp v zero (frame_count sp) = zero.
Proof.
  destruct (frame_count_nonneg sp) as (n & -> & Hn).
  unfold clamp, ge, zero.
  destruct v as [|[]|q]; cbn; try discriminate; [reflexivity|].
  intros H. apply JSFacts.Qltb_lt in H.
  replace (Qle_bool n q) with false.
  - replace (Qle_bool q 0) with true; [reflexivity|].
    symmetry. apply Qle_bool_iff. lra.
  - symmetry. apply not_true_iff_false. intros H'.
    apply Qle_bool_iff in H'. lra.
Qed.

Lemma clamp_above (v max : num) :
  gt v max = true -> clamp v zero max = max.
Proof.
  unfold clamp, gt, ge. intros H.
  replace (le max v) with true; [reflexivity|]. symmetry.
  destruct max as [|[]|p], v as [|[]|q]; cbn in *; try discriminate;
    try reflexivity.
  apply JSFacts.Qltb_lt in H. apply Qle_bool_iff. lra.
Qed.

(** ** The frame setter and the renderer *)

(** C10: on the component's current clip with a sprite bound, assigning
    [frame = v] calls [_showFrame] once, with the assigned value [v] itself,
    while the stored frame is [v] clamped to [[0, frames.length]]: [0] for a
    [v] below [0] and [frames.length] for a [v] above it. *)
Theorem set_frame_shows_assigned_value (s : state) (sp : sprite_t) (v : num) :
  currentClip_is_this (component s) = true ->
  _sprite (this s) = Some sp ->
  effects (set_frame v s) = effects s ++ [ShowFrame v] /\
  _frame (this (set_frame v s)) = clamp v zero (frame_count sp) /\
  (lt v zero = true -> _frame (this (set_frame v s)) = zero) /\
  (gt v (frame_count sp) = true ->
     _frame (this (set_frame v s)) = frame_count sp).
Proof.
  intros Hactive Hsp.
  assert (Hf : _frame (this (set_frame v s)) = clamp v zero (frame_count sp)).
  { unfold set_frame. rewrite Hsp. cbn. rewrite Hactive. reflexivity. }
  repeat split.
  - unfold set_frame. rewrite Hsp. cbn. rewrite Hactive. reflexivity.
  - exact Hf.
  - intros H. rewrite Hf. now apply clamp_below.
  - intros H. rewrite Hf. now apply clamp_above.
Qed.

Lemma set_frame_shows_assigned_value_witness :
  effects (set_frame (Fin 7) looping_4_at_2) = [ShowFrame (Fin 7)] /\
  _frame (this (set_frame (Fin 7) looping_4_at_2)) = Fin 4 /\
  _frame (this (set_frame (Fin (-3)) looping_4_at_2)) = zero.
Proof.
  split; [|split].
  - apply (proj1 (set_frame_shows_assigned_value looping_4_at_2 (sprite_of 4)
                    (Fin 7) eq_refl eq_refl)).
  - apply (proj2 (proj2 (proj2 (set_frame_shows_assigned_value looping_4_at_2
                    (sprite_of 4) (Fin 7) eq_refl eq_refl)))).
    reflexivity.
  - apply (proj1 (proj2 (proj2 (set_frame_shows_assigned_value looping_4_at_2
                    (sprite_of 4) (Fin (-3)) eq_refl eq_refl)))).
    reflexivity.
Defined.

(** ** The playback flags *)

Lemma set_frame_zero_frame (s : state) :
  _frame (this (set_frame zero s)) = zero.
Proof.
  unfold set_frame. destruct (_sprite (this s)) as [sp|] eqn:E; cbn.
  - destruct (currentClip_is_this (component s)); cbn;
      apply clamp_zero_to_count.
  - destruct (currentClip_is_this (component s)); reflexivity.
Qed.

Lemma set_frame_flags (v : num) (s : state) :
  _playing (this (set_frame v s)) = _playing (this s) /\
  _paused (this (set_frame v s)) = _paused (this s) /\
  _sprite (this (set_frame v s)) = _sprite (this s) /\
  fps (this (set_frame v s)) = fps (this s) /\
  loop (this (set_frame v s)) = loop (this s) /\
  component (set_frame v s) = component s.
Proof.
  unfold set_frame.
  destruct (_sprite (this s)) eqn:Hs; cbn;
    destruct (currentClip_is_this (component s)); cbn; repeat split;
    congruence.
Qed.

Lemma set_frame_effects (v : num) (s : state) :
  effects (set_frame v s) =
  effects s ++ (if currentClip_is_this (component s)
                then [ShowFrame v] else []).
Proof.
  unfold set_frame.
  destruct (_sprite (this s)); cbn;
    destruct (currentClip_is_this (component s)); cbn;
    now rewrite ?app_nil_r.
Qed.

(** C3, as the code has it: [play()] acts only on a clip whose playing flag
    is clear, where it sets the flag, clears the paused flag, resets the
    frame to [0] (showing it when the clip is the current one) and fires
    [play] on the clip and on the component; whenever the playing flag is
    set, paused or not, it does nothing. *)
Theorem play_by_cases (s : state) :
  (_playing (this s) = false ->
     _playing (this (play s)) = true /\
     _paused (this (play s)) = false /\
     _frame (this (play s)) = zero /\
     effects (play s) =
       effects s
       ++ (if currentClip_is_this (component s) then [ShowFrame zero] else [])
       ++ [Fire ev_play; ComponentFire ev_play]) /\
  (_playing (this s) = true -> play s = s).
Proof.
  split; intros H; unfold play; rewrite H; [|reflexivity].
  set (s1 := on_this (with_paused false) (on_this (with_playing true) s)).
  destruct (set_frame_flags zero s1) as (Hp & Hq & _).
  cbn. rewrite Hp, Hq, (set_frame_zero_frame s1), (set_frame_effects zero s1).
  repeat split. cbn. now rewrite <- app_assoc.
Qed.

Lemma play_by_cases_witness :
  (_playing (this (play unbound_stopped)) = true /\
   _paused (this (play unbound_stopped)) = false /\
   _frame (this (play unbound_stopped)) = zero /\
   effects (play unbound_stopped) =
     [ShowFrame zero; Fire ev_play; ComponentFire ev_play]) /\
  play paused_4_at_2 = paused_4_at_2.
Proof.
  split.
  - apply (proj1 (play_by_cases unbound_stopped)). reflexivity.
  - apply (proj2 (play_by_cases paused_4_at_2)). reflexivity.
Defined.

(** C3 as stated fails: on a paused clip [play()] does not clear the paused
    flag and fires nothing. *)
Lemma play_leaves_paused_clip :
  _playing (this paused_4_at_2) = true /\
  _paused (this paused_4_at_2) = true /\
  _paused (this (play paused_4_at_2)) = true /\
  fired ev_play (effects (play paused_4_at_2)) = 0%nat.
Proof. repeat split. Qed.

(** ** Advancing *)

Lemma update_fps_zero (dt : num) (s : state) :
  seq (fps (this s)) zero = true -> _update dt s = s.
Proof. unfold _update. now intros ->. Qed.

Lemma update_not_playing (dt : num) (s : state) :
  _playing (this s) = false \/ _paused (this s) = true -> _update dt s = s.
Proof.
  unfold _update. intros [H|H]; rewrite H; cbn;
    rewrite ?orb_true_r; now destruct (seq (fps (this s)) zero).
Qed.

(** C1 at a clip with no sprite, [fps = 2], looping and playing: its
    duration is [0], yet [_update(0.5)] does not return early; it computes
    [0.5 % 0], leaves [NaN] in the time and fires [loop]. *)
Theorem update_without_sprite_reaches_NaN :
  _sprite (this unbound_looping) = None /\
  duration (this unbound_looping) = zero /\
  _time (this unbound_looping) = zero /\
  _time (this (_update (Fin (1 # 2)) unbound_looping)) = NaN /\
  effects (_update (Fin (1 # 2)) unbound_looping)
    = [Fire ev_loop; ComponentFire ev_loop].
Proof. repeat split. Qed.

(** C5 at a clip of two frames at [fps = 2] (one second), not looping,
    playing from time [0]: [_update(1.2)] sets the time to the duration,
    fires [end] once and clears the playing flag, so that a further
    [_update] does nothing; but the frame it stores and shows is [2], the
    number of frames, and not [1], the index of the last frame. *)
Theorem update_past_end_stores_frame_count :
  let s := _update (Fin (6 # 5)) once_2_at_2 in
  duration (this once_2_at_2) = one /\
  _time (this s) = one /\
  _frame (this s) = two /\
  frame_count (sprite_of 2) = two /\
  _playing (this s) = false /\
  effects s = [ShowFrame two; Fire ev_end; ComponentFire ev_end] /\
  fired ev_end (effects s) = 1%nat /\
  _update (Fin (6 # 5)) s = s.
Proof. vm_compute. repeat split. Qed.

#[local] Arguments add : simpl never.
#[local] Arguments mul : simpl never.
#[local] Arguments div : simpl never.
#[local] Arguments rem : simpl never.
#[local] Arguments floor : simpl never.
#[local] Arguments lt : simpl never.
#[local] Arguments le : simpl never.
#[local] Arguments gt : simpl never.
#[local] Arguments ge : simpl never.
#[local] Arguments seq : simpl never.
#[local] Arguments sne : simpl never.
#[local] Arguments truthy : simpl never.
#[local] Arguments or_else : simpl never.
#[local] Arguments clamp : simpl never.
#[local] Arguments frame_count : simpl never.
#[local] Arguments fired : simpl never.

(** What [_update] leaves behind on a clip that is running (non-zero
    [fps], playing, not paused) with a sprite bound. *)
Section Running.

Variables (s : state) (sp : sprite_t) (dt : num).
Hypothesis Hfps : seq (fps (this s)) zero = false.
Hypothesis Hplaying : _playing (this s) = true.
Hypothesis Hpaused : _paused (this s) = false.
Hypothesis Hsprite : _sprite (this s) = Some sp.

Local Abbreviation d := (duration (this s)).
Local Abbreviation t := (wrapped_time dt s).
Local Abbreviation f := (frame_at sp t d).

Lemma update_running_time :
  _time (this (_update dt s)) =
  if sne f (_frame (this s))
  then time_at sp (fps (this s)) f d
  else t.
Proof.
  unfold _update, wrapped_time, frame_at, time_at, raw_time.
  rewrite Hfps, Hplaying, Hpaused.
  destruct s as [[f0 sp0 sa nm fp lp pl pa tm] [spd act mi] es].
  cbn in *. subst sp0. unfold duration. cbn.
  set (D := div (frame_count sp) (or_else fp MIN_VALUE)).
  set (R := add tm (mul dt spd)).
  destruct (gt R D), lp; cbn;
    match goal with |- context [sne ?a ?b] => destruct (sne a b) end;
    unfold set_frame; cbn; destruct act; reflexivity.
Qed.

Lemma update_running_frame :
  _frame (this (_update dt s)) =
  if sne f (_frame (this s))
  then clamp f zero (frame_count sp)
  else _frame (this s).
Proof.
  unfold _update, wrapped_time, frame_at, raw_time.
  rewrite Hfps, Hplaying, Hpaused.
  destruct s as [[f0 sp0 sa nm fp lp pl pa tm] [spd act mi] es].
  cbn in *. subst sp0. unfold duration. cbn.
  set (D := div (frame_count sp) (or_else fp MIN_VALUE)).
  set (R := add tm (mul dt spd)).
  destruct (gt R D), lp; cbn;
    match goal with |- context [sne ?a ?b] => destruct (sne a b) end;
    unfold set_frame; cbn; destruct act; reflexivity.
Qed.

Lemma update_running_effects :
  effects (_update dt s) =
  effects s
  ++ (if sne f (_frame (this s)) && currentClip_is_this (component s)
      then [ShowFrame f] else [])
  ++ (if gt (raw_time dt s) d
      then (if loop (this s)
            then [Fire ev_loop; ComponentFire ev_loop]
            else [Fire ev_end; ComponentFire ev_end])
      else []).
Proof.
  unfold _update, wrapped_time, frame_at, raw_time.
  rewrite Hfps, Hplaying, Hpaused.
  destruct s as [[f0 sp0 sa nm fp lp pl pa tm] [spd act mi] es].
  cbn in *. subst sp0. unfold duration. cbn.
  set (D := div (frame_count sp) (or_else fp MIN_VALUE)).
  set (R := add tm (mul dt spd)).
  destruct (gt R D), lp; cbn;
    match goal with |- context [sne ?a ?b] => destruct (sne a b) end;
    unfold set_frame; cbn; destruct act; cbn;
    rewrite <- ?app_assoc, ?app_nil_r; reflexivity.
Qed.

Lemma update_running_flags :
  _playing (this (_update dt s)) = negb (gt (raw_time dt s) d) || loop (this s)
  /\ _paused (this (_update dt s)) = false.
Proof.
  unfold _update, wrapped_time, frame_at, raw_time.
  rewrite Hfps, Hplaying, Hpaused.
  destruct s as [[f0 sp0 sa nm fp lp pl pa tm] [spd act mi] es].
  cbn in *. subst sp0 pl pa. unfold duration. cbn.
  set (D := div (frame_count sp) (or_else fp MIN_VALUE)).
  set (R := add tm (mul dt spd)).
  destruct (gt R D), lp; cbn;
    match goal with |- context [sne ?a ?b] => destruct (sne a b) end;
    unfold set_frame; cbn; destruct act; split; reflexivity.
Qed.

End Running.

Lemma set_frame_static (v : num) (s : state) :
  fps (this (set_frame v s)) = fps (this s) /\
  loop (this (set_frame v s)) = loop (this s) /\
  _sprite (this (set_frame v s)) = _sprite (this s) /\
  component (set_frame v s) = component s.
Proof.
  destruct (set_frame_flags v s) as (_ & _ & H1 & H2 & H3 & H4). auto.
Qed.

Lemma update_static (dt : num) (s : state) :
  fps (this (_update dt s)) = fps (this s) /\
  loop (this (_update dt s)) = loop (this s) /\
  _sprite (this (_update dt s)) = _sprite (this s) /\
  component (_update dt s) = component s.
Proof.
  destruct s as [[f0 sp0 sa nm fp lp pl pa tm] [spd act mi] es].
  unfold _update, set_frame; cbn.
  repeat (case_if; cbn); auto.
Qed.

Lemma seq_sym (x y : num) : seq x y = seq y x.
Proof.
  destruct x as [|a|p], y as [|b|q]; try reflexivity.
  - unfold seq. now destruct a, b.
  - unfold seq. apply Qeq_bool_comm.
Qed.

Lemma seq_three_not_one (x : num) :
  seq (Fin 3) x = true -> sne one x = true.
Proof.
  destruct x as [| |q]; unfold sne, seq, one; try discriminate.
  intros H. apply Qeq_bool_iff in H. apply negb_true_iff.
  apply not_true_iff_false. intros H'. apply Qeq_bool_iff in H'.
  rewrite <- H in H'. discriminate.
Qed.

Lemma fired_app (e : event) (xs ys : list effect) :
  fired e (xs ++ ys) = (fired e xs + fired e ys)%nat.
Proof. unfold fired. now rewrite List.filter_app, List.length_app. Qed.

Lemma fired_show (e : event) (b : bool) (v : num) :
  fired e (if b then [ShowFrame v] else []) = 0%nat.
Proof. now destruct b. Qed.

(** C6: a playing, non-paused, looping clip with a sprite of four frames,
    [fps = 2], time [0] and speed [1] has duration [2]; [_update(1.5)] takes
    it to time [1.5] and frame [3] without firing [loop]; a following
    [_update(1.0)] wraps the time to [0.5], fires [loop] once and stores the
    frame [1]. *)
Theorem four_frames_at_two_fps (s : state) (sp : sprite_t) :
  _sprite (this s) = Some sp ->
  List.length (frames sp) = 4%nat ->
  fps (this s) = two ->
  loop (this s) = true ->
  _playing (this s) = true ->
  _paused (this s) = false ->
  _time (this s) = zero ->
  speed (component s) = one ->
  let s1 := _update (Fin (3 # 2)) s in
  let s2 := _update one s1 in
  duration (this s) = two /\
  _time (this s1) = Fin (3 # 2) /\
  seq (_frame (this s1)) (Fin 3) = true /\
  fired ev_loop (effects s1) = fired ev_loop (effects s) /\
  _time (this s2) = Fin (1 # 2) /\
  _frame (this s2) = one /\
  fired ev_loop (effects s2) = S (fired ev_loop (effects s1)).
Proof.
  intros Hsp Hlen Hfps Hloop Hpl Hpa Htime Hspeed s1 s2.
  assert (Hn : frame_count sp = Fin 4).
  { unfold frame_count. now rewrite Hlen. }
  assert (Hz : forall x, fps (this x) = two -> seq (fps (this x)) zero = false)
    by (now intros x ->).
  assert (Hd : forall x, _sprite (this x) = Some sp -> fps (this x) = two ->
                 duration (this x) = two).
  { intros x Hx Hf. unfold duration. now rewrite Hx, Hf, Hn. }
  (* the first step *)
  assert (Hraw1 : raw_time (Fin (3 # 2)) s = Fin (3 # 2)).
  { unfold raw_time. now rewrite Htime, Hspeed. }
  assert (Ht1 : wrapped_time (Fin (3 # 2)) s = Fin (3 # 2)).
  { unfold wrapped_time. now rewrite Hraw1, (Hd s Hsp Hfps). }
  assert (Hf1 : frame_at sp (Fin (3 # 2)) two = Fin 3).
  { unfold frame_at. now rewrite Hn. }
  assert (T1 : _time (this s1) = Fin (3 # 2)).
  { subst s1. rewrite (update_running_time s sp _ (Hz s Hfps) Hpl Hpa Hsp).
    rewrite Ht1, (Hd s Hsp Hfps), Hf1, Hfps.
    unfold time_at. rewrite Hn. now destruct (sne (Fin 3) (_frame (this s))). }
  assert (F1 : seq (_frame (this s1)) (Fin 3) = true).
  { subst s1. rewrite (update_running_frame s sp _ (Hz s Hfps) Hpl Hpa Hsp).
    rewrite Ht1, (Hd s Hsp Hfps), Hf1, Hn.
    unfold sne. destruct (seq (Fin 3) (_frame (this s))) eqn:E; cbn.
    - now rewrite seq_sym.
    - reflexivity. }
  assert (E1 : fired ev_loop (effects s1) = fired ev_loop (effects s)).
  { subst s1. rewrite (update_running_effects s sp _ (Hz s Hfps) Hpl Hpa Hsp).
    rewrite Hraw1, (Hd s Hsp Hfps), !fired_app, fired_show.
    replace (gt (Fin (3 # 2)) two) with false by reflexivity.
    cbn. change (fired ev_loop []) with 0%nat. lia. }
  (* the state between the steps *)
  destruct (update_static (Fin (3 # 2)) s) as (S1 & S2 & S3 & S4).
  fold s1 in S1, S2, S3, S4.
  rewrite Hfps in S1. rewrite Hloop in S2. rewrite Hsp in S3.
  destruct (update_running_flags s sp (Fin (3 # 2)) (Hz s Hfps) Hpl Hpa Hsp)
    as (P1 & Q1).
  fold s1 in P1, Q1. rewrite Hloop, orb_true_r in P1.
  (* the second step *)
  assert (Hraw2 : raw_time one s1 = Fin (5 # 2)).
  { unfold raw_time. now rewrite T1, S4, Hspeed. }
  assert (Ht2 : wrapped_time one s1 = Fin (1 # 2)).
  { unfold wrapped_time. now rewrite Hraw2, (Hd s1 S3 S1), S2. }
  assert (Hf2 : frame_at sp (Fin (1 # 2)) two = one).
  { unfold frame_at. now rewrite Hn. }
  assert (Hne : sne one (_frame (this s1)) = true).
  { apply seq_three_not_one. now rewrite seq_sym. }
  repeat split; try assumption.
  - exact (Hd s Hsp Hfps).
  - subst s2. rewrite (update_running_time s1 sp _ (Hz s1 S1) P1 Q1 S3).
    rewrite Ht2, (Hd s1 S3 S1), Hf2, Hne, S1.
    unfold time_at. now rewrite Hn.
  - subst s2. rewrite (update_running_frame s1 sp _ (Hz s1 S1) P1 Q1 S3).
    rewrite Ht2, (Hd s1 S3 S1), Hf2, Hne, Hn. reflexivity.
  - subst s2. rewrite (update_running_effects s1 sp _ (Hz s1 S1) P1 Q1 S3).
    rewrite Hraw2, (Hd s1 S3 S1), S2, !fired_app, fired_show.
    replace (gt (Fin (5 # 2)) two) with true by reflexivity.
    cbn. change (fired ev_loop [Fire ev_loop; ComponentFire ev_loop])
      with 1%nat. lia.
Qed.

Lemma four_frames_at_two_fps_witness :
  let s1 := _update (Fin (3 # 2)) looping_4_at_2 in
  let s2 := _update one s1 in
  duration (this looping_4_at_2) = two /\
  _time (this s1) = Fin (3 # 2) /\
  seq (_frame (this s1)) (Fin 3) = true /\
  fired ev_loop (effects s1) = fired ev_loop (effects looping_4_at_2) /\
  _time (this s2) = Fin (1 # 2) /\
  _frame (this s2) = one /\
  fired ev_loop (effects s2) = S (fired ev_loop (effects s1)).
Proof.
  apply (four_frames_at_two_fps looping_4_at_2 (sprite_of 4)); reflexivity.
Defined.

(** ** Comparisons of finite Numbers *)

Lemma le_Fin (p q : Q) : le (Fin p) (Fin q) = true <-> p <= q.
Proof. unfold le. apply Qle_bool_iff. Qed.

Lemma le_Fin_false (p q : Q) : le (Fin p) (Fin q) = false <-> q < p.
Proof.
  unfold le. rewrite <- JSFacts.Qltb_lt. unfold Qltb.
  now rewrite negb_true_iff.
Qed.

Lemma lt_Fin (p q : Q) : lt (Fin p) (Fin q) = true <-> p < q.
Proof. unfold lt. apply JSFacts.Qltb_lt. Qed.

Lemma lt_Fin_false (p q : Q) : lt (Fin p) (Fin q) = false <-> q <= p.
Proof. unfold lt. apply JSFacts.Qltb_ge. Qed.

(** ** Clips without a sprite *)

Lemma Qred_zero (q : Q) : q == 0 -> Qred q = 0.
Proof. intros H. now rewrite (Qred_complete q 0 H). Qed.

(** A rounded result that equals [0] is the Number [0] itself. *)
Lemma round_canonical (q r : Q) : round q = Fin r -> r == 0 -> r = 0.
Proof.
  unfold round. destruct (Qltb (Qabs q) overflow_bound); [|discriminate].
  intros [= <-]. unfold nearest. destruct (is_zero q); [reflexivity|].
  intros H. apply Qred_zero. now rewrite Qred_correct in H.
Qed.

Lemma add_canonical (x y : num) (r : Q) :
  add x y = Fin r -> r == 0 -> r = 0.
Proof.
  destruct x as [|a|p], y as [|b|q]; unfold add; try discriminate.
  - destruct (Bool.eqb a b); discriminate.
  - apply round_canonical.
Qed.

(** C8, as the code has it: on a clip with no sprite bound, whatever its
    time and frame, every assignment to [frame] or [time], every [play] of
    a clip that is not playing and every [stop] of one that is playing
    leaves the time [0], and the frame [0] except that an assignment
    [frame = v] stores [v] itself; [pause], [resume] and a [play] or [stop]
    that does nothing leave frame and time as they are; the playing and
    paused flags follow the state machine; and on a clip that does not loop
    an [_update] whose raw time is not negative either does nothing or
    leaves the time [0] and a frame that is [=== 0]. *)
Theorem unbound_clip_by_cases (s : state) :
  _sprite (this s) = None ->
  (forall o : operation,
     let s' := perform o s in
     _sprite (this s') = None /\
     match o with
     | op_set_frame v => _frame (this s') = v /\ _time (this s') = zero
     | op_set_time _ => _frame (this s') = zero /\ _time (this s') = zero
     | op_play =>
         if _playing (this s) then s' = s
         else _frame (this s') = zero /\ _time (this s') = zero
     | op_stop =>
         if _playing (this s)
         then _frame (this s') = zero /\ _time (this s') = zero
         else s' = s
     | op_pause | op_resume =>
         _frame (this s') = _frame (this s) /\
         _time (this s') = _time (this s)
     end /\
     match o with
     | op_set_frame _ | op_set_time _ =>
         _playing (this s') = _playing (this s) /\
         _paused (this s') = _paused (this s)
     | op_play =>
         _playing (this s') = true /\
         _paused (this s') = _playing (this s) && _paused (this s)
     | op_pause =>
         _playing (this s') = _playing (this s) /\
         _paused (this s') = _playing (this s) || _paused (this s)
     | op_resume =>
         _playing (this s') = _playing (this s) /\
         _paused (this s') = false
     | op_stop =>
         _playing (this s') = false /\
         _paused (this s') = negb (_playing (this s)) && _paused (this s)
     end) /\
  (forall dt : num,
     loop (this s) = false ->
     le zero (raw_time dt s) = true ->
     let s' := _update dt s in
     _sprite (this s') = None /\
     (s' = s \/
      _time (this s') = zero /\ seq (_frame (this s')) zero = true)).
Proof.
  intros Hsp. split.
  - intros o s'. subst s'.
    destruct s as [[f0 sp0 sa nm fp lp pl pa tm] [spd act mi] es].
    cbn in Hsp. subst sp0.
    destruct o, pl, pa; cbn;
      unfold set_time, play, pause, resume, stop;
      cbn; repeat (case_if; cbn); unfold set_frame;
      cbn; repeat (case_if; cbn); repeat split; auto.
  - intros dt Hloop Hraw s'. subst s'. unfold raw_time in Hraw.
    destruct s as [[f0 sp0 sa nm fp lp pl pa tm] [spd act mi] es].
    cbn in Hsp, Hloop, Hraw. subst sp0 lp.
    unfold _update. cbn.
    destruct (seq fp zero); [cbn; auto|].
    destruct (negb pl || pa); [cbn; auto|].
    unfold duration. cbn.
    assert (Hf : forall x, sne zero f0 = false -> x = f0 -> seq x zero = true).
    { intros x F ->. unfold sne in F. apply negb_false_iff in F.
      now rewrite seq_sym. }
    destruct (add tm (mul dt spd)) as [|b|r] eqn:E; try discriminate.
    + (* the raw time is +Infinity *)
      destruct b; [discriminate|].
      change (gt (Inf false) zero) with true. cbn.
      destruct (sne zero f0) eqn:F; unfold set_frame; cbn;
        destruct act; cbn; (split; [reflexivity|]); right;
        (split; [reflexivity|]); try reflexivity; now apply Hf.
    + apply le_Fin in Hraw.
      destruct (gt (Fin r) zero) eqn:G; cbn.
      * destruct (sne zero f0) eqn:F; unfold set_frame; cbn;
          destruct act; cbn; (split; [reflexivity|]); right;
          (split; [reflexivity|]); try reflexivity; now apply Hf.
      * apply lt_Fin_false in G.
        assert (Hr : r = 0).
        { apply (add_canonical _ _ _ E). lra. }
        subst r.
        destruct (sne zero f0) eqn:F; unfold set_frame; cbn;
          destruct act; cbn; (split; [reflexivity|]); right;
          (split; [reflexivity|]); try reflexivity; now apply Hf.
Qed.

Lemma unbound_clip_by_cases_witness :
  (_sprite (this (perform (op_set_frame (Fin 5)) unbound_stopped)) = None /\
   _frame (this (perform (op_set_frame (Fin 5)) unbound_stopped)) = Fin 5 /\
   _time (this (perform (op_set_frame (Fin 5)) unbound_stopped)) = zero) /\
  (let s' := _update one (play unbound_stopped) in
   _sprite (this s') = None /\
   (s' = play unbound_stopped \/
    _time (this s') = zero /\ seq (_frame (this s')) zero = true)).
Proof.
  split.
  - destruct (proj1 (unbound_clip_by_cases unbound_stopped eq_refl)
                (op_set_frame (Fin 5))) as (H1 & (H2 & H3) & _).
    exact (conj H1 (conj H2 H3)).
  - apply (proj2 (unbound_clip_by_cases (play unbound_stopped) eq_refl) one);
      reflexivity.
Defined.

(** C8 as stated fails: on a clip with no sprite bound, assigning
    [frame = 5] leaves the frame at [5], not at [0]. *)
Lemma unbound_clip_keeps_assigned_frame :
  _sprite (this unbound_stopped) = None /\
  _frame (this (set_frame (Fin 5) unbound_stopped)) = Fin 5 /\
  _frame (this (set_frame (Fin 5) unbound_stopped)) <> zero.
Proof. repeat split. cbn. discriminate. Qed.

(** Nor is the time of a clip without a sprite always [0]: a clip that
    loses its sprite at the time [0.5] keeps that time, and [pause()]
    leaves it there. *)
Lemma unbound_clip_keeps_time :
  let s := set_sprite None (_update (Fin (1 # 2)) looping_4_at_2) in
  _sprite (this s) = None /\
  _time (this s) = Fin (1 # 2) /\
  _time (this (pause s)) = Fin (1 # 2).
Proof. vm_compute. repeat split. Qed.

(** ** Frame and time derived from each other *)

Lemma set_frame_bound (v : num) (s : state) (sp : sprite_t) :
  _sprite (this s) = Some sp ->
  _frame (this (set_frame v s)) = clamp v zero (frame_count sp) /\
  _time (this (set_frame v s)) =
    time_at sp (fps (this s)) v (duration (this s)).
Proof.
  intros H. unfold set_frame, time_at, duration. rewrite H. cbn. rewrite H.
  destruct (currentClip_is_this (component s)); split; reflexivity.
Qed.

Lemma duration_set_frame (v : num) (s : state) :
  duration (this (set_frame v s)) = duration (this s).
Proof.
  destruct (set_frame_static v s) as (H1 & _ & H3 & _).
  unfold duration. now rewrite H1, H3.
Qed.

Lemma set_time_bound (v : num) (s : state) (sp : sprite_t) :
  _sprite (this s) = Some sp ->
  set_time v s =
  set_frame (frame_at sp (settled_time v (this s)) (duration (this s)))
            (on_this (with_time (settled_time v (this s))) s).
Proof.
  intros H. unfold set_time, settled_time, frame_at.
  destruct s as [[f0 sp0 sa nm fp lp pl pa tm] [spd act mi] es].
  cbn in *. subst sp0. unfold duration. cbn.
  repeat (case_if; cbn); reflexivity.
Qed.

Lemma round_finite (q r : Q) :
  round q = Fin r -> Qabs q < overflow_bound /\ r = nearest q.
Proof.
  unfold round. destruct (Qltb (Qabs q) overflow_bound) eqn:E;
    [|discriminate].
  intros [= <-]. split; [now apply JSFacts.Qltb_lt | reflexivity].
Qed.

Lemma round_defined (q : Q) : round q <> NaN.
Proof. unfold round. now destruct (Qltb (Qabs q) overflow_bound). Qed.

Lemma round_nonneg (q : Q) :
  0 <= q -> round q = Inf false \/ exists r, round q = Fin r /\ 0 <= r.
Proof.
  intros H. unfold round.
  destruct (Qltb (Qabs q) overflow_bound).
  - right. eexists. split; [reflexivity|]. now apply JSFacts.nearest_nonneg.
  - left. replace (Qltb q 0) with false; [reflexivity|].
    symmetry. now apply JSFacts.Qltb_ge.
Qed.

Lemma is_finite_Fin (x : num) : is_finite x = true -> exists q, x = Fin q.
Proof. destruct x; try discriminate. eauto. Qed.

Lemma Qfloor_of_Z (q : Q) (k : Z) : q == inject_Z k -> Qfloor q = k.
Proof. intros H. rewrite H. apply Qfloor_Z. Qed.

(** [clamp] on finite numbers, for a lower bound of [0]. *)
Lemma clamp_Fin (v m : Q) :
  exists r, clamp (Fin v) zero (Fin m) = Fin r /\
    ((m <= v /\ r = m) \/ (v < m /\ v <= 0 /\ r = 0) \/
     (v < m /\ 0 < v /\ r = v)).
Proof.
  unfold clamp, ge, zero.
  destruct (le (Fin m) (Fin v)) eqn:E1.
  - apply le_Fin in E1. exists m. auto.
  - apply le_Fin_false in E1.
    destruct (le (Fin v) (Fin 0)) eqn:E2.
    + apply le_Fin in E2. exists 0. auto 6.
    + apply le_Fin_false in E2. exists v. auto 6.
Qed.

(** [clamp] to an interval that starts at [0], on anything but [NaN]. *)
Lemma clamp_defined (v : num) (m : Q) :
  v <> NaN -> 0 <= m ->
  exists r, clamp v zero (Fin m) = Fin r /\ 0 <= r <= m.
Proof.
  intros Hv Hm. destruct v as [|[]|q]; [contradiction| | |].
  - exists 0. split; [reflexivity | lra].
  - exists m. split; [reflexivity | lra].
  - destruct (clamp_Fin q m)
      as (r & -> & [(H1 & ->)|[(H1 & H2 & ->)|(H1 & H2 & ->)]]);
      eexists; (split; [reflexivity | lra]).
Qed.

(** [clamp] of a whole number, or of an infinity, to the frames of a
    sprite is a whole number. *)
Lemma clamp_whole (v : num) (sp : sprite_t) :
  (exists m : Z, v = Fin (inject_Z m)) \/ (exists b, v = Inf b) ->
  exists k : Z, clamp v zero (frame_count sp) = Fin (inject_Z k) /\
                (0 <= k <= frame_total sp)%Z.
Proof.
  assert (Hn : (0 <= frame_total sp)%Z) by (unfold frame_total; lia).
  change (frame_count sp) with (Fin (inject_Z (frame_total sp))).
  intros [(m & ->)|([] & ->)].
  - destruct (clamp_Fin (inject_Z m) (inject_Z (frame_total sp)))
      as (r & -> & [(H1 & ->)|[(H1 & H2 & ->)|(H1 & H2 & ->)]]).
    + exists (frame_total sp). split; [reflexivity | lia].
    + exists 0%Z. split; [reflexivity | lia].
    + exists m. split; [reflexivity|].
      rewrite <- Zlt_Qlt in H1. change 0 with (inject_Z 0) in H2.
      rewrite <- Zlt_Qlt in H2. lia.
  - exists 0%Z. split; [reflexivity | lia].
  - exists (frame_total sp). split; [reflexivity | lia].
Qed.

Lemma or_else_positive (f : Q) : 0 < f -> or_else (Fin f) MIN_VALUE = Fin f.
Proof.
  intros H. unfold or_else, truthy.
  replace (is_zero f) with false; [reflexivity|].
  symmetry. apply JSFacts.is_zero_false. lra.
Qed.

(** [fps || Number.MIN_VALUE] is an infinity or a finite number other
    than [0]. *)
Lemma or_else_MIN_VALUE_cases (x : num) :
  (exists b, or_else x MIN_VALUE = Inf b) \/
  (exists q, or_else x MIN_VALUE = Fin q /\ ~ q == 0).
Proof.
  unfold or_else. destruct x as [|b|q]; unfold truthy.
  - right. eexists. split; [reflexivity | discriminate].
  - left. now exists b.
  - destruct (is_zero q) eqn:E; cbn.
    + right. eexists. split; [reflexivity | discriminate].
    + right. exists q. split; [reflexivity|].
      now apply JSFacts.is_zero_false.
Qed.

Lemma div_Fin (p q : Q) : ~ q == 0 -> div (Fin p) (Fin q) = round (p / q).
Proof.
  intros H. unfold div. apply JSFacts.is_zero_false in H. now rewrite H.
Qed.

(** The frame derived from a finite time, on a clip whose duration is
    finite and not [0], is a whole number or an infinity. *)
Lemma frame_at_whole (sp : sprite_t) (x dq : Q) :
  ~ dq == 0 ->
  (exists m : Z, frame_at sp (Fin x) (Fin dq) = Fin (inject_Z m)) \/
  (exists b, frame_at sp (Fin x) (Fin dq) = Inf b).
Proof.
  intros Hd. unfold frame_at.
  change (frame_count sp) with (Fin (inject_Z (frame_total sp))).
  unfold mul.
  destruct (round (inject_Z (frame_total sp) * x)) as [|b|p] eqn:E.
  - now apply round_defined in E.
  - right. eexists. unfold div, floor. reflexivity.
  - rewrite div_Fin by exact Hd.
    destruct (round (p / dq)) as [|b|c] eqn:E'.
    + now apply round_defined in E'.
    + right. now exists b.
    + left. now exists (Qfloor c).
Qed.

(** The time that the frame setter stores lies between [0] and the
    duration, whatever it is given but [NaN]. *)
Lemma time_at_defined (sp : sprite_t) (fps v : num) (dq : Q) :
  v <> NaN -> 0 <= dq ->
  exists t, time_at sp fps v (Fin dq) = Fin t /\ 0 <= t <= dq.
Proof.
  intros Hv Hd. unfold time_at.
  change (frame_count sp) with (Fin (inject_Z (frame_total sp))).
  assert (Hn : 0 <= inject_Z (frame_total sp)).
  { change 0 with (inject_Z 0). rewrite <- Zle_Qle.
    unfold frame_total. lia. }
  destruct (clamp_defined v _ Hv Hn) as (r & -> & _).
  apply clamp_defined; [|exact Hd].
  destruct (or_else_MIN_VALUE_cases fps) as [(b & ->)|(q & -> & Hq)].
  - discriminate.
  - rewrite div_Fin by exact Hq. apply round_defined.
Qed.

(** A clip whose duration is finite and positive has a sprite of at
    least one frame and a finite, positive [fps]. *)
Lemma positive_duration (c : clip) (dq : Q) :
  duration c = Fin dq -> 0 < dq ->
  exists sp f,
    _sprite c = Some sp /\ frames sp <> [] /\ fps c = Fin f /\ 0 < f /\
    round (inject_Z (frame_total sp) / f) = Fin dq.
Proof.
  unfold duration. intros Hd Hpos.
  destruct (_sprite c) as [sp|]; [|injection Hd as <-; lra].
  exists sp.
  change (frame_count sp) with (Fin (inject_Z (frame_total sp))) in Hd.
  assert (Hn : 0 <= inject_Z (frame_total sp)).
  { change 0 with (inject_Z 0). rewrite <- Zle_Qle.
    unfold frame_total. lia. }
  assert (Hmin : div (Fin (inject_Z (frame_total sp))) MIN_VALUE <> Fin dq).
  { intros Hd'. destruct (frames sp) as [|x l] eqn:He.
    - unfold frame_total in Hd'. rewrite He in Hd'.
      assert (E : div (Fin (inject_Z (Z.of_nat (List.length (@nil string)))))
                      MIN_VALUE = zero)
        by (vm_compute; reflexivity).
      rewrite E in Hd'. injection Hd' as <-. lra.
    - assert (E : div (Fin (inject_Z (frame_total sp))) MIN_VALUE
                  = Inf false).
      { apply (div_MIN_VALUE_overflows (List.length (frames sp))).
        rewrite He. cbn. lia. }
      rewrite E in Hd'. discriminate. }
  destruct (fps c) as [|b|f]; unfold or_else, truthy in Hd.
  - contradiction.
  - cbn in Hd. unfold div in Hd. injection Hd as <-. lra.
  - destruct (is_zero f) eqn:Ht; cbn in Hd; [contradiction|].
    pose proof Ht as Hf. apply JSFacts.is_zero_false in Hf.
    rewrite div_Fin in Hd by exact Hf.
    apply round_finite in Hd as (Hb & Hq).
    assert (H0 : 0 < f).
    { destruct (Qlt_le_dec 0 f) as [H|H]; [exact H|]. exfalso.
      assert (Hle : inject_Z (frame_total sp) / f <= 0).
      { assert (Hneg : f < 0).
        { apply Qle_lteq in H as [H|H]; [exact H | contradiction]. }
        assert (E : inject_Z (frame_total sp) / f
                    == - (inject_Z (frame_total sp) / - f))
          by (field; lra).
        assert (0 <= inject_Z (frame_total sp) / - f)
          by (apply Qle_shift_div_l; lra).
        lra. }
      apply JSFacts.nearest_nonpos in Hle. rewrite Hq in Hpos. lra. }
    exists f. repeat split; try assumption.
    + intros He. rewrite Hq in Hpos.
      rewrite JSFacts.nearest_zero in Hpos; [lra|].
      unfold frame_total. rewrite He. unfold Qdiv. cbn. ring.
    + unfold round. apply JSFacts.Qltb_lt in Hb. now rewrite Hb, Hq.
Qed.

Lemma positive_duration_runs (c : clip) (dq : Q) :
  duration c = Fin dq -> 0 < dq ->
  exists sp, _sprite c = Some sp /\ seq (fps c) zero = false.
Proof.
  intros Hd Hpos.
  destruct (positive_duration c dq Hd Hpos) as (sp & f & H1 & _ & H3 & H4 & _).
  exists sp. split; [exact H1|]. rewrite H3. unfold seq, zero.
  apply not_true_iff_false. intros H. apply Qeq_bool_iff in H. lra.
Qed.

(** The quotient [r / fps] of a frame [r] between [0] and [n], as the
    division rounds it, is at most the duration [n / fps] as it is rounded:
    clamping it to the duration leaves it as it is. *)
Lemma quotient_clamped (n f r dq : Q) :
  0 < f ->
  round (n / f) = Fin dq ->
  0 <= r <= n ->
  div (Fin r) (Fin f) = Fin (nearest (r / f)) /\
  exists t, clamp (Fin (nearest (r / f))) zero (Fin dq) = Fin t /\
            t == nearest (r / f) /\ 0 <= t <= dq.
Proof.
  intros Hpos Hround Hr.
  apply round_finite in Hround as (Hb & ->).
  assert (Hw0 : 0 <= r / f) by (apply Qle_shift_div_l; lra).
  assert (Hwd : r / f <= n / f).
  { apply Qmult_le_r; [now apply Qinv_lt_0_compat | lra]. }
  rewrite Qabs_pos in Hb by lra.
  split.
  - rewrite div_Fin by lra.
    apply JSFacts.round_in_range. rewrite Qabs_pos; lra.
  - pose proof (JSFacts.nearest_nonneg _ Hw0) as Ht0.
    pose proof (JSFacts.nearest_mono _ _ Hwd) as Htd.
    destruct (clamp_Fin (nearest (r / f)) (nearest (n / f)))
      as (t & -> & [(H1 & ->)|[(H1 & H2 & ->)|(H1 & H2 & ->)]]);
      eexists; (split; [reflexivity|]); split; lra.
Qed.

(** The arithmetic of a clip with a sprite of at least one frame and a
    positive [fps], within range. *)
Section Arithmetic.

Variables (c : clip) (sp : sprite_t) (f : Q).
Hypothesis Hsprite : _sprite c = Some sp.
Hypothesis Hfps : fps c = Fin f.
Hypothesis Hpos : 0 < f.
Hypothesis Hframes : frames sp <> [].
Hypothesis Hrange : within_range sp c.

Local Abbreviation n := (frame_total sp).

Lemma frame_count_n : frame_count sp = Fin (inject_Z n).
Proof. reflexivity. Qed.

Lemma n_positive : (0 < n)%Z.
Proof.
  unfold frame_total. destruct (frames sp); [contradiction | cbn; lia].
Qed.

Lemma n_small : inject_Z n < overflow_bound.
Proof.
  destruct Hrange as (H & _). fold (frame_total sp) in H.
  apply Qlt_le_trans with (inject_Z (2 ^ 32)).
  - now rewrite <- Zlt_Qlt.
  - apply Qle_bool_iff. vm_compute. reflexivity.
Qed.

Lemma duration_finite :
  exists dq, duration c = Fin dq /\ dq = nearest (inject_Z n / f) /\
             0 <= dq /\
             inject_Z n / f < overflow_bound /\
             inject_Z n * dq < overflow_bound.
Proof.
  destruct Hrange as (_ & H).
  assert (Hd : duration c = div (Fin (inject_Z n)) (Fin f)).
  { unfold duration. rewrite Hsprite, Hfps, or_else_positive by lra.
    reflexivity. }
  rewrite Hd in H |- *. rewrite frame_count_n in H.
  rewrite div_Fin in H |- * by lra.
  destruct (round (inject_Z n / f)) as [| |dq] eqn:E;
    try (unfold mul in H; try destruct (is_zero _); discriminate).
  exists dq. apply round_finite in E as (E1 & ->).
  pose proof n_positive as Hn. rewrite Zlt_Qlt in Hn.
  change (inject_Z 0) with 0 in Hn.
  assert (Hq : 0 < inject_Z n / f).
  { apply Qlt_shift_div_l; lra. }
  repeat split.
  - apply JSFacts.nearest_nonneg. lra.
  - rewrite Qabs_pos in E1; lra.
  - unfold mul in H. destruct (is_finite_Fin _ H) as (r & Hr).
    apply round_finite in Hr as (Hr & _).
    eapply Qle_lt_trans; [apply Qle_Qabs | exact Hr].
Qed.

Lemma clamp_index (k : Z) :
  (0 <= k <= n)%Z ->
  clamp (Fin (inject_Z k)) zero (frame_count sp) = Fin (inject_Z k).
Proof.
  intros Hk. rewrite frame_count_n.
  destruct (clamp_Fin (inject_Z k) (inject_Z n))
    as (r & -> & [(H1 & ->)|[(H1 & H2 & ->)|(H1 & H2 & ->)]]).
  - rewrite <- Zle_Qle in H1. now replace k with n by lia.
  - change 0 with (inject_Z 0) in H2. rewrite <- Zle_Qle in H2.
    now replace k with 0%Z by lia.
  - reflexivity.
Qed.

(** The time stored for a frame [r] between [0] and [frames.length] is the
    quotient [r / fps] as the division rounds it: the duration bounds it. *)
Lemma time_of_frame (r dq : Q) :
  duration c = Fin dq ->
  0 <= r <= inject_Z n ->
  div (Fin r) (or_else (fps c) MIN_VALUE) = Fin (nearest (r / f)) /\
  exists t, clamp (Fin (nearest (r / f))) zero (Fin dq) = Fin t /\
            t == nearest (r / f) /\ 0 <= t <= dq.
Proof.
  intros Hd Hr.
  destruct duration_finite as (dq' & Hd' & Heq & Hd0 & Hdb & Hnd).
  rewrite Hd in Hd'. injection Hd' as <-.
  assert (Hw0 : 0 <= r / f) by (apply Qle_shift_div_l; lra).
  assert (Hwd : r / f <= inject_Z n / f).
  { apply Qmult_le_r; [now apply Qinv_lt_0_compat | lra]. }
  split.
  - rewrite Hfps, or_else_positive, div_Fin by lra.
    apply JSFacts.round_in_range. rewrite Qabs_pos; lra.
  - pose proof (JSFacts.nearest_nonneg _ Hw0) as Ht0.
    pose proof (JSFacts.nearest_mono _ _ Hwd) as Htd. rewrite <- Heq in Htd.
    destruct (clamp_Fin (nearest (r / f)) dq)
      as (t & -> & [(H1 & ->)|[(H1 & H2 & ->)|(H1 & H2 & ->)]]);
      eexists; (split; [reflexivity|]); split; lra.
Qed.

End Arithmetic.

Lemma within_range_duration (sp : sprite_t) (c c' : clip) :
  duration c' = duration c -> within_range sp c -> within_range sp c'.
Proof. unfold within_range. now intros ->. Qed.

(** A finite Number is below [2^1024]. *)
Lemma Number_bound (f : Q) : Number f -> Qabs f <= inject_Z (2 ^ 1024).
Proof.
  intros H. apply round_finite in H as (H & _).
  apply Qle_trans with overflow_bound; [lra|].
  apply Qle_bool_iff. vm_compute. reflexivity.
Qed.

Lemma seq_Fin (p q : Q) : seq (Fin p) (Fin q) = true <-> p == q.
Proof. unfold seq. apply Qeq_bool_iff. Qed.

(** A clip with a positive [fps] that is a Number has a positive
    duration. *)
Lemma duration_not_tiny (sp : sprite_t) (f : Q) :
  0 < f -> Number f -> frames sp <> [] ->
  2 ^ (-1024) <= inject_Z (frame_total sp) / f /\
  0 < nearest (inject_Z (frame_total sp) / f).
Proof.
  intros Hpos Hnum Hne.
  pose proof (Number_bound f Hnum) as Hb. rewrite Qabs_pos in Hb by lra.
  pose proof (n_positive sp Hne) as Hn.
  assert (Hn1 : 1 <= inject_Z (frame_total sp)).
  { change 1 with (inject_Z 1). rewrite <- Zle_Qle. lia. }
  assert (H : 2 ^ (-1024) <= inject_Z (frame_total sp) / f)
    by (apply JSFacts.quotient_not_tiny; assumption).
  split; [exact H|].
  apply JSFacts.nearest_mono in H. rewrite JSFacts.nearest_tiny in H.
  pose proof (JSFacts.two_pow_pos (-1024)). lra.
Qed.

(** C7, as the code has it: on a clip with a positive [fps] and a sprite of
    at least one frame, within range, assigning an in-range frame index
    [k], reading the time and assigning that time back stores the frame
    [k] again or the frame before it, [k - 1]: the time [k / fps] and the
    quotient [frames.length * time / duration] are rounded, and
    [Math.floor] may fall on either side of [k]. *)
Theorem frame_time_round_trip (s : state) (sp : sprite_t) (f : Q) (k : Z) :
  _sprite (this s) = Some sp ->
  fps (this s) = Fin f ->
  0 < f ->
  Number f ->
  frames sp <> [] ->
  within_range sp (this s) ->
  (0 <= k < Z.of_nat (List.length (frames sp)))%Z ->
  let s1 := set_frame (Fin (inject_Z k)) s in
  let t := _time (this s1) in
  let s2 := set_time t s1 in
  _frame (this s1) = Fin (inject_Z k) /\
  (_frame (this s2) = Fin (inject_Z k) \/
   (0 < k)%Z /\ _frame (this s2) = Fin (inject_Z (k - 1))).
Proof.
  intros Hsp Hfps Hpos Hnum Hne Hrange Hk s1 t s2.
  destruct (duration_finite _ _ _ Hsp Hfps Hpos Hne Hrange)
    as (dq & Hd & Heq & Hd0 & Hdb & Hnd).
  destruct (duration_not_tiny sp f Hpos Hnum Hne) as (Htiny & Hdpos).
  rewrite <- Heq in Hdpos.
  fold (frame_total sp) in Hk.
  assert (Hk' : (0 <= k <= frame_total sp)%Z) by lia.
  assert (HkQ : 0 <= inject_Z k <= inject_Z (frame_total sp)).
  { change 0 with (inject_Z 0). rewrite <- !Zle_Qle. exact Hk'. }
  (* the frame setter *)
  destruct (set_frame_bound (Fin (inject_Z k)) s sp Hsp) as (F1 & T1).
  fold s1 in F1, T1. fold t in T1.
  rewrite (clamp_index sp k Hk') in F1.
  unfold time_at in T1. rewrite (clamp_index sp k Hk'), Hd in T1.
  destruct (time_of_frame _ _ _ Hsp Hfps Hpos Hne Hrange (inject_Z k) dq Hd HkQ)
    as (Hdiv & t' & Hclamp & Ht' & Ht0).
  rewrite Hdiv, Hclamp in T1.
  destruct (set_frame_static (Fin (inject_Z k)) s) as (S1 & _ & S3 & _).
  fold s1 in S1, S3. rewrite Hsp in S3.
  pose proof (duration_set_frame (Fin (inject_Z k)) s) as D1. fold s1 in D1.
  (* the time setter *)
  assert (Hsettled : settled_time t (this s1) = Fin t').
  { unfold settled_time. rewrite D1, Hd, T1.
    replace (lt (Fin t') zero) with false
      by (symmetry; apply lt_Fin_false; lra).
    replace (gt (Fin t') (Fin dq)) with false
      by (symmetry; apply lt_Fin_false; lra).
    reflexivity. }
  assert (Hs2 : s2 = set_frame (frame_at sp (Fin t') (Fin dq))
                       (on_this (with_time (Fin t')) s1)).
  { subst s2. now rewrite (set_time_bound t s1 sp S3), Hsettled, D1, Hd. }
  assert (S3' : _sprite (this (on_this (with_time (Fin t')) s1)) = Some sp)
    by exact S3.
  destruct (set_frame_bound (frame_at sp (Fin t') (Fin dq)) _ sp S3')
    as (F2 & _).
  rewrite <- Hs2 in F2.
  split; [exact F1|]. rewrite F2.
  (* the frame derived from the time *)
  pose proof (n_positive sp Hne) as Hn. rewrite Zlt_Qlt in Hn.
  change (inject_Z 0) with 0 in Hn.
  assert (Hmul : mul (frame_count sp) (Fin t')
                 = Fin (nearest (inject_Z (frame_total sp) * t'))).
  { rewrite (frame_count_n sp). unfold mul.
    apply JSFacts.round_in_range.
    assert (0 <= inject_Z (frame_total sp) * t')
      by (apply Qmult_le_0_compat; lra).
    assert (inject_Z (frame_total sp) * t' <= inject_Z (frame_total sp) * dq)
      by (apply Qmult_le_l; lra).
    rewrite Qabs_pos; lra. }
  unfold frame_at. rewrite Hmul, div_Fin by lra.
  destruct (Z.eq_dec k 0) as [->|Hk0].
  - (* the first frame *)
    left.
    assert (Ez : t' == 0).
    { rewrite Ht'. rewrite JSFacts.nearest_zero; [reflexivity|].
      unfold Qdiv. change (inject_Z 0) with 0. ring. }
    assert (Eb : nearest (inject_Z (frame_total sp) * t') = 0).
    { apply JSFacts.nearest_zero. rewrite Ez. ring. }
    rewrite Eb.
    assert (Er : round (0 / dq) = Fin 0).
    { rewrite JSFacts.round_in_range.
      - f_equal; apply JSFacts.nearest_zero; unfold Qdiv; ring.
      - assert (E0 : 0 / dq == 0) by (unfold Qdiv; ring).
        rewrite E0. reflexivity. }
    rewrite Er. unfold floor.
    change (Qfloor 0) with 0%Z. apply (clamp_index sp 0 Hk').
  - (* a later frame *)
    assert (Hk1 : 1 <= inject_Z k).
    { change 1 with (inject_Z 1). rewrite <- Zle_Qle. lia. }
    assert (Hn32 : inject_Z (frame_total sp) <= 4294967296).
    { destruct Hrange as (H32 & _). change 4294967296 with (inject_Z (2 ^ 32)).
      rewrite <- Zle_Qle. lia. }
    pose proof (Number_bound f Hnum) as Hb. rewrite Qabs_pos in Hb by lra.
    destruct (JSFacts.round_trip_quotient (inject_Z (frame_total sp))
                (inject_Z k) f Hk1 (proj2 HkQ) Hn32 Hpos Hb)
      as (C1 & C2 & C3).
    rewrite <- Heq in C1, C2, C3.
    assert (Eb : nearest (inject_Z (frame_total sp) * t')
                 = nearest (inject_Z (frame_total sp)
                            * nearest (inject_Z k / f))).
    { apply JSFacts.nearest_comp. now rewrite Ht'. }
    rewrite Eb.
    set (b := nearest (inject_Z (frame_total sp) * nearest (inject_Z k / f)))
      in *.
    rewrite JSFacts.round_in_range.
    2:{ eapply Qlt_trans; [exact C3|]. reflexivity. }
    unfold floor.
    set (m := Qfloor (nearest (b / dq))).
    assert (Hm1 : (k - 1 <= m)%Z).
    { subst m. rewrite <- (Qfloor_Z (k - 1)). apply Qfloor_resp_le.
      replace (k - 1)%Z with (k + -1)%Z by ring.
      rewrite inject_Z_plus. change (inject_Z (-1)) with (-1). lra. }
    assert (Hm2 : (m <= k)%Z).
    { subst m. pose proof (Qfloor_le (nearest (b / dq))) as Hfl.
      assert (Hlt : inject_Z (Qfloor (nearest (b / dq))) < inject_Z (k + 1)).
      { rewrite inject_Z_plus. change (inject_Z 1) with 1. lra. }
      rewrite <- Zlt_Qlt in Hlt. lia. }
    assert (Hm : (0 <= m <= frame_total sp)%Z) by lia.
    rewrite (clamp_index sp m Hm).
    destruct (Z.eq_dec m k) as [->|Hmk]; [now left|].
    right. split; [lia|]. now replace (k - 1)%Z with m by lia.
Qed.

Lemma frame_time_round_trip_witness :
  let s1 := set_frame (Fin (inject_Z 3)) looping_4_at_2 in
  let t := _time (this s1) in
  let s2 := set_time t s1 in
  _frame (this s1) = Fin (inject_Z 3) /\
  (_frame (this s2) = Fin (inject_Z 3) \/
   (0 < 3)%Z /\ _frame (this s2) = Fin (inject_Z (3 - 1))).
Proof.
  apply (frame_time_round_trip looping_4_at_2 (sprite_of 4) 2 3).
  - reflexivity.
  - reflexivity.
  - reflexivity.
  - vm_compute. reflexivity.
  - discriminate.
  - split; vm_compute; reflexivity.
  - cbn. lia.
Defined.

(** C7 as stated fails: with [fps == 0] and a sprite of four frames,
    assigning [frame = 1] stores the time [+Infinity], and assigning that
    time back stores the frame [NaN]. *)
Lemma round_trip_fails_at_fps_zero :
  let s1 := set_frame one still_4 in
  let s2 := set_time (_time (this s1)) s1 in
  _frame (this s1) = one /\
  _time (this s1) = Inf false /\
  _frame (this s2) = NaN /\
  seq (_frame (this s2)) one = false.
Proof. vm_compute. repeat split. Qed.

(** The frame before is reached: with four frames at [fps = 10], the frame
    [3] is stored at the time [0.3], from which [Math.floor(4 * 0.3 / 0.4)]
    derives the frame [2]. *)
Lemma round_trip_loses_a_frame :
  let s := state_of (clip_of (Some (sprite_of 4)) (Fin 10) true false false)
             one in
  let s1 := set_frame (Fin 3) s in
  let s2 := set_time (_time (this s1)) s1 in
  _frame (this s1) = Fin 3 /\
  _time (this s1) = Fin (5404319552844595 # 18014398509481984) /\
  _frame (this s2) = Fin 2.
Proof. vm_compute. repeat split. Qed.

(** ** Looping *)

Lemma rem_range (p q : Q) :
  0 <= p -> 0 < q ->
  exists r, rem (Fin p) (Fin q) = Fin r /\ 0 <= r < q.
Proof.
  intros Hp Hq. unfold rem.
  replace (is_zero q) with false
    by (symmetry; apply JSFacts.is_zero_false; lra).
  eexists. split; [reflexivity|]. rewrite Qred_correct.
  assert (H0 : 0 <= p / q) by (apply Qle_shift_div_l; lra).
  unfold Qtrunc.
  replace (Qltb (p / q) 0) with false
    by (symmetry; apply JSFacts.Qltb_ge; exact H0).
  pose proof (Qfloor_le (p / q)) as Hlo.
  pose proof (Qlt_floor (p / q)) as Hhi.
  rewrite inject_Z_plus in Hhi. change (inject_Z 1) with 1 in Hhi.
  set (m := inject_Z (Qfloor (p / q))) in *.
  assert (Hpq : p / q * q == p) by (field; lra).
  assert (H1 : m * q <= p).
  { rewrite <- Hpq. apply Qmult_le_r; assumption. }
  assert (H2 : p < (m + 1) * q).
  { rewrite <- Hpq at 1. apply Qmult_lt_r; assumption. }
  split; lra.
Qed.

(** The time an update settles on before it derives the frame lies between
    [0] and the duration. *)
Lemma wrapped_time_range (s : state) (dt : num) (raw dq : Q) :
  duration (this s) = Fin dq -> 0 < dq ->
  raw_time dt s = Fin raw -> 0 <= raw ->
  exists x, wrapped_time dt s = Fin x /\ 0 <= x <= dq /\ x <= raw /\
            (loop (this s) = false -> dq < raw -> x = dq) /\
            (raw <= dq -> x = raw).
Proof.
  intros Hd Hdpos Hraw Hraw0.
  unfold wrapped_time. rewrite Hraw, Hd. unfold gt, lt.
  destruct (Qltb dq raw) eqn:E.
  - apply JSFacts.Qltb_lt in E. destruct (loop (this s)).
    + destruct (rem_range raw dq Hraw0 Hdpos) as (r & -> & Hr).
      exists r.
      repeat split; intros; try lra; try discriminate; exfalso; lra.
    + exists dq. repeat split; intros; try lra; exfalso; lra.
  - apply JSFacts.Qltb_ge in E. exists raw.
    repeat split; intros; try lra; exfalso; lra.
Qed.

(** The time that an [_update] leaves on a running clip whose duration is
    finite and positive, when the raw time is finite and not negative, lies
    between [0] and the duration. *)
Lemma update_time_in_range (s : state) (raw dq : Q) (dt : num) :
  duration (this s) = Fin dq ->
  0 < dq ->
  _playing (this s) = true ->
  _paused (this s) = false ->
  raw_time dt s = Fin raw ->
  0 <= raw ->
  exists t, _time (this (_update dt s)) = Fin t /\ 0 <= t <= dq.
Proof.
  intros Hd Hdpos Hpl Hpa Hraw Hraw0.
  destruct (positive_duration_runs _ _ Hd Hdpos) as (sp & Hsp & Hz).
  destruct (wrapped_time_range s dt raw dq Hd Hdpos Hraw Hraw0)
    as (x & Hx & Hx0 & _).
  rewrite (update_running_time s sp dt Hz Hpl Hpa Hsp), Hx, Hd.
  destruct (sne _ _); [|now exists x].
  apply time_at_defined; [|lra].
  assert (Hdq : ~ dq == 0) by lra.
  destruct (frame_at_whole sp x dq Hdq) as [(m & ->)|(b & ->)]; discriminate.
Qed.

(** C4, as the code has it: on a looping clip that is playing and not
    paused, with a finite duration above [0], an [_update] whose raw time is
    finite and not negative leaves a time between [0] and the duration, the
    duration included; it fires [loop] once when the raw time exceeds the
    duration and not at all otherwise. *)
Theorem looping_update_in_range (s : state) (raw dq : Q) (dt : num) :
  duration (this s) = Fin dq ->
  0 < dq ->
  loop (this s) = true ->
  _playing (this s) = true ->
  _paused (this s) = false ->
  raw_time dt s = Fin raw ->
  0 <= raw ->
  exists t,
    _time (this (_update dt s)) = Fin t /\
    0 <= t <= dq /\
    duration (this (_update dt s)) = Fin dq /\
    fired ev_loop (effects (_update dt s)) =
      (fired ev_loop (effects s) + (if Qltb dq raw then 1 else 0))%nat.
Proof.
  intros Hd Hdpos Hloop Hpl Hpa Hraw Hraw0.
  destruct (update_time_in_range s raw dq dt Hd Hdpos Hpl Hpa Hraw Hraw0)
    as (t & Ht & Ht0).
  exists t. split; [exact Ht|]. split; [exact Ht0|].
  destruct (positive_duration_runs _ _ Hd Hdpos) as (sp & Hsp & Hz).
  split.
  - destruct (update_static dt s) as (S1 & _ & S3 & _).
    rewrite <- Hd. unfold duration. now rewrite S1, S3.
  - rewrite (update_running_effects s sp dt Hz Hpl Hpa Hsp).
    rewrite Hd, Hraw, Hloop, !fired_app, fired_show. unfold gt, lt.
    destruct (Qltb dq raw); reflexivity.
Qed.

Lemma looping_update_in_range_witness :
  exists t,
    _time (this (_update (Fin (5 # 2)) looping_4_at_2)) = Fin t /\
    0 <= t <= 2 /\
    duration (this (_update (Fin (5 # 2)) looping_4_at_2)) = Fin 2 /\
    fired ev_loop (effects (_update (Fin (5 # 2)) looping_4_at_2)) =
      (fired ev_loop (effects looping_4_at_2)
       + (if Qltb 2 (5 # 2) then 1 else 0))%nat.
Proof.
  apply (looping_update_in_range looping_4_at_2 (5 # 2) 2).
  - vm_compute. reflexivity.
  - reflexivity.
  - reflexivity.
  - reflexivity.
  - reflexivity.
  - vm_compute. reflexivity.
  - discriminate.
Defined.

(** C4 as stated fails: on the looping clip of four frames at [fps = 2]
    (duration [2]), playing from time [0], [_update(2)] reaches the duration
    exactly; the time stays at [2], which is not below the duration. *)
Lemma looping_update_reaches_duration :
  loop (this looping_4_at_2) = true /\
  _playing (this looping_4_at_2) = true /\
  _paused (this looping_4_at_2) = false /\
  duration (this looping_4_at_2) = two /\
  le zero two = true /\
  _time (this (_update two looping_4_at_2)) = two /\
  lt (_time (this (_update two looping_4_at_2)))
     (duration (this (_update two looping_4_at_2))) = false.
Proof. vm_compute. repeat split. Qed.

(** The duration is also reached from a raw time below it: with nine
    frames at [fps = 10], the ninth [_update(0.1)] has the raw time
    [0.8999999999999999], below the duration [0.9], derives the frame [9]
    from it and so stores the time [9 / 10], the duration. *)
Lemma looping_update_rounds_to_duration :
  let s0 := state_of (clip_of (Some (sprite_of 9)) (Fin 10) true true false)
              one in
  let s8 := Nat.iter 8 (_update (literal (1 # 10))) s0 in
  let s9 := _update (literal (1 # 10)) s8 in
  lt (raw_time (literal (1 # 10)) s8) (duration (this s8)) = true /\
  _frame (this s9) = Fin 9 /\
  _time (this s9) = duration (this s9) /\
  fired ev_loop (effects s9) = 0%nat.
Proof. vm_compute. repeat split. Qed.

(** And from a raw time beyond it: with nine frames at [fps = 5],
    [_update(9)] wraps the raw time [9] to [9 % 1.8], the Number just below
    the duration [1.8], derives the frame [9] from it and stores the time
    [9 / 5], the duration, having fired [loop] once. *)
Lemma looping_update_wraps_to_duration :
  let s := state_of (clip_of (Some (sprite_of 9)) (Fin 5) true true false)
             one in
  let s' := _update (Fin 9) s in
  gt (raw_time (Fin 9) s) (duration (this s)) = true /\
  lt (wrapped_time (Fin 9) s) (duration (this s)) = true /\
  _frame (this s') = Fin 9 /\
  _time (this s') = duration (this s') /\
  fired ev_loop (effects s') = 1%nat.
Proof. vm_compute. repeat split. Qed.

(** ** Rebinding the sprite asset *)

Lemma set_frame_spriteAsset (v : num) (s : state) :
  _spriteAsset (this (set_frame v s)) = _spriteAsset (this s).
Proof.
  destruct s as [[f0 sp0 sa nm fp lp pl pa tm] [spd act mi] es].
  unfold set_frame; cbn. repeat (case_if; cbn); reflexivity.
Qed.

Lemma set_time_spriteAsset (v : num) (s : state) :
  _spriteAsset (this (set_time v s)) = _spriteAsset (this s).
Proof.
  unfold set_time.
  repeat match goal with
         | |- context [if ?b then _ else _] => destruct b
         | |- context [match ?x with Some _ => _ | None => _ end] =>
             destruct x
         end;
    rewrite set_frame_spriteAsset; reflexivity.
Qed.

Lemma emit_spriteAsset (es : list effect) (s : state) :
  _spriteAsset (this (emit es s)) = _spriteAsset (this s).
Proof. reflexivity. Qed.

Lemma set_sprite_spriteAsset (v : option sprite_t) (s : state) :
  _spriteAsset (this (set_sprite v s)) = _spriteAsset (this s).
Proof.
  unfold set_sprite.
  destruct v as [[r fr [a|]]|]; cbn;
    repeat match goal with
           | |- context [if ?b then _ else _] => destruct b
           | |- context [match ?x with Some _ => _ | None => _ end] =>
               destruct x
           end;
    rewrite ?set_time_spriteAsset, ?set_frame_spriteAsset; reflexivity.
Qed.

Lemma off_keeps (P : listener -> Prop) n h ls :
  Forall P ls -> Forall P (off n h ls).
Proof.
  unfold off. induction 1 as [|l ls Hl _ IH]; cbn; [constructor|].
  destruct (negb (same_listener n h l)); [constructor|]; assumption.
Qed.

Lemma off_all_asset_listeners (ls : list listener) :
  Forall asset_listener ls ->
  off e_remove h_onSpriteAssetRemove
    (off e_change h_onSpriteAssetChange
       (off e_load h_onSpriteAssetLoad ls)) = [].
Proof.
  induction 1 as [|l ls Hl _ IH]; [reflexivity|].
  destruct Hl as [-> | [-> | ->]]; cbn; exact IH.
Qed.

Lemma asset_object_registered (i : Z) (w : world) (a : asset) :
  assets w !! i = Some a -> asset_object i w = Some a.
Proof. unfold asset_object. now intros ->. Qed.

(** [_onSpriteAssetLoad] of an asset object returns, and touches neither
    the assets nor [_spriteAsset]. *)
Lemma onSpriteAssetLoad_object (i : Z) (w : world) (a : asset) :
  asset_object i w = Some a ->
  exists w', _onSpriteAssetLoad i w = Some w' /\
    assets w' = assets w /\
    detached w' = detached w /\
    _spriteAsset (this (st w')) = _spriteAsset (this (st w)) /\
    (Forall registry_listener (registry_listeners w) ->
     Forall registry_listener (registry_listeners w')).
Proof.
  intros H. unfold _onSpriteAssetLoad. rewrite H.
  destruct (resource a) as [res|].
  - destruct (atlas res).
    + eexists. split; [reflexivity|]. cbn.
      rewrite set_sprite_spriteAsset. auto.
    + eexists. split; [reflexivity|]. cbn. repeat split.
      intros HF. unfold once. apply Forall_app. split.
      * now apply off_keeps.
      * constructor; [|constructor]. right. eauto.
  - eexists. split; [reflexivity|]. cbn.
    rewrite set_sprite_spriteAsset. auto.
Qed.

(** [_onSpriteAssetLoad] of a registered asset returns, and touches neither
    the assets nor [_spriteAsset]. *)
Lemma onSpriteAssetLoad_spec (i : Z) (w : world) (a : asset) :
  assets w !! i = Some a ->
  exists w', _onSpriteAssetLoad i w = Some w' /\
    assets w' = assets w /\
    _spriteAsset (this (st w')) = _spriteAsset (this (st w)) /\
    (Forall registry_listener (registry_listeners w) ->
     Forall registry_listener (registry_listeners w')).
Proof.
  intros H. unfold _onSpriteAssetLoad.
  rewrite (asset_object_registered i w a H).
  destruct (resource a) as [res|].
  - destruct (atlas res).
    + eexists. split; [reflexivity|]. cbn.
      rewrite set_sprite_spriteAsset. auto.
    + eexists. split; [reflexivity|]. cbn. repeat split.
      intros HF. unfold once. apply Forall_app. split.
      * now apply off_keeps.
      * constructor; [|constructor]. right. eauto.
  - eexists. split; [reflexivity|]. cbn.
    rewrite set_sprite_spriteAsset. auto.
Qed.

Lemma unlistened_consistent (w : world) :
  unlistened w ->
  Forall registry_listener (registry_listeners w) ->
  consistent w.
Proof.
  intros Hu Hr. split; [|exact Hr].
  intros j a Hj. rewrite (Hu j a Hj). split; [constructor|congruence].
Qed.

Lemma consistent_elsewhere (w : world) (j : Z) (a : asset) :
  consistent w ->
  _spriteAsset (this (st w)) <> Some j ->
  assets w !! j = Some a ->
  listeners a = [].
Proof.
  intros (Hc & _) Hne Hj. destruct (Hc j a Hj) as (_ & H).
  destruct (listeners a); [reflexivity|].
  destruct H as (H & _); [discriminate | contradiction].
Qed.

(** [_bindSpriteAsset] of a registered asset returns, having added its
    three listeners to that asset only. *)
Lemma bindSpriteAsset_spec (i : Z) (w : world) (a : asset) :
  assets w !! i = Some a ->
  exists w', _bindSpriteAsset i w = Some w' /\
    _spriteAsset (this (st w')) = _spriteAsset (this (st w)) /\
    (forall j, j <> i -> assets w' !! j = assets w !! j) /\
    (exists a', assets w' !! i = Some a' /\
       asset_id a' = asset_id a /\
       listeners a' =
         on e_remove h_onSpriteAssetRemove
           (on e_change h_onSpriteAssetChange
              (on e_load h_onSpriteAssetLoad (listeners a)))) /\
    (Forall registry_listener (registry_listeners w) ->
     Forall registry_listener (registry_listeners w')).
Proof.
  intros H. unfold _bindSpriteAsset. rewrite H.
  set (wb := on_asset i _ (on_asset i _ (on_asset i _ w))).
  assert (Hi : exists a', assets wb !! i = Some a' /\
             asset_id a' = asset_id a /\
             listeners a' =
               on e_remove h_onSpriteAssetRemove
                 (on e_change h_onSpriteAssetChange
                    (on e_load h_onSpriteAssetLoad (listeners a)))).
  { subst wb. cbn. rewrite !lookup_alter_eq, H. cbn. eauto. }
  assert (Hj : forall j, j <> i -> assets wb !! j = assets w !! j).
  { intros j Hne. subst wb. cbn. now rewrite !lookup_alter_ne by congruence. }
  destruct (resource a).
  - destruct Hi as (a' & Ha' & Hid & Hl).
    destruct (onSpriteAssetLoad_spec i wb a' Ha') as (w' & -> & E1 & E2 & E3).
    exists w'. split; [reflexivity|]. rewrite E1. repeat split; eauto.
  - eexists. split; [reflexivity|]. cbn. repeat split; eauto.
Qed.

(** What the setter leaves of the old binding: no listener on any asset. *)
Lemma detach_unlistened (w : world) (old : Z) (p : asset) :
  consistent w ->
  _spriteAsset (this (st w)) = Some old ->
  assets w !! old = Some p ->
  unlistened
    (on_asset old (fun prev => with_listeners
       (off e_remove h_onSpriteAssetRemove (listeners prev)) prev)
       (on_asset old (fun prev => with_listeners
          (off e_change h_onSpriteAssetChange (listeners prev)) prev)
          (on_asset old (fun prev => with_listeners
             (off e_load h_onSpriteAssetLoad (listeners prev)) prev) w))).
Proof.
  intros Hc Hcur Hp j a. cbn.
  destruct (decide (j = old)) as [->|Hne].
  - rewrite !lookup_alter_eq, Hp. cbn. intros [= <-]. cbn.
    apply off_all_asset_listeners. now destruct Hc as (Hc & _), (Hc old p Hp).
  - rewrite !lookup_alter_ne by congruence.
    apply consistent_elsewhere; congruence.
Qed.

(** The setter [spriteAsset] returns, stores the id of the assigned value
    and keeps the listeners consistent. *)
Lemma set_spriteAsset_spec (v : asset_ref) (w : world) :
  consistent w ->
  exists w', set_spriteAsset v w = Some w' /\
    consistent w' /\
    _spriteAsset (this (st w')) = id_of v.
Proof.
  intros Hc. unfold set_spriteAsset.
  change (match v with
          | ref_null => None
          | ref_id i => Some i
          | ref_asset a => Some (asset_id a)
          end) with (id_of v).
  destruct (bool_decide (_spriteAsset (this (st w)) = id_of v)) eqn:E.
  { apply bool_decide_eq_true in E. eauto. }
  set (wd := match _spriteAsset (this (st w)) with
             | Some old => _
             | None => w
             end).
  assert (Hd : unlistened wd /\ st wd = st w /\
               registry_listeners wd = registry_listeners w).
  { subst wd. destruct (_spriteAsset (this (st w))) as [old|] eqn:Hcur.
    - destruct (id_truthy (Some old)) eqn:Ht.
      + destruct (assets w !! old) as [p|] eqn:Hp.
        * split; [|split; reflexivity].
          now apply (detach_unlistened w old p Hc).
        * split; [|split; reflexivity]. intros j a Hj.
          apply (consistent_elsewhere w j a Hc); congruence.
      + split; [|split; reflexivity]. intros j a Hj.
        destruct Hc as (Hc & _). destruct (Hc j a Hj) as (_ & H).
        destruct (listeners a); [reflexivity|].
        destruct H as (H1 & H2); [discriminate|].
        rewrite Hcur in H1. injection H1 as ->.
        cbn in Ht. apply negb_false_iff, Z.eqb_eq in Ht. contradiction.
    - split; [|split; reflexivity]. intros j a Hj.
      apply (consistent_elsewhere w j a Hc); congruence. }
  destruct Hd as (Hu & Hst & Hreg).
  assert (Hr : Forall registry_listener (registry_listeners wd)).
  { rewrite Hreg. apply Hc. }
  clearbody wd. cbn.
  destruct (id_of v) as [i|]; cbn.
  - destruct (negb (i =? 0)%Z) eqn:Ht.
    + destruct (assets wd !! i) as [a|] eqn:Ha.
      * destruct (bindSpriteAsset_spec i
                    (on_state (on_this (with_spriteAsset (Some i))) wd) a Ha)
          as (w' & -> & E1 & E2 & (a' & Ha' & _ & Hl) & E4).
        exists w'. split; [reflexivity|]. split; [|exact E1].
        split; [|now apply E4].
        intros j b Hj. destruct (decide (j = i)) as [->|Hne].
        -- rewrite Ha' in Hj. injection Hj as <-. rewrite Hl, (Hu i a Ha).
           split.
           ++ unfold on. cbn.
              repeat (constructor; [unfold asset_listener; auto|]).
              constructor.
           ++ intros _. rewrite E1. split; [reflexivity|].
              apply negb_true_iff, Z.eqb_neq in Ht. exact Ht.
        -- rewrite (E2 j Hne) in Hj. cbn in Hj. rewrite (Hu j b Hj).
           split; [constructor|congruence].
      * eexists. split; [reflexivity|]. split.
        -- apply unlistened_consistent; [exact Hu|]. cbn.
           unfold on. apply Forall_app. split; [exact Hr|].
           constructor; [|constructor]. left. exists i.
           split; [|reflexivity].
           apply negb_true_iff, Z.eqb_neq in Ht. exact Ht.
        -- cbn. now rewrite set_sprite_spriteAsset.
    + eexists. split; [reflexivity|]. split.
      * apply unlistened_consistent; [exact Hu | exact Hr].
      * cbn. now rewrite set_sprite_spriteAsset.
  - eexists. split; [reflexivity|]. split.
    + apply unlistened_consistent; [exact Hu | exact Hr].
    + cbn. now rewrite set_sprite_spriteAsset.
Qed.

Lemma asset_object_on_asset (i : Z) (f : asset -> asset) (w : world) :
  asset_object i (on_asset i f w) = f <$> asset_object i w.
Proof.
  unfold asset_object, on_asset. cbn. rewrite lookup_alter_eq.
  destruct (assets w !! i); cbn; [reflexivity|].
  now rewrite lookup_alter_eq.
Qed.

(** A load completion of an asset on which the clip does not listen
    reaches no handler. *)
Lemma asset_loaded_unheard (A : Z) (res : sprite_t) (w : world) :
  (forall a, asset_object A w = Some a -> listeners a = []) ->
  exists w', asset_loaded A res w = Some w' /\
    st w' = st w /\
    registry_listeners w' = registry_listeners w.
Proof.
  intros Hu. unfold asset_loaded, asset_fire.
  rewrite asset_object_on_asset.
  destruct (asset_object A w) as [a|] eqn:Ha; cbn.
  - rewrite (Hu a eq_refl). cbn. eauto.
  - eauto.
Qed.

Lemma named_added (i : Z) (ls : list listener) :
  Forall registry_listener ls ->
  Forall (fun l => l_handler l = h_onSpriteAssetAdded) (named (e_add i) ls).
Proof.
  unfold named. induction 1 as [|l ls Hl _ IH]; cbn; [constructor|].
  destruct (bool_decide (l_name l = e_add i)) eqn:E; [|exact IH].
  constructor; [|exact IH].
  apply bool_decide_eq_true in E.
  destruct Hl as [(j & _ & ->)|(j & ->)]; [reflexivity | discriminate].
Qed.

(** The add handlers of an asset that is not the clip's current sprite
    asset leave the clip and the assets as they are. *)
Lemma call_all_added_stale (A : Z) (ls : list listener) :
  Forall (fun l => l_handler l = h_onSpriteAssetAdded) ls ->
  forall (w : world) (a : asset),
    assets w !! A = Some a ->
    asset_id a = A ->
    _spriteAsset (this (st w)) <> Some A ->
    exists w', call_all ls A w = Some w' /\
      st w' = st w /\ assets w' = assets w.
Proof.
  induction 1 as [|l ls Hl _ IH]; intros w a Ha Hid Hne; cbn; [eauto|].
  rewrite Hl. cbn. unfold _onSpriteAssetAdded. rewrite Ha. cbn.
  rewrite Hid. rewrite bool_decide_eq_false_2 by exact Hne.
  destruct (IH (on_registry (off (e_add A) h_onSpriteAssetAdded) w) a
              Ha Hid Hne) as (w' & -> & E1 & E2).
  eauto.
Qed.

Lemma assets_add_stale (a : asset) (w : world) :
  Forall registry_listener (registry_listeners w) ->
  _spriteAsset (this (st w)) <> Some (asset_id a) ->
  exists w', assets_add a w = Some w' /\
    st w' = st w /\
    assets w' = <[asset_id a := with_listeners [] a]> (assets w).
Proof.
  intros Hr Hne. unfold assets_add, registry_fire. cbn.
  eapply call_all_added_stale.
  - now apply named_added.
  - cbn. apply lookup_insert_eq.
  - reflexivity.
  - exact Hne.
Qed.

Lemma onSpriteAssetLoad_detached (i : Z) (w w' : world) :
  _onSpriteAssetLoad i w = Some w' -> detached w' = detached w.
Proof.
  unfold _onSpriteAssetLoad.
  destruct (asset_object i w) as [a|]; [|discriminate].
  destruct (resource a) as [res|]; [destruct (atlas res)|];
    intros [= <-]; reflexivity.
Qed.

Lemma bindSpriteAsset_detached (i : Z) (w w' : world) :
  _bindSpriteAsset i w = Some w' -> detached w' = detached w.
Proof.
  unfold _bindSpriteAsset.
  destruct (assets w !! i) as [a|] eqn:Ha; [|discriminate].
  destruct (resource a); intros H.
  - apply onSpriteAssetLoad_detached in H. rewrite H. cbn.
    now rewrite !lookup_alter_eq, Ha.
  - injection H as <-. cbn. now rewrite !lookup_alter_eq, Ha.
Qed.

(** The setter [spriteAsset] touches no asset that has left the
    registry. *)
Lemma set_spriteAsset_detached (v : asset_ref) (w w' : world) :
  set_spriteAsset v w = Some w' -> detached w' = detached w.
Proof.
  unfold set_spriteAsset.
  destruct (bool_decide _); [now intros [= <-]|].
  set (wd := match _spriteAsset (this (st w)) with
             | Some old => _
             | None => w
             end).
  assert (Hd : detached wd = detached w).
  { subst wd. destruct (_spriteAsset (this (st w))) as [old|]; [|reflexivity].
    destruct (id_truthy (Some old)); [|reflexivity].
    destruct (assets w !! old) eqn:Ho; [|reflexivity].
    cbn. now rewrite !lookup_alter_eq, Ho. }
  clearbody wd. cbn.
  destruct (match v with
            | ref_null => None
            | ref_id i => Some i
            | ref_asset a => Some (asset_id a)
            end) as [i|]; cbn.
  - destruct (negb (i =? 0)%Z).
    + destruct (assets wd !! i) eqn:Hi.
      * intros H. apply bindSpriteAsset_detached in H. now rewrite H.
      * intros [= <-]. exact Hd.
    + intros [= <-]. exact Hd.
  - intros [= <-]. exact Hd.
Qed.

(** X25: Rebinding while the first asset stays in the registry or was never
    in it: on consistent listeners, none of them on an asset that has left
    the registry, assigning [spriteAsset] the id [A] and then a value of
    another id returns both times and leaves no listener of the clip on the
    asset [A]; a load completion of [A] then reaches no handler and leaves
    the clip, its sprite included, as it is; and when [A] is registered
    only then, the add handler finds another id in [_spriteAsset], binds
    nothing, and a load completion of [A] again leaves the clip as it
    is. *)
Theorem stale_load_never_binds (w0 : world) (A : Z) (vB : asset_ref) :
  consistent w0 ->
  clean w0 ->
  id_of vB <> Some A ->
  exists w1 w2,
    set_spriteAsset (ref_id A) w0 = Some w1 /\
    set_spriteAsset vB w1 = Some w2 /\
    _spriteAsset (this (st w2)) = id_of vB /\
    (forall a, asset_object A w2 = Some a -> listeners a = []) /\
    (forall res, exists w3,
       asset_loaded A res w2 = Some w3 /\ st w3 = st w2) /\
    (forall a res, asset_id a = A -> exists w3 w4,
       assets_add a w2 = Some w3 /\ st w3 = st w2 /\
       (forall a', assets w3 !! A = Some a' -> listeners a' = []) /\
       asset_loaded A res w3 = Some w4 /\ st w4 = st w2).
Proof.
  intros Hc Hcl Hne.
  destruct (set_spriteAsset_spec (ref_id A) w0 Hc) as (w1 & H1 & Hc1 & _).
  destruct (set_spriteAsset_spec vB w1 Hc1) as (w2 & H2 & Hc2 & Hid).
  exists w1, w2.
  assert (Hcur : _spriteAsset (this (st w2)) <> Some A) by congruence.
  assert (Hu : forall a, asset_object A w2 = Some a -> listeners a = []).
  { intros a. unfold asset_object.
    destruct (assets w2 !! A) as [b|] eqn:Hb.
    - intros [= <-]. now apply (consistent_elsewhere w2 A b).
    - rewrite (set_spriteAsset_detached _ _ _ H2),
        (set_spriteAsset_detached _ _ _ H1).
      apply Hcl. }
  repeat (split; [assumption|]). split.
  - intros res.
    destruct (asset_loaded_unheard A res w2 Hu) as (w3 & E & E1 & _). eauto.
  - intros a res <-.
    destruct (assets_add_stale a w2 (proj2 Hc2) Hcur) as (w3 & E & E1 & E2).
    assert (Hu3 : forall a', assets w3 !! asset_id a = Some a' ->
                             listeners a' = []).
    { intros a'. rewrite E2, lookup_insert_eq. now intros [= <-]. }
    assert (Hu3' : forall a', asset_object (asset_id a) w3 = Some a' ->
                              listeners a' = []).
    { intros a'. unfold asset_object. rewrite E2, lookup_insert_eq.
      now intros [= <-]. }
    destruct (asset_loaded_unheard (asset_id a) res w3 Hu3')
      as (w4 & E' & E1' & _).
    exists w3, w4. repeat split; try assumption. congruence.
Qed.

Lemma fresh_world_consistent : consistent fresh_world.
Proof.
  apply unlistened_consistent; [|constructor].
  intros j a H. cbn in H. apply lookup_singleton_Some in H as (_ & <-).
  reflexivity.
Qed.

Lemma stale_load_never_binds_witness :
  exists w1 w2,
    set_spriteAsset (ref_id 7) fresh_world = Some w1 /\
    set_spriteAsset (ref_id 8) w1 = Some w2 /\
    _spriteAsset (this (st w2)) = Some 8%Z /\
    (forall a, asset_object 7%Z w2 = Some a -> listeners a = []) /\
    (forall res, exists w3,
       asset_loaded 7 res w2 = Some w3 /\ st w3 = st w2) /\
    (forall a res, asset_id a = 7%Z -> exists w3 w4,
       assets_add a w2 = Some w3 /\ st w3 = st w2 /\
       (forall a', assets w3 !! 7%Z = Some a' -> listeners a' = []) /\
       asset_loaded 7 res w3 = Some w4 /\ st w4 = st w2).
Proof.
  apply (stale_load_never_binds fresh_world 7 (ref_id 8)).
  - exact fresh_world_consistent.
  - intros j a H. cbn in H. now rewrite lookup_empty in H.
  - discriminate.
Defined.

Lemma fresh_world_reachable : reachable fresh_world.
Proof.
  apply (reachable_new walk_component {[ 7%Z := asset_7 ]} ref_null
           "walk" two false).
  - intros j a H. apply lookup_singleton_Some in H as (_ & <-). reflexivity.
  - vm_compute. reflexivity.
Qed.

(** A bind, the removal of the bound asset, a rebind and a load completion
    are steps of a clip in its application. *)
Lemma removal_run_reachable (w0 w1 w2 w3 w4 : world) (A : Z) (vB : asset_ref)
    (res : sprite_t) :
  reachable w0 ->
  set_spriteAsset (ref_id A) w0 = Some w1 ->
  assets_remove A w1 = Some w2 ->
  set_spriteAsset vB w2 = Some w3 ->
  asset_loaded A res w3 = Some w4 ->
  reachable w4.
Proof.
  intros H0 H1 H2 H3 H4.
  apply (reachable_step w3); [|exact (step_loaded A res w3 w4 H4)].
  apply (reachable_step w2); [|exact (step_spriteAsset vB w2 w3 H3)].
  apply (reachable_step w1); [|exact (step_remove A w1 w2 H2)].
  apply (reachable_step w0); [exact H0|].
  exact (step_spriteAsset (ref_id A) w0 w1 H1).
Qed.

(** C9 at a clip constructed unbound in an application whose asset [7] is
    registered and not loaded.  [spriteAsset = 7] binds the asset and
    requests its load; [assets.remove] takes the asset out of the registry
    while the clip listens on it; [spriteAsset = 8] finds no asset under
    the old id ([prev] is [null]), so it detaches nothing, and clears the
    sprite; when the load of the asset [7] completes, [_onSpriteAssetLoad]
    is called and makes its resource the sprite of the clip, whose
    [_spriteAsset] is [8].  The run is one of the runs of a clip in its
    application. *)
Theorem stale_load_binds_removed_asset :
  exists w1 w2 w3 w4 : world,
    set_spriteAsset (ref_id 7) fresh_world = Some w1 /\
    load_requests w1 = [7%Z] /\
    assets_remove 7 w1 = Some w2 /\
    assets w2 !! 7%Z = None /\
    set_spriteAsset (ref_id 8) w2 = Some w3 /\
    _spriteAsset (this (st w3)) = Some 8%Z /\
    _sprite (this (st w3)) = None /\
    asset_loaded 7 sprite_with_atlas w3 = Some w4 /\
    _spriteAsset (this (st w4)) = Some 8%Z /\
    _sprite (this (st w4)) = Some sprite_with_atlas /\
    reachable w4.
Proof.
  do 4 eexists.
  split; [vm_compute; reflexivity|].
  split; [vm_compute; reflexivity|].
  split; [vm_compute; reflexivity|].
  split; [vm_compute; reflexivity|].
  split; [vm_compute; reflexivity|].
  split; [vm_compute; reflexivity|].
  split; [vm_compute; reflexivity|].
  split; [vm_compute; reflexivity|].
  split; [vm_compute; reflexivity|].
  split; [vm_compute; reflexivity|].
  eapply (removal_run_reachable fresh_world _ _ _ _ 7 (ref_id 8)
            sprite_with_atlas);
    [exact fresh_world_reachable | vm_compute; reflexivity ..].
Qed.

(** Consistency is about the listeners and [_spriteAsset] only: it is kept
    by whatever changes the rest of the clip. *)
Lemma consistent_on_state (f : state -> state) (w : world) :
  _spriteAsset (this (f (st w))) = _spriteAsset (this (st w)) ->
  consistent w -> consistent (on_state f w).
Proof.
  intros E (Hc & Hr). split; [|exact Hr].
  intros j a Hj. cbn. rewrite E. now apply Hc.
Qed.

(** A clip constructed in an application on whose assets it does not
    listen yet has consistent listeners. *)
Lemma SpriteAnimationClip_consistent (component : component_t)
    (registered : gmap Z asset) (v : asset_ref) (nm : string) (f : num)
    (lp : bool) :
  (forall j a, registered !! j = Some a -> listeners a = []) ->
  exists w, SpriteAnimationClip component registered v nm f lp = Some w /\
            consistent w.
Proof.
  intros Hu. unfold SpriteAnimationClip.
  match goal with
  | |- context [set_spriteAsset v ?w0] =>
      destruct (set_spriteAsset_spec v w0) as (w & -> & Hc & _)
  end.
  { apply unlistened_consistent; [exact Hu | constructor]. }
  eexists. split; [reflexivity|].
  apply consistent_on_state; [reflexivity | exact Hc].
Qed.

(** ** Consistency in every reachable world *)

Lemma perform_spriteAsset (o : operation) (s : state) :
  _spriteAsset (this (perform o s)) = _spriteAsset (this s).
Proof.
  destruct o; cbn.
  - apply set_frame_spriteAsset.
  - apply set_time_spriteAsset.
  - unfold play. case_if; [reflexivity|]. cbn.
    now rewrite set_frame_spriteAsset.
  - unfold pause. case_if; reflexivity.
  - unfold resume. case_if; reflexivity.
  - unfold stop. case_if; [reflexivity|]. cbn.
    now rewrite set_frame_spriteAsset.
Qed.

Lemma update_spriteAsset (dt : num) (s : state) :
  _spriteAsset (this (_update dt s)) = _spriteAsset (this s).
Proof.
  destruct s as [[f0 sp0 sa nm fp lp pl pa tm] [spd act mi] es].
  unfold _update, set_frame; cbn.
  repeat (case_if; cbn); reflexivity.
Qed.

Lemma onSpriteAssetLoad_consistent (i j : Z) (w w' : world) :
  consistent w ->
  _onSpriteAssetLoad i w = Some w' ->
  consistent w' /\ (keyed j w -> keyed j w').
Proof.
  intros Hc H.
  destruct (asset_object i w) as [a|] eqn:Ha;
    [|unfold _onSpriteAssetLoad in H; rewrite Ha in H; discriminate].
  destruct (onSpriteAssetLoad_object i w a Ha) as (w1 & E & E1 & _ & E2 & E3).
  rewrite E in H. injection H as <-.
  split.
  - split; [|apply E3, Hc]. intros k b. rewrite E1, E2. apply Hc.
  - unfold keyed. now rewrite E1.
Qed.

Lemma call_consistent (h : handler) (arg : Z) (w w' : world) :
  consistent w ->
  (h = h_onSpriteAssetAdded -> arg <> 0%Z /\ keyed arg w) ->
  call h arg w = Some w' ->
  consistent w' /\ (keyed arg w -> keyed arg w').
Proof.
  intros Hc Hadd H. destruct h; cbn in H.
  - (* _onSpriteAssetAdded *)
    destruct (Hadd eq_refl) as (Hne & Hk).
    unfold _onSpriteAssetAdded in H.
    destruct (assets w !! arg) as [a|] eqn:Ha; [|discriminate].
    set (w1 := on_registry (off (e_add (asset_id a)) h_onSpriteAssetAdded) w)
      in H.
    assert (Hc1 : consistent w1).
    { split; [apply Hc|]. cbn. apply off_keeps, Hc. }
    destruct (bool_decide (_spriteAsset (this (st w1)) = Some (asset_id a)))
      eqn:E.
    + apply bool_decide_eq_true in E. rewrite (Hk a Ha) in E.
      destruct (bindSpriteAsset_spec arg w1 a Ha)
        as (w2 & E0 & E1 & E2 & (a' & Ha' & Hid & Hl) & E4).
      rewrite E0 in H. injection H as <-. split.
      * split; [|apply E4, Hc1].
        intros k b Hb. destruct (decide (k = arg)) as [->|Hk'].
        -- rewrite Ha' in Hb. injection Hb as <-. rewrite Hl, E1. split.
           ++ unfold on. rewrite !Forall_app. repeat split.
              ** now destruct Hc as (Hc & _), (Hc arg a Ha).
              ** constructor; [unfold asset_listener; auto|constructor].
              ** constructor; [unfold asset_listener; auto|constructor].
              ** constructor; [unfold asset_listener; auto|constructor].
           ++ intros _. split; assumption.
        -- rewrite (E2 k Hk') in Hb. rewrite E1. now apply Hc1.
      * intros _ b Hb. rewrite Ha' in Hb. injection Hb as <-.
        rewrite Hid. now apply Hk.
    + injection H as <-. split; [exact Hc1 | auto].
  - exact (onSpriteAssetLoad_consistent arg arg w w' Hc H).
  - exact (onSpriteAssetLoad_consistent arg arg w w' Hc H).
  - unfold _onSpriteAssetRemove in H. injection H as <-. auto.
  - unfold _onTextureAtlasLoad in H.
    destruct (_spriteAsset (this (st w))) as [z|]; [|discriminate].
    destruct (assets w !! z); [|discriminate].
    exact (onSpriteAssetLoad_consistent z arg w w' Hc H).
Qed.

(** No handler of the clip touches an asset that has left the registry. *)
Lemma call_detached (h : handler) (arg : Z) (w w' : world) :
  call h arg w = Some w' -> detached w' = detached w.
Proof.
  destruct h; cbn.
  - unfold _onSpriteAssetAdded.
    destruct (assets w !! arg) as [a|]; [|discriminate].
    destruct (bool_decide _).
    + intros H. now apply bindSpriteAsset_detached in H.
    + now intros [= <-].
  - apply onSpriteAssetLoad_detached.
  - apply onSpriteAssetLoad_detached.
  - unfold _onSpriteAssetRemove. now intros [= <-].
  - unfold _onTextureAtlasLoad.
    destruct (_spriteAsset (this (st w))) as [z|]; [|discriminate].
    destruct (assets w !! z); [|discriminate].
    apply onSpriteAssetLoad_detached.
Qed.

Lemma call_all_detached (arg : Z) (ls : list listener) :
  forall w w', call_all ls arg w = Some w' -> detached w' = detached w.
Proof.
  induction ls as [|l ls IH]; intros w w' H; cbn in H.
  - now injection H as <-.
  - destruct (call (l_handler l) arg w) as [w1|] eqn:E; [|discriminate].
    rewrite (IH w1 w' H). now apply call_detached in E.
Qed.

Lemma call_all_consistent (arg : Z) (ls : list listener) :
  forall w w',
    consistent w ->
    (Exists (fun l => l_handler l = h_onSpriteAssetAdded) ls ->
     arg <> 0%Z /\ keyed arg w) ->
    call_all ls arg w = Some w' ->
    consistent w'.
Proof.
  induction ls as [|l ls IH]; intros w w' Hc Hadd H; cbn in H.
  - now injection H as <-.
  - destruct (call (l_handler l) arg w) as [w1|] eqn:E; [|discriminate].
    destruct (call_consistent (l_handler l) arg w w1 Hc) as (Hc1 & Hk1);
      [|exact E|].
    { intros Hl. apply Hadd. now left. }
    apply (IH w1 w' Hc1); [|exact H].
    intros Hex. destruct Hadd as (Hne & Hk); [now right|]. auto.
Qed.

Lemma spend_keeps (P : listener -> Prop) n ls :
  Forall P ls -> Forall P (spend n ls).
Proof.
  unfold spend. induction 1 as [|l ls Hl _ IH]; cbn; [constructor|].
  destruct (negb _); [constructor|]; assumption.
Qed.

Lemma spend_nonempty n ls : spend n ls <> [] -> ls <> [].
Proof. now destruct ls. Qed.

(** Changing an asset without adding a listener to it keeps the listeners
    consistent. *)
Lemma on_asset_consistent (i : Z) (g : asset -> asset) (w : world) :
  (forall a, Forall asset_listener (listeners a) ->
             Forall asset_listener (listeners (g a))) ->
  (forall a, listeners (g a) <> [] -> listeners a <> []) ->
  consistent w -> consistent (on_asset i g w).
Proof.
  intros Hg1 Hg2 (Hc & Hr). split; [|exact Hr].
  intros k b. cbn. destruct (decide (k = i)) as [->|Hne].
  - rewrite lookup_alter_eq.
    destruct (assets w !! i) as [a|] eqn:Ha; cbn; [|discriminate].
    intros [= <-]. destruct (Hc i a Ha) as (H1 & H2). auto.
  - rewrite lookup_alter_ne by congruence. apply Hc.
Qed.

(** The listeners of an asset object, in the registry or not, are those
    [_bindSpriteAsset] makes. *)
Lemma asset_object_listeners (i : Z) (w : world) (a : asset) :
  consistent w -> tidy w -> asset_object i w = Some a ->
  Forall asset_listener (listeners a).
Proof.
  intros (Hc & _) Ht. unfold asset_object.
  destruct (assets w !! i) as [b|] eqn:Hb.
  - intros [= <-]. now destruct (Hc i b Hb).
  - apply Ht.
Qed.

Lemma on_asset_tidy (i : Z) (g : asset -> asset) (w : world) :
  (forall a, Forall asset_listener (listeners a) ->
             Forall asset_listener (listeners (g a))) ->
  tidy w -> tidy (on_asset i g w).
Proof.
  intros Hg Ht k b. cbn.
  destruct (assets w !! i); [apply Ht|].
  destruct (decide (k = i)) as [->|Hne].
  - rewrite lookup_alter_eq.
    destruct (detached w !! i) as [a|] eqn:Ha; cbn; [|discriminate].
    intros [= <-]. apply Hg. now apply (Ht i a).
  - rewrite lookup_alter_ne by congruence. apply Ht.
Qed.

Lemma asset_fire_consistent (i : Z) (n : ename) (w w' : world) :
  consistent w -> tidy w -> asset_fire i n w = Some w' ->
  consistent w' /\ tidy w'.
Proof.
  intros Hc Ht H. unfold asset_fire in H.
  destruct (asset_object i w) as [a|] eqn:Ha; [|now injection H as <-].
  assert (Ht1 : tidy (on_asset i (fun a0 => with_listeners
                        (spend n (listeners a0)) a0) w)).
  { apply on_asset_tidy; [|exact Ht]. intros b. cbn. apply spend_keeps. }
  split.
  - eapply call_all_consistent; [| |exact H].
    + apply on_asset_consistent; [| |exact Hc]; intros b; cbn.
      * apply spend_keeps.
      * apply spend_nonempty.
    + intros Hex. exfalso. apply Exists_exists in Hex as (l & Hin & Hl).
      unfold named in Hin.
      apply list_elem_of_In, List.filter_In in Hin as (Hin & _).
      pose proof (asset_object_listeners i w a Hc Ht Ha) as HF.
      rewrite Forall_forall in HF.
      assert (Hal : asset_listener l) by (apply HF; now apply list_elem_of_In).
      destruct Hal as [E|[E|E]]; rewrite E in Hl; discriminate.
  - intros k b. rewrite (call_all_detached _ _ _ _ H). apply Ht1.
Qed.

(** Every step keeps the listeners consistent, and those on the assets
    that have left the registry of the kinds [_bindSpriteAsset] makes. *)
Lemma step_consistent (w w' : world) :
  consistent w -> tidy w -> step w w' -> consistent w' /\ tidy w'.
Proof.
  intros Hc Ht Hs. destruct Hs as
    [v w w' H | o w | dt w | w | a w w' Hnew H | i res w w' H
    | i n w w' H | i w w' H | i w w' H].
  - destruct (set_spriteAsset_spec v w Hc) as (w1 & E & Hc1 & _).
    split; [congruence|].
    intros k b. rewrite (set_spriteAsset_detached v w w' H). apply Ht.
  - split; [|exact Ht].
    apply consistent_on_state; [apply perform_spriteAsset | exact Hc].
  - split; [|exact Ht].
    apply consistent_on_state; [apply update_spriteAsset | exact Hc].
  - split; [|exact Ht]. apply consistent_on_state; [|exact Hc].
    unfold _onSpriteMeshesChange. now case_if.
  - unfold assets_add, registry_fire in H. cbn in H. split.
    + eapply call_all_consistent; [| |exact H].
      * split; [|cbn; apply spend_keeps, Hc].
        intros k b. cbn. destruct (decide (k = asset_id a)) as [->|Hne].
        -- rewrite lookup_insert_eq. intros [= <-]. cbn.
           split; [constructor|congruence].
        -- rewrite lookup_insert_ne by congruence. apply Hc.
      * intros Hex. apply Exists_exists in Hex as (l & Hin & Hl).
        unfold named in Hin.
        apply list_elem_of_In, List.filter_In in Hin as (Hin & Hn).
        apply bool_decide_eq_true in Hn.
        destruct Hc as (_ & Hr). rewrite Forall_forall in Hr.
        destruct (Hr l) as [(j & Hj & ->)|(j & ->)];
          [now apply list_elem_of_In | | discriminate].
        cbn in Hn. injection Hn as ->. split; [exact Hj|].
        intros b. cbn. rewrite lookup_insert_eq. now intros [= <-].
    + intros k b. rewrite (call_all_detached _ _ _ _ H). apply Ht.
  - unfold asset_loaded in H.
    eapply asset_fire_consistent; [| |exact H].
    + now apply on_asset_consistent.
    + now apply on_asset_tidy.
  - eapply asset_fire_consistent; eassumption.
  - unfold registry_fire in H. split.
    + eapply call_all_consistent; [| |exact H].
      * split; [apply Hc|]. cbn. apply spend_keeps, Hc.
      * intros Hex. exfalso. apply Exists_exists in Hex as (l & Hin & Hl).
        unfold named in Hin.
        apply list_elem_of_In, List.filter_In in Hin as (Hin & Hn).
        apply bool_decide_eq_true in Hn.
        destruct Hc as (_ & Hr). rewrite Forall_forall in Hr.
        destruct (Hr l) as [(j & Hj & ->)|(j & ->)];
          [now apply list_elem_of_In | discriminate | discriminate].
    + intros k b. rewrite (call_all_detached _ _ _ _ H). apply Ht.
  - unfold assets_remove in H.
    destruct (assets w !! i) as [a|] eqn:Ha; [|injection H as <-; auto].
    eapply asset_fire_consistent; [| |exact H].
    + destruct Hc as (Hc & Hr). split; [|exact Hr].
      intros k b. cbn. intros Hk.
      apply lookup_delete_Some in Hk as (_ & Hk). now apply Hc.
    + intros k b. cbn. destruct (decide (k = i)) as [->|Hne].
      * rewrite lookup_insert_eq. intros [= <-].
        now destruct Hc as (Hc & _), (Hc i a Ha).
      * rewrite lookup_insert_ne by congruence. apply Ht.
Qed.

(** Every world a clip can be in has consistent listeners. *)
Lemma reachable_sound (w : world) : reachable w -> consistent w /\ tidy w.
Proof.
  induction 1 as [component registered v nm f lp w Hu H | w w' _ IH Hs].
  - destruct (SpriteAnimationClip_consistent component registered v nm f lp Hu)
      as (w1 & E & Hc).
    split; [congruence|].
    unfold SpriteAnimationClip in H.
    match type of H with
    | match set_spriteAsset v ?w0 with _ => _ end = _ =>
        destruct (set_spriteAsset v w0) as [w2|] eqn:E2; [|discriminate];
        apply set_spriteAsset_detached in E2
    end.
    injection H as <-. intros k b. cbn. rewrite E2. cbn.
    now rewrite lookup_empty.
  - destruct IH as (Hc & Ht). exact (step_consistent w w' Hc Ht Hs).
Qed.

Lemma reachable_consistent (w : world) : reachable w -> consistent w.
Proof. intros H. now apply reachable_sound. Qed.

(** ** The playback flags, further *)

(** X1: Pausing a playing clip and resuming it leaves the clip and its
    component as they were, and fires [pause] and then [resume]. *)
Theorem pause_resume_restores (s : state) :
  _playing (this s) = true ->
  _paused (this s) = false ->
  this (resume (pause s)) = this s /\
  component (resume (pause s)) = component s /\
  effects (resume (pause s)) =
    effects s ++ [Fire ev_pause; ComponentFire ev_pause;
                  Fire ev_resume; ComponentFire ev_resume].
Proof.
  destruct s as [[f0 sp0 sa nm fp lp pl pa tm] cp es]. cbn.
  intros -> ->. unfold pause, resume. cbn.
  repeat split. now rewrite <- app_assoc.
Qed.

Lemma pause_resume_restores_witness :
  this (resume (pause looping_4_at_2)) = this looping_4_at_2 /\
  component (resume (pause looping_4_at_2)) = component looping_4_at_2 /\
  effects (resume (pause looping_4_at_2)) =
    effects looping_4_at_2 ++ [Fire ev_pause; ComponentFire ev_pause;
                               Fire ev_resume; ComponentFire ev_resume].
Proof. apply (pause_resume_restores looping_4_at_2); reflexivity. Defined.

(** X2: A second [play], [pause], [resume] or [stop] in a row does nothing: no
    event is fired twice and no frame is shown again. *)
Theorem flag_operations_idempotent (s : state) :
  play (play s) = play s /\
  pause (pause s) = pause s /\
  resume (resume s) = resume s /\
  stop (stop s) = stop s.
Proof.
  repeat split.
  - unfold play at 2 3. destruct (_playing (this s)) eqn:E.
    + unfold play. now rewrite E.
    + unfold play at 1. cbn.
      destruct (set_frame_flags zero
        (on_this (with_paused false) (on_this (with_playing true) s)))
        as (-> & _).
      reflexivity.
  - unfold pause at 2 3.
    destruct (negb (_playing (this s)) || _paused (this s)) eqn:E.
    + unfold pause. now rewrite E.
    + unfold pause. cbn. now rewrite orb_true_r.
  - unfold resume at 2 3. destruct (negb (_paused (this s))) eqn:E.
    + unfold resume. now rewrite E.
    + reflexivity.
  - unfold stop at 2 3. destruct (negb (_playing (this s))) eqn:E.
    + unfold stop. now rewrite E.
    + unfold stop at 1. cbn.
      destruct (set_frame_flags zero
        (on_this (with_time zero) (on_this (with_paused false)
           (on_this (with_playing false) s))))
        as (-> & _).
      reflexivity.
Qed.

(** ** Rewinding *)

Lemma round_zero (q : Q) : q == 0 -> round q = zero.
Proof.
  intros H. rewrite JSFacts.round_in_range.
  - unfold zero. f_equal. now apply JSFacts.nearest_zero.
  - rewrite H. reflexivity.
Qed.

Lemma div_zero_by (x : num) : truthy x = true -> div zero x = zero.
Proof.
  destruct x as [|b|q]; unfold truthy, div, zero; try discriminate.
  - reflexivity.
  - intros H. apply negb_true_iff in H. rewrite H.
    apply round_zero. apply JSFacts.is_zero_false in H. field. exact H.
Qed.

Lemma or_else_MIN_VALUE_truthy (x : num) :
  truthy (or_else x MIN_VALUE) = true.
Proof.
  unfold or_else. destruct (truthy x) eqn:E; [exact E|].
  vm_compute. reflexivity.
Qed.

(** The quotient of a number that is not negative by a divisor that is not
    negative is [0] whenever it is at most [0]. *)
Lemma div_nonneg_le_zero (n : Q) (x : num) :
  0 <= n ->
  truthy x = true ->
  lt x zero = false ->
  le (div (Fin n) x) zero = true ->
  div (Fin n) x = zero.
Proof.
  intros Hn Ht Hx.
  destruct x as [|b|q]; unfold truthy, lt, zero in *; try discriminate.
  - intros _. reflexivity.
  - apply negb_true_iff in Ht. apply JSFacts.is_zero_false in Ht.
    apply JSFacts.Qltb_ge in Hx.
    assert (Hq : 0 < q).
    { apply Qle_lteq in Hx as [Hx|Hx]; [exact Hx|].
      exfalso. apply Ht. now symmetry. }
    rewrite div_Fin by exact Ht.
    assert (H0 : 0 <= n / q) by (apply Qle_shift_div_l; lra).
    destruct (round (n / q)) as [|b|r] eqn:E; try discriminate.
    + destruct (round_nonneg _ H0) as [H|(r & H & _)];
        rewrite H in E; [|discriminate].
      injection E as <-. discriminate.
    + intros H. apply le_Fin in H.
      destruct (round_nonneg _ H0) as [H'|(r' & H' & Hr)];
        rewrite H' in E; [discriminate|].
      injection E as ->. unfold zero. f_equal.
      apply (round_canonical _ _ H'). lra.
Qed.

Lemma set_frame_zero_time (s : state) :
  lt (fps (this s)) zero = false ->
  _time (this (set_frame zero s)) = zero.
Proof.
  intros Hfps.
  destruct (_sprite (this s)) as [sp|] eqn:Hsp.
  - destruct (set_frame_bound zero s sp Hsp) as (_ & ->).
    unfold time_at. rewrite clamp_zero_to_count.
    rewrite div_zero_by by apply or_else_MIN_VALUE_truthy.
    unfold clamp, ge, duration. rewrite Hsp.
    destruct (frame_count_nonneg sp) as (n & -> & Hn).
    set (x := or_else (fps (this s)) MIN_VALUE).
    assert (Hx : lt x zero = false).
    { subst x. unfold or_else. destruct (truthy (fps (this s)));
        [exact Hfps | vm_compute; reflexivity]. }
    destruct (le (div (Fin n) x) zero) eqn:E.
    + apply div_nonneg_le_zero; try assumption.
      apply or_else_MIN_VALUE_truthy.
    + reflexivity.
  - unfold set_frame. rewrite Hsp.
    destruct (currentClip_is_this _); reflexivity.
Qed.

(** X3: [play()] on a clip that is not playing and [stop()] on one that is
    playing rewind it: the frame is [0] afterwards, and so is the time
    unless [fps] is negative; [stop()] also clears both flags. *)
Theorem play_and_stop_rewind (s : state) :
  lt (fps (this s)) zero = false ->
  (_playing (this s) = false ->
     _frame (this (play s)) = zero /\ _time (this (play s)) = zero) /\
  (_playing (this s) = true ->
     _frame (this (stop s)) = zero /\ _time (this (stop s)) = zero /\
     _playing (this (stop s)) = false /\ _paused (this (stop s)) = false).
Proof.
  intros Hfps. split; intros Hp.
  - unfold play. rewrite Hp. cbn.
    rewrite set_frame_zero_frame, set_frame_zero_time; auto.
  - unfold stop. rewrite Hp. cbn.
    rewrite set_frame_zero_frame, set_frame_zero_time by exact Hfps.
    match goal with
    | |- context [set_frame zero ?x] =>
        destruct (set_frame_flags zero x) as (-> & -> & _)
    end.
    auto.
Qed.

Lemma play_and_stop_rewind_witness :
  (_frame (this (play (_update (Fin (6 # 5)) once_2_at_2))) = zero /\
   _time (this (play (_update (Fin (6 # 5)) once_2_at_2))) = zero) /\
  (_frame (this (stop (_update one looping_4_at_2))) = zero /\
   _time (this (stop (_update one looping_4_at_2))) = zero /\
   _playing (this (stop (_update one looping_4_at_2))) = false /\
   _paused (this (stop (_update one looping_4_at_2))) = false).
Proof.
  split.
  - apply (proj1 (play_and_stop_rewind (_update (Fin (6 # 5)) once_2_at_2)
                    eq_refl)).
    reflexivity.
  - apply (proj2 (play_and_stop_rewind (_update one looping_4_at_2)
                    eq_refl)).
    reflexivity.
Defined.

(** ** The end of a clip that does not loop *)

(** X4: On a clip that does not loop, playing and not paused, with a finite
    duration above [0], an [_update] whose raw time is finite and not
    negative leaves a time between [0] and the duration and never fires
    [loop].  When the raw time exceeds the duration, [end] is fired once,
    both flags are cleared and every further [_update] does nothing;
    otherwise the clip goes on playing and [end] is not fired. *)
Theorem ending_update_in_range (s : state) (raw dq : Q) (dt : num) :
  duration (this s) = Fin dq ->
  0 < dq ->
  loop (this s) = false ->
  _playing (this s) = true ->
  _paused (this s) = false ->
  raw_time dt s = Fin raw ->
  0 <= raw ->
  exists t,
    _time (this (_update dt s)) = Fin t /\
    0 <= t <= dq /\
    fired ev_loop (effects (_update dt s)) = fired ev_loop (effects s) /\
    (dq < raw ->
       _playing (this (_update dt s)) = false /\
       _paused (this (_update dt s)) = false /\
       fired ev_end (effects (_update dt s)) = S (fired ev_end (effects s)) /\
       forall dt', _update dt' (_update dt s) = _update dt s) /\
    (raw <= dq ->
       _playing (this (_update dt s)) = true /\
       _paused (this (_update dt s)) = false /\
       fired ev_end (effects (_update dt s)) = fired ev_end (effects s)).
Proof.
  intros Hd Hdpos Hloop Hpl Hpa Hraw Hraw0.
  destruct (update_time_in_range s raw dq dt Hd Hdpos Hpl Hpa Hraw Hraw0)
    as (t & Ht & Ht0).
  exists t. split; [exact Ht|]. split; [exact Ht0|].
  destruct (positive_duration_runs _ _ Hd Hdpos) as (sp & Hsp & Hz).
  destruct (update_running_flags s sp dt Hz Hpl Hpa Hsp) as (Fp & Fq).
  rewrite Hraw, Hd, Hloop, orb_false_r in Fp.
  pose proof (update_running_effects s sp dt Hz Hpl Hpa Hsp) as Fe.
  rewrite Hraw, Hd, Hloop in Fe.
  unfold gt, lt in Fp, Fe.
  split; [|split].
  - rewrite Fe, !fired_app, fired_show.
    destruct (Qltb dq raw); cbn.
    + change (fired ev_loop [Fire ev_end; ComponentFire ev_end]) with 0%nat.
      lia.
    + change (fired ev_loop []) with 0%nat. lia.
  - intros Hgt. apply JSFacts.Qltb_lt in Hgt. rewrite Hgt in Fp, Fe.
    cbn in Fp, Fe. split; [exact Fp|split; [exact Fq|split]].
    + rewrite Fe, !fired_app, fired_show.
      change (fired ev_end [Fire ev_end; ComponentFire ev_end]) with 1%nat.
      lia.
    + intros dt'. apply update_not_playing. now left.
  - intros Hle. apply JSFacts.Qltb_ge in Hle. rewrite Hle in Fp, Fe.
    cbn in Fp, Fe. split; [exact Fp|split; [exact Fq|]].
    rewrite Fe, !fired_app, fired_show.
    change (fired ev_end []) with 0%nat. lia.
Qed.

Lemma ending_update_in_range_witness :
  exists t,
    _time (this (_update (Fin (3 # 2)) once_2_at_2)) = Fin t /\
    0 <= t <= 1 /\
    fired ev_loop (effects (_update (Fin (3 # 2)) once_2_at_2))
      = fired ev_loop (effects once_2_at_2) /\
    (1 < 3 # 2 ->
       _playing (this (_update (Fin (3 # 2)) once_2_at_2)) = false /\
       _paused (this (_update (Fin (3 # 2)) once_2_at_2)) = false /\
       fired ev_end (effects (_update (Fin (3 # 2)) once_2_at_2))
         = S (fired ev_end (effects once_2_at_2)) /\
       forall dt', _update dt' (_update (Fin (3 # 2)) once_2_at_2)
                   = _update (Fin (3 # 2)) once_2_at_2) /\
    (3 # 2 <= 1 ->
       _playing (this (_update (Fin (3 # 2)) once_2_at_2)) = true /\
       _paused (this (_update (Fin (3 # 2)) once_2_at_2)) = false /\
       fired ev_end (effects (_update (Fin (3 # 2)) once_2_at_2))
         = fired ev_end (effects once_2_at_2)).
Proof.
  apply (ending_update_in_range once_2_at_2 (3 # 2) 1);
    try (vm_compute; reflexivity); discriminate.
Defined.

(** The end can leave a time below the duration: with three frames at
    [fps = 13], [_update(1)] ends the clip at the duration [3 / 13], derives
    the frame [2] from it, since [3 * (3 / 13) / (3 / 13)] is rounded below
    [3], and so stores the time [2 / 13]. *)
Lemma ending_update_below_duration :
  let s := state_of (clip_of (Some (sprite_of 3)) (Fin 13) false true false)
             one in
  let s' := _update one s in
  _frame (this s') = Fin 2 /\
  lt (_time (this s')) (duration (this s')) = true /\
  _playing (this s') = false /\
  fired ev_end (effects s') = 1%nat.
Proof. vm_compute. repeat split. Qed.

(** ** The time setter *)

Lemma settled_time_range (c : clip) (q dq : Q) :
  duration c = Fin dq -> 0 < dq ->
  exists x, settled_time (Fin q) c = Fin x /\ 0 <= x <= dq /\
            (q < 0 -> x = 0) /\
            (0 <= q <= dq -> x = q) /\
            (loop c = false -> dq < q -> x = dq).
Proof.
  intros Hd Hdpos. unfold settled_time. rewrite Hd. unfold gt, lt, zero.
  destruct (Qltb q 0) eqn:E0.
  - apply JSFacts.Qltb_lt in E0. exists 0.
    repeat split; intros; try lra; try reflexivity; exfalso; lra.
  - apply JSFacts.Qltb_ge in E0. destruct (Qltb dq q) eqn:E1.
    + apply JSFacts.Qltb_lt in E1. destruct (loop c).
      * destruct (rem_range q dq E0 Hdpos) as (r & -> & Hr). exists r.
        repeat split; intros; try lra; try discriminate; exfalso; lra.
      * exists dq. repeat split; intros; try lra; exfalso; lra.
    + apply JSFacts.Qltb_ge in E1. exists q.
      repeat split; intros; try lra; exfalso; lra.
Qed.

Lemma frame_at_zero (sp : sprite_t) (dq : Q) :
  ~ dq == 0 -> frame_at sp (Fin 0) (Fin dq) = Fin (inject_Z 0).
Proof.
  intros Hd. unfold frame_at. rewrite (frame_count_n sp). unfold mul.
  rewrite round_zero by ring. unfold zero.
  rewrite div_Fin by exact Hd.
  rewrite round_zero by (unfold Qdiv; ring). reflexivity.
Qed.

(** What the time setter stores for a finite value, on a clip with a
    sprite and a finite duration above [0]. *)
Lemma set_time_range (s : state) (sp : sprite_t) (f q dq : Q) :
  _sprite (this s) = Some sp ->
  fps (this s) = Fin f ->
  duration (this s) = Fin dq ->
  0 < dq ->
  exists (k : Z) (t : Q),
    _frame (this (set_time (Fin q) s)) = Fin (inject_Z k) /\
    (0 <= k <= frame_total sp)%Z /\
    _time (this (set_time (Fin q) s)) = Fin t /\
    seq (Fin t) (div (Fin (inject_Z k)) (Fin f)) = true /\
    0 <= t <= dq /\
    (q < 0 -> k = 0%Z).
Proof.
  intros Hsp Hfps Hd Hdpos.
  destruct (positive_duration _ _ Hd Hdpos)
    as (sp' & f' & Hsp' & Hne & Hfps' & Hpos & Hround).
  rewrite Hsp in Hsp'. injection Hsp' as <-.
  rewrite Hfps in Hfps'. injection Hfps' as <-.
  destruct (settled_time_range (this s) q dq Hd Hdpos)
    as (x & Hx & Hx0 & Hneg & _).
  assert (Hdq : ~ dq == 0) by lra.
  rewrite (set_time_bound (Fin q) s sp Hsp), Hx, Hd.
  set (F := frame_at sp (Fin x) (Fin dq)).
  assert (Hsp' : _sprite (this (on_this (with_time (Fin x)) s)) = Some sp)
    by exact Hsp.
  destruct (set_frame_bound F _ sp Hsp') as (-> & ->).
  destruct (clamp_whole F sp (frame_at_whole sp x dq Hdq)) as (k & Hk & Hk0).
  assert (HkQ : 0 <= inject_Z k <= inject_Z (frame_total sp)).
  { change 0 with (inject_Z 0). rewrite <- !Zle_Qle. exact Hk0. }
  destruct (quotient_clamped (inject_Z (frame_total sp)) f (inject_Z k) dq
              Hpos Hround HkQ) as (Hdiv & t & Hclamp & Ht & Ht0).
  assert (Hd' : duration (this (on_this (with_time (Fin x)) s)) = Fin dq)
    by exact Hd.
  unfold time_at. rewrite Hk, Hd'. cbn [this on_this fps with_time].
  rewrite Hfps, or_else_positive by exact Hpos.
  rewrite Hdiv, Hclamp.
  exists k, t. repeat split; try assumption; try apply Hk0; try apply Ht0.
  - rewrite Hdiv. now apply seq_Fin.
  - intros Hq. subst F. rewrite (Hneg Hq) in Hk.
    rewrite (frame_at_zero sp dq Hdq) in Hk.
    assert (H0 : (0 <= 0 <= frame_total sp)%Z) by lia.
    rewrite (clamp_index sp 0 H0) in Hk. now injection Hk as <-.
Qed.

(** X7: Assigning a finite [time] on a clip with a sprite and a finite
    duration above [0] stores a whole frame [k] between [0] and
    [frames.length] and, as the time, the quotient [k / fps] as the
    division rounds it ([time === frame / fps]), between [0] and the
    duration, not the assigned value; a negative value gives the frame
    [0]. *)
Theorem set_time_stores_frame_start
    (s : state) (sp : sprite_t) (f q dq : Q) :
  _sprite (this s) = Some sp ->
  fps (this s) = Fin f ->
  duration (this s) = Fin dq ->
  0 < dq ->
  exists (k : Z) (t : Q),
    _frame (this (set_time (Fin q) s)) = Fin (inject_Z k) /\
    (0 <= k <= frame_total sp)%Z /\
    _time (this (set_time (Fin q) s)) = Fin t /\
    seq (Fin t) (div (Fin (inject_Z k)) (Fin f)) = true /\
    0 <= t <= dq /\
    (q < 0 -> k = 0%Z).
Proof. exact (set_time_range s sp f q dq). Qed.

Lemma set_time_stores_frame_start_witness :
  exists (k : Z) (t : Q),
    _frame (this (set_time (Fin (3 # 4)) looping_4_at_2))
      = Fin (inject_Z k) /\
    (0 <= k <= frame_total (sprite_of 4))%Z /\
    _time (this (set_time (Fin (3 # 4)) looping_4_at_2)) = Fin t /\
    seq (Fin t) (div (Fin (inject_Z k)) (Fin 2)) = true /\
    0 <= t <= 2 /\
    (3 # 4 < 0 -> k = 0%Z).
Proof.
  apply (set_time_stores_frame_start looping_4_at_2 (sprite_of 4) 2 (3 # 4) 2);
    vm_compute; reflexivity.
Defined.

(** ** What the asset system can change of a clip *)

(** Every callback of the asset system acts on the clip through the
    sprite setter and the assignment of [_spriteAsset] only: a relation
    that these two respect is respected by every such callback. *)
Section Frame.

Variable R : state -> state -> Prop.
Hypothesis R_refl : forall s, R s s.
Hypothesis R_trans : forall s1 s2 s3, R s1 s2 -> R s2 s3 -> R s1 s3.
Hypothesis R_sprite : forall v s, R s (set_sprite v s).
Hypothesis R_spriteAsset :
  forall id s, R s (on_this (with_spriteAsset id) s).

Lemma onSpriteAssetLoad_frame (i : Z) (w w' : world) :
  _onSpriteAssetLoad i w = Some w' -> R (st w) (st w').
Proof.
  unfold _onSpriteAssetLoad.
  destruct (asset_object i w) as [a|]; [|discriminate].
  destruct (resource a) as [res|]; [destruct (atlas res)|];
    intros [= <-]; cbn; auto.
Qed.

Lemma bindSpriteAsset_frame (i : Z) (w w' : world) :
  _bindSpriteAsset i w = Some w' -> R (st w) (st w').
Proof.
  unfold _bindSpriteAsset.
  destruct (assets w !! i) as [a|]; [|discriminate].
  destruct (resource a).
  - intros H. now apply onSpriteAssetLoad_frame in H.
  - intros [= <-]. cbn. auto.
Qed.

Lemma call_frame (h : handler) (arg : Z) (w w' : world) :
  call h arg w = Some w' -> R (st w) (st w').
Proof.
  destruct h; cbn.
  - unfold _onSpriteAssetAdded.
    destruct (assets w !! arg) as [a|]; [|discriminate].
    destruct (bool_decide _).
    + intros H. now apply bindSpriteAsset_frame in H.
    + intros [= <-]. cbn. auto.
  - apply onSpriteAssetLoad_frame.
  - apply onSpriteAssetLoad_frame.
  - intros [= <-]. auto.
  - unfold _onTextureAtlasLoad.
    destruct (_spriteAsset (this (st w))) as [z|]; [|discriminate].
    destruct (assets w !! z); [|discriminate].
    apply onSpriteAssetLoad_frame.
Qed.

Lemma call_all_frame (arg : Z) (ls : list listener) :
  forall w w', call_all ls arg w = Some w' -> R (st w) (st w').
Proof.
  induction ls as [|l ls IH]; intros w w'; cbn.
  - intros [= <-]. auto.
  - destruct (call (l_handler l) arg w) as [w1|] eqn:E; [|discriminate].
    intros H. apply call_frame in E. apply IH in H. eauto.
Qed.

Lemma set_spriteAsset_frame (v : asset_ref) (w w' : world) :
  set_spriteAsset v w = Some w' -> R (st w) (st w').
Proof.
  unfold set_spriteAsset.
  destruct (bool_decide _); [intros [= <-]; auto|].
  set (wd := match _spriteAsset (this (st w)) with
             | Some old => _
             | None => w
             end).
  assert (Hst : st wd = st w).
  { subst wd. destruct (_spriteAsset (this (st w))); [|reflexivity].
    destruct (id_truthy _); [|reflexivity].
    destruct (assets w !! z); reflexivity. }
  clearbody wd. rewrite <- Hst. cbn.
  set (id := match v with
             | ref_null => None
             | ref_id i => Some i
             | ref_asset a => Some (asset_id a)
             end).
  clearbody id.
  assert (H1 : R (st wd) (on_this (with_spriteAsset id) (st wd))) by auto.
  destruct id as [i|]; cbn.
  - destruct (negb (i =? 0)%Z).
    + destruct (assets wd !! i).
      * intros H. apply bindSpriteAsset_frame in H. cbn in H. eauto.
      * intros [= <-]. cbn. eauto.
    + intros [= <-]. cbn. eauto.
  - intros [= <-]. cbn. eauto.
Qed.

Lemma asset_fire_frame (i : Z) (n : ename) (w w' : world) :
  asset_fire i n w = Some w' -> R (st w) (st w').
Proof.
  unfold asset_fire.
  destruct (asset_object i w); [|intros [= <-]; auto].
  intros H. now apply call_all_frame in H.
Qed.

Lemma asset_step_frame (w w' : world) :
  asset_step w w' -> R (st w) (st w').
Proof.
  intros [v w1 w2 H | a w1 w2 H | i res w1 w2 H | i n w1 w2 H
         | n arg w1 w2 H | i w1 w2 H].
  - now apply set_spriteAsset_frame in H.
  - unfold assets_add, registry_fire in H. now apply call_all_frame in H.
  - unfold asset_loaded in H. now apply asset_fire_frame in H.
  - now apply asset_fire_frame in H.
  - unfold registry_fire in H. now apply call_all_frame in H.
  - unfold assets_remove in H.
    destruct (assets w1 !! i); [|injection H as <-; auto].
    now apply asset_fire_frame in H.
Qed.

End Frame.

Lemma set_frame_name (v : num) (s : state) :
  name (this (set_frame v s)) = name (this s).
Proof.
  destruct s as [[f0 sp0 sa nm fp lp pl pa tm] [spd act mi] es].
  unfold set_frame; cbn. repeat (case_if; cbn); reflexivity.
Qed.

Lemma set_frame_playback (v : num) (s : state) :
  playback (this (set_frame v s)) = playback (this s).
Proof.
  destruct (set_frame_flags v s) as (H1 & H2 & _ & H3 & H4 & _).
  unfold playback. now rewrite H1, H2, H3, H4, set_frame_name.
Qed.

Lemma set_time_playback (v : num) (s : state) :
  playback (this (set_time v s)) = playback (this s).
Proof.
  unfold set_time.
  repeat match goal with
         | |- context [if ?b then _ else _] => destruct b
         | |- context [match ?x with Some _ => _ | None => _ end] =>
             destruct x
         end;
    rewrite set_frame_playback; reflexivity.
Qed.

Lemma set_sprite_playback (v : option sprite_t) (s : state) :
  playback (this (set_sprite v s)) = playback (this s).
Proof.
  unfold set_sprite.
  destruct v as [[r fr [a|]]|]; cbn;
    repeat match goal with
           | |- context [if ?b then _ else _] => destruct b
           | |- context [match ?x with Some _ => _ | None => _ end] =>
               destruct x
           end;
    rewrite ?set_time_playback, ?set_frame_playback; reflexivity.
Qed.

(** X9: No callback of the asset system, however the assets arrive, starts,
    pauses or stops the clip or changes its [fps], [loop] or [name]. *)
Theorem asset_step_keeps_playback (w w' : world) :
  asset_step w w' ->
  playback (this (st w')) = playback (this (st w)).
Proof.
  intros H. symmetry.
  apply (asset_step_frame
           (fun s s' => playback (this s) = playback (this s'))); auto.
  - intros s1 s2 s3. congruence.
  - intros v s. symmetry. apply set_sprite_playback.
Qed.

Lemma asset_step_keeps_playback_witness :
  exists w',
    set_spriteAsset (ref_id 7) fresh_world = Some w' /\
    playback (this (st w')) = playback (this (st fresh_world)).
Proof.
  eexists. split; [vm_compute; reflexivity|].
  apply (asset_step_keeps_playback fresh_world).
  apply (asset_step_spriteAsset (ref_id 7)). vm_compute. reflexivity.
Defined.

(** ** Listening for changed meshes *)

#[local] Arguments meshes_subscribed : simpl never.

Lemma meshes_subscribed_app (es es' : list effect) :
  meshes_subscribed (es ++ es') =
  fold_left
    (fun subs x =>
       match x with
       | SpriteOn r => subs ++ [r]
       | SpriteOff r => List.filter (fun r' => negb (r' =? r)%Z) subs
       | _ => subs
       end) es' (meshes_subscribed es).
Proof. unfold meshes_subscribed. apply fold_left_app. Qed.

Lemma set_frame_subscribed (v : num) (s : state) :
  meshes_subscribed (effects (set_frame v s)) = meshes_subscribed (effects s).
Proof.
  rewrite set_frame_effects, meshes_subscribed_app.
  now destruct (currentClip_is_this (component s)).
Qed.

Lemma set_time_subscribed (v : num) (s : state) :
  meshes_subscribed (effects (set_time v s)) = meshes_subscribed (effects s).
Proof.
  unfold set_time.
  repeat match goal with
         | |- context [if ?b then _ else _] => destruct b
         | |- context [match ?x with Some _ => _ | None => _ end] =>
             destruct x
         end;
    rewrite set_frame_subscribed; reflexivity.
Qed.

Lemma set_time_sprite (v : num) (s : state) :
  _sprite (this (set_time v s)) = _sprite (this s).
Proof.
  unfold set_time.
  repeat match goal with
         | |- context [if ?b then _ else _] => destruct b
         | |- context [match ?x with Some _ => _ | None => _ end] =>
             destruct x
         end;
    match goal with
    | |- context [set_frame ?x ?y] =>
        destruct (set_frame_static x y) as (_ & _ & -> & _)
    end; reflexivity.
Qed.

(** The sprite setter stores the assigned sprite and moves the
    ['set:meshes'] registration from the old sprite to it. *)
Lemma set_sprite_subscribed (v : option sprite_t) (s : state) :
  subscribed_to_current s -> subscribed_to_current (set_sprite v s).
Proof.
  unfold subscribed_to_current, set_sprite. intros Inv.
  set (s1 := match _sprite (this s) with
             | Some old => emit [SpriteOff (sprite_ref old)] s
             | None => s
             end).
  assert (H1 : meshes_subscribed (effects s1) = []).
  { subst s1. destruct (_sprite (this s)) as [old|]; [|exact Inv].
    cbn. rewrite meshes_subscribed_app, Inv. cbn.
    now rewrite Z.eqb_refl. }
  set (s2 := on_this (with_sprite v) s1).
  set (s3 := match _sprite (this s2) with
             | Some sp => emit [SpriteOn (sprite_ref sp)] s2
             | None => s2
             end).
  assert (H3 : meshes_subscribed (effects s3) =
               match v with Some sp => [sprite_ref sp] | None => [] end
               /\ _sprite (this s3) = v).
  { subst s3 s2. cbn. destruct v as [sp|]; cbn.
    - rewrite meshes_subscribed_app, H1. auto.
    - auto. }
  clearbody s3. clear s1 s2 H1 Inv. destruct H3 as (H3 & H4).
  destruct (currentClip_is_this (component s3)); [|now rewrite H4].
  destruct v as [[r fr [a|]]|]; cbn in *.
  - set (s4 := match texture a with
               | Some t0 => _
               | None => s3
               end).
    assert (H5 : meshes_subscribed (effects s4) = [r] /\
                 _sprite (this s4) = _sprite (this s3)).
    { subst s4. destruct (texture a); [|auto].
      destruct (_meshInstance (component s3)); [|auto].
      cbn. rewrite meshes_subscribed_app, H3. auto. }
    clearbody s4. destruct H5 as (H5 & H6).
    destruct (truthy (_time (this s4))).
    + rewrite set_time_subscribed, set_time_sprite, H5, H6, H4. reflexivity.
    + rewrite set_frame_subscribed.
      destruct (set_frame_static (_frame (this s4)) s4) as (_ & _ & -> & _).
      rewrite H5, H6, H4. reflexivity.
  - destruct (_meshInstance (component s3)); cbn;
      rewrite ?meshes_subscribed_app, H3, H4; reflexivity.
  - destruct (_meshInstance (component s3)); cbn;
      rewrite ?meshes_subscribed_app, H3, H4; reflexivity.
Qed.

Lemma perform_subscribed (o : operation) (s : state) :
  subscribed_to_current s -> subscribed_to_current (perform o s).
Proof.
  unfold subscribed_to_current. intros Inv.
  destruct o; cbn.
  - rewrite set_frame_subscribed.
    now destruct (set_frame_static v s) as (_ & _ & -> & _).
  - now rewrite set_time_subscribed, set_time_sprite.
  - unfold play. case_if; [exact Inv|]. cbn.
    rewrite meshes_subscribed_app, set_frame_subscribed. cbn.
    match goal with
    | |- context [set_frame ?x ?y] =>
        destruct (set_frame_static x y) as (_ & _ & -> & _)
    end. exact Inv.
  - unfold pause. case_if; [exact Inv|]. cbn.
    rewrite meshes_subscribed_app. exact Inv.
  - unfold resume. case_if; [exact Inv|]. cbn.
    rewrite meshes_subscribed_app. exact Inv.
  - unfold stop. case_if; [exact Inv|]. cbn.
    rewrite meshes_subscribed_app, set_frame_subscribed. cbn.
    match goal with
    | |- context [set_frame ?x ?y] =>
        destruct (set_frame_static x y) as (_ & _ & -> & _)
    end. exact Inv.
Qed.

Lemma update_subscribed (dt : num) (s : state) :
  subscribed_to_current s -> subscribed_to_current (_update dt s).
Proof.
  unfold subscribed_to_current. intros Inv.
  destruct (update_static dt s) as (_ & _ & -> & _).
  rewrite <- Inv. clear Inv.
  unfold _update.
  destruct (seq (fps (this s)) zero); [reflexivity|].
  destruct (negb (_playing (this s)) || _paused (this s)); [reflexivity|].
  repeat match goal with
         | |- context [if ?b then _ else _] => destruct b
         end;
    cbn; rewrite ?meshes_subscribed_app, ?set_frame_subscribed; reflexivity.
Qed.

(** X10: In every world a clip can be in, the clip listens for ['set:meshes']
    on its current sprite, once, and on no other sprite: rebinding the
    sprite never leaves a listener behind. *)
Theorem reachable_subscribed_to_current (w : world) :
  reachable w -> subscribed_to_current (st w).
Proof.
  assert (Hframe : forall w w', asset_step w w' ->
            subscribed_to_current (st w) -> subscribed_to_current (st w')).
  { intros w1 w2 H.
    apply (asset_step_frame
             (fun s s' => subscribed_to_current s ->
                          subscribed_to_current s')); auto.
    intros v s. apply set_sprite_subscribed. }
  induction 1 as [component registered v nm f lp w Hu H | w w' _ IH Hs].
  - unfold SpriteAnimationClip in H.
    match type of H with
    | context [set_spriteAsset v ?w0] =>
        destruct (set_spriteAsset v w0) as [w1|] eqn:E; [|discriminate];
        apply asset_step_spriteAsset, Hframe in E
    end.
    + injection H as <-. exact E.
    + reflexivity.
  - destruct Hs as
      [v w w' H | o w | dt w | w | a w w' Hnew H | i res w w' H
      | i n w w' H | i w w' H | i w w' H].
    + exact (Hframe w w' (asset_step_spriteAsset v w w' H) IH).
    + now apply perform_subscribed.
    + now apply update_subscribed.
    + cbn. unfold _onSpriteMeshesChange, subscribed_to_current in *.
      case_if; [|exact IH]. cbn. now rewrite meshes_subscribed_app.
    + exact (Hframe w w' (asset_step_add a w w' H) IH).
    + exact (Hframe w w' (asset_step_loaded i res w w' H) IH).
    + exact (Hframe w w' (asset_step_asset_fire i n w w' H) IH).
    + exact (Hframe w w' (asset_step_registry_fire _ i w w' H) IH).
    + exact (Hframe w w' (asset_step_remove i w w' H) IH).
Qed.

Lemma reachable_subscribed_to_current_witness :
  _sprite (this (st loaded_world)) = Some sprite_with_atlas /\
  subscribed_to_current (st loaded_world).
Proof.
  split; [vm_compute; reflexivity|].
  apply (reachable_subscribed_to_current loaded_world).
  apply (reachable_new walk_component {[ 7%Z := asset_7_loaded ]} (ref_id 7)
           "walk" two true).
  - intros j a H. apply lookup_singleton_Some in H as (_ & <-). reflexivity.
  - vm_compute. reflexivity.
Defined.

(** ** Binding, case by case *)

Lemma set_sprite_sprite (v : option sprite_t) (s : state) :
  _sprite (this (set_sprite v s)) = v.
Proof.
  unfold set_sprite.
  set (s3 := match _sprite (this (on_this (with_sprite v) _)) with
             | Some sp => _
             | None => _
             end).
  assert (H : _sprite (this s3) = v).
  { subst s3. cbn. now destruct v. }
  clearbody s3.
  destruct (currentClip_is_this (component s3)); [|exact H].
  destruct v as [[r fr [a|]]|]; cbn in *.
  - set (s4 := match texture a with
               | Some t0 => _
               | None => s3
               end).
    assert (H' : _sprite (this s4) = _sprite (this s3)).
    { subst s4. destruct (texture a); [|reflexivity].
      now destruct (_meshInstance (component s3)). }
    clearbody s4.
    destruct (truthy (_time (this s4))).
    + now rewrite set_time_sprite, H'.
    + destruct (set_frame_static (_frame (this s4)) s4) as (_ & _ & -> & _).
      now rewrite H'.
  - now destruct (_meshInstance (component s3)).
  - now destruct (_meshInstance (component s3)).
Qed.

(** What [_bindSpriteAsset] does to a registered asset, by the state of
    its resource. *)
Lemma bindSpriteAsset_by_cases (i : Z) (w : world) (a : asset) :
  assets w !! i = Some a ->
  exists w', _bindSpriteAsset i w = Some w' /\
    (exists a', assets w' !! i = Some a' /\
       listeners a' =
         on e_remove h_onSpriteAssetRemove
           (on e_change h_onSpriteAssetChange
              (on e_load h_onSpriteAssetLoad (listeners a)))) /\
    match resource a with
    | None =>
        st w' = st w /\
        load_requests w' = load_requests w ++ [i] /\
        registry_listeners w' = registry_listeners w
    | Some res =>
        load_requests w' = load_requests w /\
        match atlas res with
        | Some _ =>
            st w' = set_sprite (Some res) (st w) /\
            registry_listeners w' = registry_listeners w
        | None =>
            st w' = st w /\
            registry_listeners w' =
              once (e_load_id (textureAtlasAsset a)) h_onTextureAtlasLoad
                (off (e_load_id (textureAtlasAsset a)) h_onTextureAtlasLoad
                   (registry_listeners w))
        end
    end.
Proof.
  intros H. unfold _bindSpriteAsset. rewrite H.
  set (wb := on_asset i _ (on_asset i _ (on_asset i _ w))).
  assert (Hi : assets wb !! i =
               Some (with_listeners
                 (on e_remove h_onSpriteAssetRemove
                    (on e_change h_onSpriteAssetChange
                       (on e_load h_onSpriteAssetLoad (listeners a)))) a)).
  { subst wb. cbn. rewrite !lookup_alter_eq, H. reflexivity. }
  assert (Hw : st wb = st w /\ load_requests wb = load_requests w /\
               registry_listeners wb = registry_listeners w) by auto.
  destruct Hw as (Hw1 & Hw2 & Hw3). clearbody wb.
  destruct (resource a) as [res|] eqn:Hres.
  - unfold _onSpriteAssetLoad.
    rewrite (asset_object_registered i wb _ Hi). cbn. rewrite Hres.
    destruct (atlas res); eexists; (split; [reflexivity|]); cbn;
      rewrite Hi, ?Hw1, ?Hw2, ?Hw3; eauto 10.
  - eexists. split; [reflexivity|]. cbn.
    rewrite Hi, ?Hw1, ?Hw2, ?Hw3. eauto 10.
Qed.

(** What the setter [spriteAsset] does for a truthy id other than the
    current one, by the state of the asset. *)
Lemma set_spriteAsset_by_cases (w : world) (i : Z) :
  i <> 0%Z ->
  _spriteAsset (this (st w)) <> Some i ->
  exists w', set_spriteAsset (ref_id i) w = Some w' /\
    _spriteAsset (this (st w')) = Some i /\
    match assets w !! i with
    | None =>
        _sprite (this (st w')) = None /\
        registry_listeners w' =
          on (e_add i) h_onSpriteAssetAdded (registry_listeners w) /\
        load_requests w' = load_requests w
    | Some a =>
        (exists a', assets w' !! i = Some a' /\
           listeners a' =
             on e_remove h_onSpriteAssetRemove
               (on e_change h_onSpriteAssetChange
                  (on e_load h_onSpriteAssetLoad (listeners a)))) /\
        match resource a with
        | None =>
            _sprite (this (st w')) = _sprite (this (st w)) /\
            load_requests w' = load_requests w ++ [i] /\
            registry_listeners w' = registry_listeners w
        | Some res =>
            load_requests w' = load_requests w /\
            match atlas res with
            | Some _ =>
                _sprite (this (st w')) = Some res /\
                registry_listeners w' = registry_listeners w
            | None =>
                _sprite (this (st w')) = _sprite (this (st w)) /\
                registry_listeners w' =
                  once (e_load_id (textureAtlasAsset a)) h_onTextureAtlasLoad
                    (off (e_load_id (textureAtlasAsset a))
                       h_onTextureAtlasLoad (registry_listeners w))
            end
        end
    end.
Proof.
  intros Hi Hcur. unfold set_spriteAsset.
  rewrite bool_decide_eq_false_2 by exact Hcur.
  set (wd := match _spriteAsset (this (st w)) with
             | Some old => _
             | None => w
             end).
  assert (Hd : st wd = st w /\
               registry_listeners wd = registry_listeners w /\
               load_requests wd = load_requests w /\
               assets wd !! i = assets w !! i).
  { subst wd. destruct (_spriteAsset (this (st w))) as [old|] eqn:E;
      [|auto].
    destruct (id_truthy (Some old)); [|auto].
    destruct (assets w !! old); [|auto].
    cbn. rewrite !lookup_alter_ne by congruence. auto. }
  destruct Hd as (Hst & Hreg & Hload & Has).
  clearbody wd. cbn.
  apply Z.eqb_neq in Hi. rewrite Hi. cbn.
  rewrite <- Has.
  destruct (assets wd !! i) as [a|] eqn:Ha.
  - destruct (bindSpriteAsset_by_cases i
                (on_state (on_this (with_spriteAsset (Some i))) wd) a Ha)
      as (w' & -> & Hl & Hcase).
    exists w'. split; [reflexivity|]. cbn in Hcase.
    rewrite Hst, Hreg, Hload in Hcase.
    destruct (resource a) as [res|].
    + destruct Hcase as (L & Hcase). destruct (atlas res).
      * destruct Hcase as (-> & R). rewrite set_sprite_spriteAsset.
        rewrite set_sprite_sprite. auto 10.
      * destruct Hcase as (-> & R). auto 10.
    + destruct Hcase as (-> & L & R). auto 10.
  - eexists. split; [reflexivity|]. cbn.
    rewrite set_sprite_spriteAsset, set_sprite_sprite, Hst, Hreg, Hload.
    auto.
Qed.

(** X11: Assigning [spriteAsset] a truthy id other than the current one returns
    and stores the id.  When no asset of that id is registered, the sprite
    is cleared and one listener for ['add:' + id] is added to the registry.
    When the asset is registered it gets the three listeners; if it has no
    resource its load is requested once and the sprite stays as it is; if
    its resource has an atlas the resource becomes the sprite at once; if
    the atlas is missing the sprite stays as it is and one [once] listener
    for the load of the atlas replaces those already there. *)
Theorem set_spriteAsset_binds (w : world) (i : Z) :
  i <> 0%Z ->
  _spriteAsset (this (st w)) <> Some i ->
  exists w', set_spriteAsset (ref_id i) w = Some w' /\
    _spriteAsset (this (st w')) = Some i /\
    match assets w !! i with
    | None =>
        _sprite (this (st w')) = None /\
        registry_listeners w' =
          on (e_add i) h_onSpriteAssetAdded (registry_listeners w) /\
        load_requests w' = load_requests w
    | Some a =>
        (exists a', assets w' !! i = Some a' /\
           listeners a' =
             on e_remove h_onSpriteAssetRemove
               (on e_change h_onSpriteAssetChange
                  (on e_load h_onSpriteAssetLoad (listeners a)))) /\
        match resource a with
        | None =>
            _sprite (this (st w')) = _sprite (this (st w)) /\
            load_requests w' = load_requests w ++ [i] /\
            registry_listeners w' = registry_listeners w
        | Some res =>
            load_requests w' = load_requests w /\
            match atlas res with
            | Some _ =>
                _sprite (this (st w')) = Some res /\
                registry_listeners w' = registry_listeners w
            | None =>
                _sprite (this (st w')) = _sprite (this (st w)) /\
                registry_listeners w' =
                  once (e_load_id (textureAtlasAsset a)) h_onTextureAtlasLoad
                    (off (e_load_id (textureAtlasAsset a))
                       h_onTextureAtlasLoad (registry_listeners w))
            end
        end
    end.
Proof. exact (set_spriteAsset_by_cases w i). Qed.

Lemma set_spriteAsset_binds_witness :
  exists w', set_spriteAsset (ref_id 7) fresh_world = Some w' /\
    _spriteAsset (this (st w')) = Some 7%Z /\
    (exists a', assets w' !! 7%Z = Some a' /\
       listeners a' =
         on e_remove h_onSpriteAssetRemove
           (on e_change h_onSpriteAssetChange
              (on e_load h_onSpriteAssetLoad (listeners asset_7)))) /\
    _sprite (this (st w')) = _sprite (this (st fresh_world)) /\
    load_requests w' = load_requests fresh_world ++ [7%Z] /\
    registry_listeners w' = registry_listeners fresh_world.
Proof.
  apply (set_spriteAsset_binds fresh_world 7); discriminate.
Defined.

(** ** Assets arriving for the current binding *)

Lemma named_app (n : ename) (ls ls' : list listener) :
  named n (ls ++ ls') = named n ls ++ named n ls'.
Proof. unfold named. apply List.filter_app. Qed.

Lemma named_off_other (n : ename) (h : handler) (ls : list listener) :
  named n ls = [] -> named n (off n h ls) = [].
Proof.
  unfold named, off. induction ls as [|l ls IH]; cbn; [reflexivity|].
  destruct (bool_decide (l_name l = n)) eqn:E; [discriminate|].
  intros H. unfold same_listener at 1. rewrite E. cbn. rewrite E. auto.
Qed.

Lemma named_spend (n : ename) (ls : list listener) :
  named n (spend n ls) = List.filter (fun l => negb (l_once l)) (named n ls).
Proof.
  unfold named, spend. induction ls as [|l ls IH]; cbn; [reflexivity|].
  destruct (bool_decide (l_name l = n)) eqn:E; cbn.
  - destruct (l_once l); cbn; rewrite ?E; now rewrite IH.
  - rewrite E. exact IH.
Qed.

Lemma spend_lasting (n : ename) (ls : list listener) :
  Forall (fun l => l_once l = false) ls -> spend n ls = ls.
Proof.
  unfold spend. induction 1 as [|l ls Hl _ IH]; cbn; [reflexivity|].
  rewrite Hl, andb_false_r. cbn. now rewrite IH.
Qed.

(** X12: A load that was pending when the asset was bound: assigning
    [spriteAsset] the id of a registered asset with no resource requests
    its load, and when the load completes with a resource whose atlas is
    there, the load handler makes that resource the sprite. *)
Theorem pending_load_binds
    (w : world) (i : Z) (a : asset) (res : sprite_t) (atl : atlas_t) :
  consistent w ->
  i <> 0%Z ->
  _spriteAsset (this (st w)) <> Some i ->
  assets w !! i = Some a ->
  resource a = None ->
  atlas res = Some atl ->
  exists w1 w2,
    set_spriteAsset (ref_id i) w = Some w1 /\
    load_requests w1 = load_requests w ++ [i] /\
    _sprite (this (st w1)) = _sprite (this (st w)) /\
    asset_loaded i res w1 = Some w2 /\
    st w2 = set_sprite (Some res) (st w1) /\
    _sprite (this (st w2)) = Some res.
Proof.
  intros Hc Hi Hcur Ha Hres Hatl.
  destruct (set_spriteAsset_by_cases w i Hi Hcur) as (w1 & E1 & _ & Hcase).
  rewrite Ha, Hres in Hcase.
  destruct Hcase as ((a' & Ha' & Hl) & Hsp & Hload & _).
  rewrite (consistent_elsewhere w i a Hc Hcur Ha) in Hl.
  exists w1. eexists. split; [exact E1|]. split; [exact Hload|].
  split; [exact Hsp|].
  assert (E2 : asset_loaded i res w1 =
               Some (on_state (set_sprite (Some res))
                       (on_asset i (fun a => with_listeners
                                      (spend e_load (listeners a)) a)
                          (on_asset i (with_resource (Some res)) w1)))).
  { unfold asset_loaded, asset_fire.
    rewrite asset_object_on_asset, (asset_object_registered i w1 a' Ha').
    cbn [fmap option_fmap option_map].
    cbn [listeners with_resource]. rewrite Hl.
    set (w' := on_asset i _ (on_asset i _ w1)).
    assert (Hw' : exists b, assets w' !! i = Some b /\
                            resource b = Some res).
    { subst w'. cbn [assets on_asset]. rewrite !lookup_alter_eq, Ha'.
      cbn. eauto. }
    destruct Hw' as (b & Hb & Hbres). clearbody w'.
    change (named e_load _) with
      [{| l_name := e_load; l_handler := h_onSpriteAssetLoad;
          l_once := false |}].
    cbn [call_all call l_handler]. unfold _onSpriteAssetLoad.
    now rewrite (asset_object_registered i w' b Hb), Hbres, Hatl. }
  split; [exact E2|]. split; [reflexivity|].
  cbn. apply set_sprite_sprite.
Qed.

Lemma pending_load_binds_witness :
  exists w1 w2,
    set_spriteAsset (ref_id 7) fresh_world = Some w1 /\
    load_requests w1 = load_requests fresh_world ++ [7%Z] /\
    _sprite (this (st w1)) = _sprite (this (st fresh_world)) /\
    asset_loaded 7 sprite_with_atlas w1 = Some w2 /\
    st w2 = set_sprite (Some sprite_with_atlas) (st w1) /\
    _sprite (this (st w2)) = Some sprite_with_atlas.
Proof.
  apply (pending_load_binds fresh_world 7 asset_7 sprite_with_atlas
           {| texture := Some 9%Z |}).
  - exact fresh_world_consistent.
  - discriminate.
  - discriminate.
  - reflexivity.
  - reflexivity.
  - reflexivity.
Defined.

(** X13: An asset registered after it was bound, when no listener for
    ['add:' + id] was waiting before: assigning [spriteAsset] a truthy id
    that no asset carries yet clears the sprite and waits; when an asset of
    that id, loaded and with its atlas, is registered, the add handler
    stops waiting, puts the three listeners on the asset and makes its
    resource the sprite. *)
Theorem late_registration_binds
    (w : world) (a : asset) (res : sprite_t) (atl : atlas_t) :
  asset_id a <> 0%Z ->
  _spriteAsset (this (st w)) <> Some (asset_id a) ->
  assets w !! asset_id a = None ->
  named (e_add (asset_id a)) (registry_listeners w) = [] ->
  resource a = Some res ->
  atlas res = Some atl ->
  exists w1 w2,
    set_spriteAsset (ref_id (asset_id a)) w = Some w1 /\
    _sprite (this (st w1)) = None /\
    assets_add a w1 = Some w2 /\
    _sprite (this (st w2)) = Some res /\
    named (e_add (asset_id a)) (registry_listeners w2) = [] /\
    exists a', assets w2 !! asset_id a = Some a' /\
      listeners a' =
        on e_remove h_onSpriteAssetRemove
          (on e_change h_onSpriteAssetChange
             (on e_load h_onSpriteAssetLoad [])).
Proof.
  intros Hi Hcur Hnone Hwait Hres Hatl.
  destruct (set_spriteAsset_by_cases w (asset_id a) Hi Hcur)
    as (w1 & E1 & Hid & Hcase).
  rewrite Hnone in Hcase. destruct Hcase as (Hsp & Hreg & _).
  exists w1.
  set (wi := {| st := st w1;
                assets := <[asset_id a := with_listeners [] a]> (assets w1);
                detached := detached w1;
                registry_listeners :=
                  off (e_add (asset_id a)) h_onSpriteAssetAdded
                    (spend (e_add (asset_id a)) (registry_listeners w1));
                load_requests := load_requests w1 |}).
  assert (Hai : assets wi !! asset_id a = Some (with_listeners [] a)).
  { subst wi. cbn. apply lookup_insert_eq. }
  destruct (bindSpriteAsset_by_cases (asset_id a) wi _ Hai)
    as (w2 & E2 & Hl & Hcase).
  cbn in Hcase. rewrite Hres, Hatl in Hcase.
  destruct Hcase as (_ & Hst & Hr2).
  exists w2. split; [exact E1|]. split; [exact Hsp|].
  assert (Hnamed : named (e_add (asset_id a)) (registry_listeners w1) =
                   [{| l_name := e_add (asset_id a);
                       l_handler := h_onSpriteAssetAdded;
                       l_once := false |}]).
  { rewrite Hreg. unfold on. rewrite named_app, Hwait. cbn.
    now rewrite bool_decide_eq_true_2. }
  split.
  { unfold assets_add, registry_fire. cbn [registry_listeners].
    rewrite Hnamed. cbn [call_all call l_handler].
    unfold _onSpriteAssetAdded. cbn [assets on_registry].
    rewrite lookup_insert_eq. cbn [asset_id with_listeners].
    change (on_registry (off (e_add (asset_id a)) h_onSpriteAssetAdded) _)
      with wi.
    change (st wi) with (st w1).
    rewrite Hid, bool_decide_eq_true_2 by reflexivity.
    now rewrite E2. }
  split; [rewrite Hst; apply set_sprite_sprite|].
  split; [|exact Hl].
  rewrite Hr2. subst wi. cbn.
  assert (Hs : named (e_add (asset_id a))
                 (spend (e_add (asset_id a)) (registry_listeners w1)) =
               [{| l_name := e_add (asset_id a);
                   l_handler := h_onSpriteAssetAdded;
                   l_once := false |}]).
  { now rewrite named_spend, Hnamed. }
  clear - Hs.
  induction (spend (e_add (asset_id a)) (registry_listeners w1))
    as [|l ls IH]; [reflexivity|].
  unfold named, off in *. cbn in *. unfold same_listener at 1.
  destruct (bool_decide (l_name l = e_add (asset_id a))) eqn:E; cbn.
  - injection Hs as Hl Hs. rewrite Hl. cbn.
    fold (off (e_add (asset_id a)) h_onSpriteAssetAdded ls).
    apply (named_off_other _ _ ls Hs).
  - rewrite E. apply IH, Hs.
Qed.

Lemma late_registration_binds_witness :
  exists w1 w2,
    set_spriteAsset (ref_id (asset_id asset_7_loaded)) empty_world = Some w1 /\
    _sprite (this (st w1)) = None /\
    assets_add asset_7_loaded w1 = Some w2 /\
    _sprite (this (st w2)) = Some sprite_with_atlas /\
    named (e_add (asset_id asset_7_loaded)) (registry_listeners w2) = [] /\
    exists a', assets w2 !! asset_id asset_7_loaded = Some a' /\
      listeners a' =
        on e_remove h_onSpriteAssetRemove
          (on e_change h_onSpriteAssetChange
             (on e_load h_onSpriteAssetLoad [])).
Proof.
  apply (late_registration_binds empty_world asset_7_loaded sprite_with_atlas
           {| texture := Some 9%Z |});
    try reflexivity; discriminate.
Defined.

(** ** Waiting for the atlas *)

Lemma named_off_atlas (T : Z) (ls : list listener) :
  Forall registry_listener ls ->
  named (e_load_id T) (off (e_load_id T) h_onTextureAtlasLoad ls) = [].
Proof.
  unfold named, off. induction 1 as [|l ls Hl _ IH]; cbn; [reflexivity|].
  unfold same_listener at 1.
  destruct (bool_decide (l_name l = e_load_id T)) eqn:E; cbn.
  - apply bool_decide_eq_true in E.
    destruct Hl as [(j & _ & ->)|(j & ->)]; [discriminate|].
    cbn. exact IH.
  - rewrite E. exact IH.
Qed.

(** X14: When the sprite asset is loaded or changed while the atlas of its
    resource is missing, the clip is left as it is and exactly one [once]
    listener waits for the load of the atlas, however many were waiting
    before. *)
Theorem atlas_awaited_once
    (w : world) (i : Z) (a : asset) (res : sprite_t) :
  Forall registry_listener (registry_listeners w) ->
  assets w !! i = Some a ->
  resource a = Some res ->
  atlas res = None ->
  exists w',
    _onSpriteAssetChange i w = Some w' /\
    _onSpriteAssetLoad i w = Some w' /\
    st w' = st w /\
    assets w' = assets w /\
    named (e_load_id (textureAtlasAsset a)) (registry_listeners w') =
      [{| l_name := e_load_id (textureAtlasAsset a);
          l_handler := h_onTextureAtlasLoad; l_once := true |}].
Proof.
  intros Hr Ha Hres Hatl.
  unfold _onSpriteAssetChange, _onSpriteAssetLoad.
  rewrite (asset_object_registered i w a Ha), Hres, Hatl.
  eexists. split; [reflexivity|]. split; [reflexivity|].
  cbn [st assets on_registry registry_listeners]. repeat split.
  unfold once. rewrite named_app, (named_off_atlas _ _ Hr). cbn.
  now rewrite bool_decide_eq_true_2.
Qed.

Lemma atlas_awaited_once_witness :
  let w := {| st := unbound_stopped;
              assets := {[ 7%Z := {| asset_id := 7;
                                     resource := Some sprite_without_atlas;
                                     textureAtlasAsset := 70;
                                     listeners := [] |} ]};
              detached := ∅;
              registry_listeners :=
                [{| l_name := e_load_id 70;
                    l_handler := h_onTextureAtlasLoad; l_once := true |}];
              load_requests := [] |} in
  exists w',
    _onSpriteAssetChange 7 w = Some w' /\
    _onSpriteAssetLoad 7 w = Some w' /\
    st w' = st w /\
    assets w' = assets w /\
    named (e_load_id 70) (registry_listeners w') =
      [{| l_name := e_load_id 70;
          l_handler := h_onTextureAtlasLoad; l_once := true |}].
Proof.
  intros w.
  apply (atlas_awaited_once w 7
           {| asset_id := 7; resource := Some sprite_without_atlas;
              textureAtlasAsset := 70; listeners := [] |}
           sprite_without_atlas).
  - constructor; [|constructor]. right. exists 70%Z. reflexivity.
  - reflexivity.
  - reflexivity.
  - reflexivity.
Defined.

(** X15: When the atlas arrives for the current sprite asset, whose resource
    has its atlas by then, the one waiting listener is called once: the
    resource becomes the sprite and no listener for that atlas is left. *)
Theorem atlas_arrival_binds
    (w : world) (i T : Z) (a : asset) (res : sprite_t) (atl : atlas_t) :
  _spriteAsset (this (st w)) = Some i ->
  assets w !! i = Some a ->
  resource a = Some res ->
  atlas res = Some atl ->
  named (e_load_id T) (registry_listeners w) =
    [{| l_name := e_load_id T; l_handler := h_onTextureAtlasLoad;
        l_once := true |}] ->
  exists w',
    registry_fire (e_load_id T) T w = Some w' /\
    st w' = set_sprite (Some res) (st w) /\
    _sprite (this (st w')) = Some res /\
    named (e_load_id T) (registry_listeners w') = [].
Proof.
  intros Hcur Ha Hres Hatl Hwait.
  unfold registry_fire. rewrite Hwait. cbn [call_all call l_handler].
  unfold _onTextureAtlasLoad. cbn [st assets on_registry].
  rewrite Hcur, Ha.
  unfold _onSpriteAssetLoad, asset_object. cbn [assets on_registry].
  rewrite Ha, Hres, Hatl.
  eexists. split; [reflexivity|]. cbn [st on_state on_registry].
  split; [reflexivity|]. split; [apply set_sprite_sprite|].
  cbn [registry_listeners on_state on_registry].
  now rewrite named_spend, Hwait.
Qed.

Lemma atlas_arrival_binds_witness :
  let w := {| st := on_this (with_spriteAsset (Some 7%Z)) unbound_stopped;
              assets := {[ 7%Z := asset_7_loaded ]};
              detached := ∅;
              registry_listeners :=
                [{| l_name := e_load_id 70;
                    l_handler := h_onTextureAtlasLoad; l_once := true |}];
              load_requests := [] |} in
  exists w',
    registry_fire (e_load_id 70) 70 w = Some w' /\
    st w' = set_sprite (Some sprite_with_atlas) (st w) /\
    _sprite (this (st w')) = Some sprite_with_atlas /\
    named (e_load_id 70) (registry_listeners w') = [].
Proof.
  intros w.
  apply (atlas_arrival_binds w 7 70 asset_7_loaded sprite_with_atlas
           {| texture := Some 9%Z |}); reflexivity.
Defined.

(** ** Rebinding and unbinding *)

(** X16: Assigning [spriteAsset] the value it was just assigned does nothing:
    no listener is added twice and no load is requested again. *)
Theorem set_spriteAsset_again (v : asset_ref) (w w1 : world) :
  consistent w ->
  set_spriteAsset v w = Some w1 ->
  set_spriteAsset v w1 = Some w1.
Proof.
  intros Hc H.
  destruct (set_spriteAsset_spec v w Hc) as (w' & E & _ & Hid).
  rewrite H in E. injection E as <-.
  unfold set_spriteAsset.
  change (match v with
          | ref_null => None
          | ref_id i => Some i
          | ref_asset a => Some (asset_id a)
          end) with (id_of v).
  now rewrite bool_decide_eq_true_2.
Qed.

Lemma set_spriteAsset_again_witness :
  exists w1,
    set_spriteAsset (ref_id 7) fresh_world = Some w1 /\
    set_spriteAsset (ref_id 7) w1 = Some w1.
Proof.
  eexists. split; [vm_compute; reflexivity|].
  apply (set_spriteAsset_again (ref_id 7) fresh_world).
  - exact fresh_world_consistent.
  - vm_compute. reflexivity.
Defined.






Lemma loaded_world_reachable : reachable loaded_world.
Proof.
  apply (reachable_new walk_component {[ 7%Z := asset_7_loaded ]} (ref_id 7)
           "walk" two true).
  - intros j a H. apply lookup_singleton_Some in H as (_ & <-). reflexivity.
  - vm_compute. reflexivity.
Qed.


(** ** Assets leaving the registry *)

Lemma call_all_removed (ls : list listener) (arg : Z) (w : world) :
  Forall (fun l => l_handler l = h_onSpriteAssetRemove) ls ->
  call_all ls arg w = Some w.
Proof.
  induction 1 as [|l ls Hl _ IH]; [reflexivity|].
  cbn. rewrite Hl. cbn. exact IH.
Qed.

Lemma named_remove (ls : list listener) :
  Forall asset_listener ls ->
  Forall (fun l => l_handler l = h_onSpriteAssetRemove) (named e_remove ls).
Proof.
  unfold named. induction 1 as [|l ls Hl _ IH]; cbn; [constructor|].
  destruct Hl as [-> | [-> | ->]]; cbn;
    [exact IH | exact IH | constructor; [reflexivity | exact IH]].
Qed.

Lemma asset_listeners_last (ls : list listener) :
  Forall asset_listener ls -> Forall (fun l => l_once l = false) ls.
Proof.
  induction 1 as [|l ls Hl _ IH]; constructor; [|exact IH].
  destruct Hl as [-> | [-> | ->]]; reflexivity.
Qed.

(** X26: Removing a registered asset from the registry changes nothing in
    the clip: [_onSpriteAssetRemove] does nothing, so the sprite and
    [_spriteAsset] stay as they are, also when the asset is the bound one;
    the registry no longer holds the asset, and the asset object keeps the
    listeners of the clip. *)
Theorem removal_leaves_clip (w : world) (i : Z) (a : asset) :
  consistent w ->
  assets w !! i = Some a ->
  exists w',
    assets_remove i w = Some w' /\
    st w' = st w /\
    registry_listeners w' = registry_listeners w /\
    load_requests w' = load_requests w /\
    assets w' = delete i (assets w) /\
    asset_object i w' = Some a.
Proof.
  intros (Hc & _) Ha. destruct (Hc i a Ha) as (HF & _).
  unfold assets_remove, asset_fire. rewrite Ha.
  unfold asset_object at 1. cbn [assets detached].
  rewrite lookup_delete_eq, lookup_insert_eq.
  rewrite call_all_removed by now apply named_remove.
  eexists. split; [reflexivity|]. cbn.
  repeat (split; [reflexivity|]).
  split.
  - apply map_eq. intros j. destruct (decide (j = i)) as [->|Hne].
    + now rewrite lookup_alter_eq, lookup_delete_eq.
    + now rewrite lookup_alter_ne by congruence.
  - unfold asset_object. cbn.
    rewrite lookup_alter_eq, !lookup_delete_eq. cbn.
    rewrite lookup_alter_eq, lookup_insert_eq. cbn.
    rewrite spend_lasting by now apply asset_listeners_last.
    now destruct a.
Qed.

Lemma removal_leaves_clip_witness :
  exists w',
    assets_remove 7 loaded_world = Some w' /\
    st w' = st loaded_world /\
    registry_listeners w' = registry_listeners loaded_world /\
    load_requests w' = load_requests loaded_world /\
    assets w' = delete 7%Z (assets loaded_world) /\
    asset_object 7 w' =
      Some (with_listeners
              (on e_remove h_onSpriteAssetRemove
                 (on e_change h_onSpriteAssetChange
                    (on e_load h_onSpriteAssetLoad []))) asset_7_loaded).
Proof.
  apply (removal_leaves_clip loaded_world 7).
  - exact (reachable_consistent loaded_world loaded_world_reachable).
  - vm_compute. reflexivity.
Defined.


(** ** Clips that are not the current one *)

#[local] Arguments renderer_calls : simpl never.

Lemma renderer_calls_app (es es' : list effect) :
  renderer_calls (es ++ es') = renderer_calls es ++ renderer_calls es'.
Proof. unfold renderer_calls. apply List.filter_app. Qed.

Ltac quiet_effects :=
  cbn; rewrite ?renderer_calls_app;
  repeat (change (renderer_calls [Fire ?e; ComponentFire ?e]) with
            (@nil effect));
  repeat (change (renderer_calls [SpriteOff ?r]) with (@nil effect));
  repeat (change (renderer_calls [SpriteOn ?r]) with (@nil effect));
  rewrite ?app_nil_r; auto.

Lemma silent_refl (s : state) : silent s s.
Proof. split; auto. Qed.

Lemma silent_trans (s1 s2 s3 : state) :
  silent s1 s2 -> silent s2 s3 -> silent s1 s3.
Proof.
  intros (C1 & H1) (C2 & H2). split; [congruence|].
  intros H. rewrite H2, H1; auto. now rewrite C1.
Qed.

Lemma set_frame_silent (v : num) (s : state) : silent s (set_frame v s).
Proof.
  split; [apply set_frame_static|].
  intros H. rewrite set_frame_effects, H. now rewrite app_nil_r.
Qed.

Lemma set_time_silent (v : num) (s : state) : silent s (set_time v s).
Proof.
  unfold set_time.
  repeat match goal with
         | |- context [if ?b then _ else _] => destruct b
         | |- context [match ?x with Some _ => _ | None => _ end] =>
             destruct x
         end;
    (eapply silent_trans; [|apply set_frame_silent]);
    (split; [reflexivity | intros _; reflexivity]).
Qed.

Lemma set_sprite_silent (v : option sprite_t) (s : state) :
  silent s (set_sprite v s).
Proof.
  unfold set_sprite.
  set (s3 := match _sprite (this (on_this (with_sprite v) _)) with
             | Some sp => _
             | None => _
             end).
  assert (H : silent s s3).
  { subst s3. split.
    - destruct (_sprite (this s)), v; reflexivity.
    - intros _. destruct (_sprite (this s)), v; quiet_effects. }
  clearbody s3. destruct H as (C & H).
  destruct (currentClip_is_this (component s3)) eqn:E; [|split; auto].
  split.
  - destruct v as [[r fr [a|]]|]; cbn.
    + set (s4 := match texture a with Some t0 => _ | None => s3 end).
      assert (C4 : component s4 = component s3).
      { subst s4. destruct (texture a); [|reflexivity].
        now destruct (_meshInstance (component s3)). }
      clearbody s4.
      destruct (truthy (_time (this s4)));
        [rewrite (proj1 (set_time_silent _ s4))
        |rewrite (proj1 (set_frame_silent _ s4))]; congruence.
    + now destruct (_meshInstance (component s3)).
    + now destruct (_meshInstance (component s3)).
  - intros Hc. rewrite <- C, E in Hc. discriminate.
Qed.

Lemma perform_silent (o : operation) (s : state) : silent s (perform o s).
Proof.
  destruct o; cbn.
  - apply set_frame_silent.
  - apply set_time_silent.
  - unfold play. case_if; [apply silent_refl|].
    match goal with
    | |- context [set_frame ?x ?y] =>
        destruct (set_frame_silent x y) as (C & H)
    end.
    split; [exact C|]. intros Hc. cbn. rewrite renderer_calls_app, H by auto.
    quiet_effects.
  - unfold pause. case_if; [apply silent_refl|]. split; [reflexivity|].
    intros _. quiet_effects.
  - unfold resume. case_if; [apply silent_refl|]. split; [reflexivity|].
    intros _. quiet_effects.
  - unfold stop. case_if; [apply silent_refl|].
    match goal with
    | |- context [set_frame ?x ?y] =>
        destruct (set_frame_silent x y) as (C & H)
    end.
    split; [exact C|]. intros Hc. cbn. rewrite renderer_calls_app, H by auto.
    quiet_effects.
Qed.

Lemma update_silent (dt : num) (s : state) : silent s (_update dt s).
Proof.
  split; [apply update_static|].
  intros Hc. unfold _update.
  destruct (seq (fps (this s)) zero); [reflexivity|].
  destruct (negb (_playing (this s)) || _paused (this s)); [reflexivity|].
  repeat match goal with
         | |- context [if ?b then _ else _] => destruct b
         end;
    cbn; rewrite ?renderer_calls_app;
    try match goal with
        | |- context [set_frame ?x ?y] =>
            rewrite (proj2 (set_frame_silent x y)) by exact Hc
        end; quiet_effects.
Qed.

(** X19: Whatever happens to a clip that is not the current clip of its
    component (a call of the host, an update, a callback of the asset
    system), it makes no call into the renderer: no frame is shown and no
    parameter of the mesh instance is set or deleted. *)
Theorem inactive_clip_never_renders (w w' : world) :
  step w w' ->
  currentClip_is_this (component (st w)) = false ->
  renderer_calls (effects (st w')) = renderer_calls (effects (st w)) /\
  component (st w') = component (st w).
Proof.
  intros Hs Hc.
  assert (H : silent (st w) (st w')).
  { assert (Hframe : forall w1 w2, asset_step w1 w2 ->
                       silent (st w1) (st w2)).
    { intros w1 w2. apply asset_step_frame.
      - apply silent_refl.
      - apply silent_trans.
      - intros v s. apply set_sprite_silent.
      - intros id s. split; [reflexivity | intros _; reflexivity]. }
    destruct Hs as
      [v w w' H | o w | dt w | w | a w w' Hnew H | i res w w' H
      | i n w w' H | i w w' H | i w w' H].
    - exact (Hframe w w' (asset_step_spriteAsset v w w' H)).
    - apply perform_silent.
    - apply update_silent.
    - cbn. unfold _onSpriteMeshesChange. rewrite Hc. apply silent_refl.
    - exact (Hframe w w' (asset_step_add a w w' H)).
    - exact (Hframe w w' (asset_step_loaded i res w w' H)).
    - exact (Hframe w w' (asset_step_asset_fire i n w w' H)).
    - exact (Hframe w w' (asset_step_registry_fire _ i w w' H)).
    - exact (Hframe w w' (asset_step_remove i w w' H)). }
  destruct H as (C & H). auto.
Qed.

Lemma inactive_clip_never_renders_witness :
  let w := {| st := {| this := this looping_4_at_2;
                       component := {| speed := one;
                                       currentClip_is_this := false;
                                       _meshInstance := true |};
                       effects := [] |};
              assets := ∅; detached := ∅;
              registry_listeners := []; load_requests := [] |} in
  renderer_calls (effects (st (on_state (_update (Fin (7 # 10))) w)))
    = renderer_calls (effects (st w)) /\
  component (st (on_state (_update (Fin (7 # 10))) w)) = component (st w).
Proof.
  intros w.
  apply (inactive_clip_never_renders w); [|reflexivity].
  apply step_update.
Defined.

(** ** The frame setter and the sprite setter within bounds *)

(** What the frame setter stores for a finite value, on a clip with a
    positive [fps] and a sprite of at least one frame, within range. *)
Lemma set_frame_range (s : state) (sp : sprite_t) (f v : Q) :
  _sprite (this s) = Some sp ->
  fps (this s) = Fin f ->
  0 < f ->
  frames sp <> [] ->
  within_range sp (this s) ->
  exists r t dq : Q,
    duration (this s) = Fin dq /\
    _frame (this (set_frame (Fin v) s)) = Fin r /\
    0 <= r <= inject_Z (frame_total sp) /\
    (0 < v < inject_Z (frame_total sp) -> r = v) /\
    _time (this (set_frame (Fin v) s)) = Fin t /\
    seq (Fin t) (div (Fin r) (Fin f)) = true /\
    0 <= t <= dq.
Proof.
  intros Hsp Hfps Hpos Hne Hrange.
  destruct (duration_finite _ _ _ Hsp Hfps Hpos Hne Hrange)
    as (dq & Hd & Heq & Hdpos & Hdb & Hnd).
  destruct (set_frame_bound (Fin v) s sp Hsp) as (-> & ->).
  unfold time_at. rewrite (frame_count_n sp), Hd.
  pose proof (n_positive sp Hne) as Hn. rewrite Zlt_Qlt in Hn.
  change (inject_Z 0) with 0 in Hn.
  destruct (clamp_Fin v (inject_Z (frame_total sp))) as (r & -> & Hr).
  assert (Hr0 : 0 <= r <= inject_Z (frame_total sp)).
  { destruct Hr as [(H1 & ->)|[(H1 & H2 & ->)|(H1 & H2 & ->)]]; lra. }
  destruct (time_of_frame _ _ _ Hsp Hfps Hpos Hne Hrange r dq Hd Hr0)
    as (Hdiv & t & Hclamp & Ht & Ht0).
  rewrite Hdiv, Hclamp.
  exists r, t, dq.
  repeat split; try reflexivity; try apply Hr0; try apply Ht0.
  - intros Hv.
    destruct Hr as [(K1 & ->)|[(K1 & K2 & ->)|(K1 & K2 & ->)]];
      try reflexivity; exfalso; lra.
  - rewrite Hfps, or_else_positive in Hdiv by exact Hpos.
    rewrite Hdiv. now apply seq_Fin.
Qed.

(** X23: assigning a finite [frame] on a clip with a positive [fps] and a
    sprite of at least one frame, within range, stores a frame between [0]
    and [frames.length] (the value itself when it lies strictly between
    them) and, as the time, that frame divided by [fps]
    ([time === frame / fps]), between [0] and the duration. *)
Theorem set_frame_in_range (s : state) (sp : sprite_t) (f v : Q) :
  _sprite (this s) = Some sp ->
  fps (this s) = Fin f ->
  0 < f ->
  frames sp <> [] ->
  within_range sp (this s) ->
  exists r t dq : Q,
    duration (this s) = Fin dq /\
    _frame (this (set_frame (Fin v) s)) = Fin r /\
    0 <= r <= inject_Z (frame_total sp) /\
    (0 < v < inject_Z (frame_total sp) -> r = v) /\
    _time (this (set_frame (Fin v) s)) = Fin t /\
    seq (Fin t) (div (Fin r) (Fin f)) = true /\
    0 <= t <= dq.
Proof. exact (set_frame_range s sp f v). Qed.

Lemma set_frame_in_range_witness :
  exists r t dq : Q,
    duration (this looping_4_at_2) = Fin dq /\
    _frame (this (set_frame (Fin 7) looping_4_at_2)) = Fin r /\
    0 <= r <= inject_Z (frame_total (sprite_of 4)) /\
    (0 < 7 < inject_Z (frame_total (sprite_of 4)) -> r = 7) /\
    _time (this (set_frame (Fin 7) looping_4_at_2)) = Fin t /\
    seq (Fin t) (div (Fin r) (Fin 2)) = true /\
    0 <= t <= dq.
Proof.
  apply (set_frame_in_range looping_4_at_2 (sprite_of 4) 2 7);
    try reflexivity; try discriminate.
  split; vm_compute; reflexivity.
Defined.

(** On the current clip, assigning a sprite that has an atlas ends in the
    time setter or the frame setter, run on the clip with the new sprite. *)
Lemma set_sprite_current (s : state) (sp' : sprite_t) (a : atlas_t) :
  currentClip_is_this (component s) = true ->
  atlas sp' = Some a ->
  exists s4 : state,
    this s4 = with_sprite (Some sp') (this s) /\
    set_sprite (Some sp') s =
      if truthy (_time (this s))
      then set_time (_time (this s)) s4
      else set_frame (_frame (this s)) s4.
Proof.
  intros Hcur Ha. unfold set_sprite.
  set (s1 := match _sprite (this s) with
             | Some old => _
             | None => s
             end).
  assert (H1 : this s1 = this s /\ component s1 = component s).
  { subst s1. now destruct (_sprite (this s)). }
  clearbody s1. destruct H1 as (T1 & C1).
  cbn [this on_this with_sprite _sprite component emit].
  rewrite C1, Hcur.
  destruct sp' as [r fr at']. cbn in Ha. subst at'.
  set (s3 := emit _ _).
  set (s4 := match texture a with
             | Some t0 => _
             | None => s3
             end).
  assert (H4 : this s4 = with_sprite (Some {| sprite_ref := r; frames := fr;
                                              atlas := Some a |}) (this s)).
  { subst s4 s3. rewrite <- T1.
    destruct (texture a); [|reflexivity].
    now destruct (_meshInstance _). }
  clearbody s4. exists s4. split; [exact H4|].
  rewrite H4. reflexivity.
Qed.

(** X24: on the current clip, with a positive [fps] that is a Number and a
    finite time and frame, assigning a sprite that has an atlas and at
    least one frame, within range, stores the sprite and derives frame and
    time again within the bounds of the new sprite: a frame between [0] and
    its [frames.length] and, as the time, that frame divided by [fps]
    ([time === frame / fps]), between [0] and the new duration. *)
Theorem set_sprite_rederives_frame
    (s : state) (sp' : sprite_t) (a : atlas_t) (f q v : Q) :
  currentClip_is_this (component s) = true ->
  atlas sp' = Some a ->
  fps (this s) = Fin f ->
  0 < f ->
  Number f ->
  frames sp' <> [] ->
  within_range sp' (with_sprite (Some sp') (this s)) ->
  _time (this s) = Fin q ->
  _frame (this s) = Fin v ->
  exists r t dq : Q,
    _sprite (this (set_sprite (Some sp') s)) = Some sp' /\
    duration (this (set_sprite (Some sp') s)) = Fin dq /\
    _frame (this (set_sprite (Some sp') s)) = Fin r /\
    0 <= r <= inject_Z (frame_total sp') /\
    _time (this (set_sprite (Some sp') s)) = Fin t /\
    seq (Fin t) (div (Fin r) (Fin f)) = true /\
    0 <= t <= dq.
Proof.
  intros Hcur Ha Hfps Hpos Hnum Hne Hrange Hq Hv.
  destruct (set_sprite_current s sp' a Hcur Ha) as (s4 & H4 & E).
  assert (Hsp : _sprite (this s4) = Some sp') by now rewrite H4.
  assert (Hf4 : fps (this s4) = Fin f) by now rewrite H4.
  assert (Hr4 : within_range sp' (this s4)) by now rewrite H4.
  rewrite Hq, Hv in E.
  assert (Hdur : forall s', _sprite (this s') = Some sp' ->
            fps (this s') = Fin f ->
            duration (this s') = duration (this s4)).
  { intros s' A B. unfold duration. now rewrite A, B, Hsp, Hf4. }
  destruct (truthy (Fin q)).
  - destruct (duration_finite _ _ _ Hsp Hf4 Hpos Hne Hr4)
      as (dq & Hd & Heq & _).
    destruct (duration_not_tiny sp' f Hpos Hnum Hne) as (_ & Hdpos).
    rewrite <- Heq in Hdpos.
    destruct (set_time_range s4 sp' f q dq Hsp Hf4 Hd Hdpos)
      as (k & t & Hfr & Hk & Ht & Htk & Ht0 & _).
    exists (inject_Z k), t, dq. rewrite E.
    assert (S' : _sprite (this (set_time (Fin q) s4)) = Some sp')
      by now rewrite set_time_sprite.
    assert (F' : fps (this (set_time (Fin q) s4)) = Fin f).
    { pose proof (set_time_playback (Fin q) s4) as P.
      unfold playback in P. injection P as _ _ P _ _.
      now rewrite P. }
    rewrite (Hdur _ S' F').
    assert (Hk' : 0 <= inject_Z k <= inject_Z (frame_total sp')).
    { change 0 with (inject_Z 0). rewrite <- !Zle_Qle. exact Hk. }
    repeat split; try assumption; try apply Ht0; apply Hk'.
  - destruct (set_frame_range s4 sp' f v Hsp Hf4 Hpos Hne Hr4)
      as (r & t & dq & Hd & Hfr & Hr0 & _ & Ht & Htk & Ht0).
    exists r, t, dq. rewrite E.
    rewrite duration_set_frame.
    destruct (set_frame_static (Fin v) s4) as (_ & _ & S' & _).
    repeat split; try assumption; try apply Hr0; try apply Ht0.
    now rewrite S'.
Qed.

Lemma set_sprite_rederives_frame_witness :
  exists r t dq : Q,
    _sprite (this (set_sprite (Some sprite_with_atlas) once_2_at_2))
      = Some sprite_with_atlas /\
    duration (this (set_sprite (Some sprite_with_atlas) once_2_at_2))
      = Fin dq /\
    _frame (this (set_sprite (Some sprite_with_atlas) once_2_at_2))
      = Fin r /\
    0 <= r <= inject_Z (frame_total sprite_with_atlas) /\
    _time (this (set_sprite (Some sprite_with_atlas) once_2_at_2))
      = Fin t /\
    seq (Fin t) (div (Fin r) (Fin 2)) = true /\
    0 <= t <= dq.
Proof.
  apply (set_sprite_rederives_frame once_2_at_2 sprite_with_atlas
           {| texture := Some 9%Z |} 2 0 0);
    try (vm_compute; reflexivity); try discriminate.
  split; vm_compute; reflexivity.
Defined.

(** ** Skeletal animations *)

Module AnimFacts.
Import Anim.

Lemma after_snoc (cs : list call) (c : call) :
  after (cs ++ [c]) = run c (after cs).
Proof. unfold after. now rewrite fold_left_app. Qed.

Lemma added_snoc (cs : list call) (c : call) :
  added (cs ++ [c]) =
  added cs ++ match c with call_addNode n => [n] | _ => [] end.
Proof. unfold added. rewrite omap_app. now destruct c. Qed.

Lemma last_named_snoc (key : string) (ns : list Node) (n : Node) :
  last_named key (ns ++ [n]) =
  if String.eqb (_name n) key then Some n else last_named key ns.
Proof. unfold last_named. now rewrite rev_app_distr. Qed.

(** X20: Adding a node whose name is not ["__proto__"] makes [getNode] find it
    under its name, and changes what [getNode] gives for no other name. *)
Theorem addNode_getNode (n : Node) (a : Animation) :
  _name n <> "__proto__" ->
  getNode (_name n) (addNode n a) = found n /\
  forall key, key <> _name n ->
    getNode key (addNode n a) = getNode key a.
Proof.
  intros Hn. unfold getNode, addNode, get_property, set_property. cbn.
  apply String.eqb_neq in Hn. rewrite Hn. cbn. split.
  - now rewrite lookup_insert_eq.
  - intros key Hk. now rewrite lookup_insert_ne by congruence.
Qed.

Lemma addNode_getNode_witness :
  getNode (_name walk_node) (addNode walk_node new_Animation)
    = found walk_node /\
  forall key, key <> _name walk_node ->
    getNode key (addNode walk_node new_Animation)
    = getNode key new_Animation.
Proof. apply (addNode_getNode walk_node new_Animation). discriminate. Defined.

(** X21: After any calls on a new animation that add no node named
    ["__proto__"], [getNodes] lists the added nodes in the order they were
    added, repeated names included, while [getNode] finds under a name the
    node added last under it, and nothing of its own under a name that was
    not added. *)
Theorem getNode_finds_last_added (cs : list call) (key : string) :
  (forall n, In n (added cs) -> _name n <> "__proto__") ->
  getNodes (after cs) = added cs /\
  nodes (after cs) = added cs /\
  getNode key (after cs) =
    match last_named key (added cs) with
    | Some n => found n
    | None => inherited None key
    end.
Proof.
  intros Hns.
  assert (H : _nodes (after cs) = added cs /\
              proto (_nodeDict (after cs)) = None /\
              own (_nodeDict (after cs)) !! key = last_named key (added cs)).
  { induction cs as [|c cs IH] using rev_ind.
    - repeat split.
    - rewrite after_snoc, added_snoc. rewrite added_snoc in Hns.
      destruct IH as (I1 & I2 & I3).
      { intros n Hin. apply Hns, in_or_app. now left. }
      destruct c as [n| |]; cbn; rewrite ?app_nil_r; auto.
      assert (Hn : _name n <> "__proto__").
      { apply Hns, in_or_app. right. now left. }
      apply String.eqb_neq in Hn.
      unfold set_property. rewrite Hn. cbn.
      rewrite I1, last_named_snoc. repeat split; [exact I2|].
      destruct (String.eqb (_name n) key) eqn:E.
      + apply String.eqb_eq in E. subst key. apply lookup_insert_eq.
      + apply String.eqb_neq in E. now rewrite lookup_insert_ne. }
  destruct H as (H1 & H2 & H3).
  unfold getNodes, nodes, getNode, get_property.
  rewrite H1, H2, H3. repeat split.
Qed.

Lemma getNode_finds_last_added_witness :
  let cs := [call_addNode walk_node; call_setName "run";
             call_addNode other_node] in
  getNodes (after cs) = [walk_node; other_node] /\
  nodes (after cs) = [walk_node; other_node] /\
  getNode "hip" (after cs) = found other_node.
Proof.
  intros cs.
  apply (getNode_finds_last_added cs "hip").
  intros n [<-|[<-|[]]]; discriminate.
Defined.

(** X22: After any calls on a new animation, a node that [getNode] finds under
    a name carries that name and is among the nodes [getNodes] lists; so is
    a node that has become the prototype of the dictionary, whose name is
    ["__proto__"]. *)
Theorem found_nodes_are_listed (cs : list call) (key : string) :
  (forall n, getNode key (after cs) = found n ->
     In n (getNodes (after cs)) /\ _name n = key) /\
  (forall p, getNode key (after cs) = inherited (Some p) key ->
     In p (getNodes (after cs)) /\ _name p = "__proto__").
Proof.
  assert (H : forall k,
            (forall n, own (_nodeDict (after cs)) !! k = Some n ->
               In n (_nodes (after cs)) /\ _name n = k) /\
            (forall p, proto (_nodeDict (after cs)) = Some p ->
               In p (_nodes (after cs)) /\ _name p = "__proto__")).
  { induction cs as [|c cs IH] using rev_ind; intros k.
    - split; intros n; cbn; [|discriminate].
      rewrite lookup_empty. discriminate.
    - rewrite after_snoc. destruct (IH k) as (I1 & I2).
      destruct c as [n| |]; cbn; [|auto|auto].
      unfold set_property.
      destruct (String.eqb (_name n) "__proto__") eqn:E; cbn.
      + apply String.eqb_eq in E. split.
        * intros m Hm. destruct (I1 m Hm). split; [|assumption].
          apply in_or_app. now left.
        * intros p [= <-]. split; [|exact E].
          apply in_or_app. right. now left.
      + split.
        * intros m. destruct (decide (_name n = k)) as [<-|Hk].
          -- rewrite lookup_insert_eq. intros [= <-]. split; [|reflexivity].
             apply in_or_app. right. now left.
          -- rewrite lookup_insert_ne by exact Hk. intros Hm.
             destruct (I1 m Hm). split; [|assumption].
             apply in_or_app. now left.
        * intros p Hp. destruct (I2 p Hp). split; [|assumption].
          apply in_or_app. now left. }
  destruct (H key) as (H1 & H2).
  unfold getNode, getNodes, get_property. split.
  - intros n. destruct (own (_nodeDict (after cs)) !! key) as [m|] eqn:E;
      [|discriminate].
    intros [= <-]. now apply H1.
  - intros p. destruct (own (_nodeDict (after cs)) !! key) as [m|] eqn:E;
      [discriminate|].
    intros [= Hp]. now apply H2.
Qed.

Lemma found_nodes_are_listed_witness :
  In walk_node (getNodes (after [call_addNode walk_node])) /\
  _name walk_node = "hip".
Proof.
  apply (proj1 (found_nodes_are_listed [call_addNode walk_node] "hip")
           walk_node).
  reflexivity.
Defined.

End AnimFacts.
